(** * MOSViz viewer: catalog unpacking, navigation, loader resolution and
    data refresh

    A shallow embedding of [MOSVizViewer] (mosviz/viewers/mos_viewer.py)
    together with the part of [MOSViewerToolbar]
    (mosviz/widgets/toolbars.py) that the viewer reads and writes.

    The viewer is one mutable Python object.  It is modelled as a record
    [Viewer]; every method becomes an [Action], a function from the viewer
    before the call to the outcome of the call and the viewer after it.  A
    raised Python exception is an outcome like any other: the assignments made
    before the [raise] stay in the viewer that is handed back.

    The host application (glue), the table library (astropy), the array
    library (numpy) and the widget toolkit (Qt) are not part of the
    repository.  The operations the viewer calls on them are modelled below
    with the behaviour the viewer relies on.  Signal delivery by the toolkit
    is not modelled: the slots connected in [setup_connections] are the entry
    points [load_selection] and [_set_navigation] themselves, and a change of
    the selector's current index made by the viewer's own code
    ([clear], [addItems], [setCurrentIndex]) is an update of the toolbar that
    calls no slot.  In the program such a change emits [currentIndexChanged]
    and runs the two slots on the new index before the method goes on. *)

From Stdlib Require Import Ascii String ZArith Lia.
From stdpp Require Import base option list gmap strings fin_maps.

(** ** Python outcomes *)

Inductive Exception :=
| KeyError
| IndexError
| TypeError
| ValueError
| AttributeError
| StopIteration
| OSError.

Inductive Outcome (A : Type) :=
| Returned (a : A)
| Raised (e : Exception).

Arguments Returned {A} a.
Arguments Raised {A} e.

Definition outcome_bind {A B : Type} (o : Outcome A) (f : A -> Outcome B) : Outcome B :=
  match o with
  | Returned a => f a
  | Raised e => Raised e
  end.

(** ** Values carried by the catalog *)

(** A table cell: a string (labels, file paths) or a number.  Numbers are
    copied from the host data and shown, never computed on. *)
Inductive Cell :=
| CStr (s : string)
| CNum (z : Z).

(** The catalog metadata dictionary; the viewer only ever reads its
    ["loaders"] entry, a mapping from product kind to loader label. *)
Record Meta := { loaders : option (gmap string string) }.

(** An astropy [Table]: ordered named columns and the attached metadata. *)
Record Table := { meta : Meta; columns : list (string * list Cell) }.

(** An astropy [Row], by value: one cell per column, in column order. *)
Record Row := { row_cells : list (string * Cell) }.

Definition colnames (r : Row) : list string := (row_cells r).*1.

Definition table_len (t : Table) : nat :=
  match columns t with
  | [] => 0
  | (_, c) :: _ => length c
  end.

Fixpoint assoc_lookup {A : Type} (name : string) (l : list (string * A)) : option A :=
  match l with
  | [] => None
  | (n, a) :: rest => if String.eqb n name then Some a else assoc_lookup name rest
  end.

Fixpoint assoc_replace {A : Type} (name : string) (a : A) (l : list (string * A)) : list (string * A) :=
  match l with
  | [] => []
  | (n, b) :: rest =>
      if String.eqb n name then (n, a) :: rest else (n, b) :: assoc_replace name a rest
  end.

(** [table[name] = values]: the first column fixes the number of rows, a
    later column of another length is refused, an existing name is replaced
    where it stands. *)
Definition table_setitem (name : string) (values : list Cell) (t : Table) : Outcome Table :=
  match columns t with
  | [] => Returned {| meta := meta t; columns := [(name, values)] |}
  | _ :: _ =>
      if Nat.eqb (length values) (table_len t) then
        match assoc_lookup name (columns t) with
        | Some _ => Returned {| meta := meta t; columns := assoc_replace name values (columns t) |}
        | None => Returned {| meta := meta t; columns := columns t ++ [(name, values)] |}
        end
      else Raised ValueError
  end.

(** Every column of a table has the table's number of rows. *)
Definition rectangular (t : Table) : Prop :=
  Forall (fun c => length c.2 = table_len t) (columns t).

(** [table[name][:]] *)
Definition table_column (name : string) (t : Table) : Outcome (list Cell) :=
  match assoc_lookup name (columns t) with
  | Some c => Returned c
  | None => Raised KeyError
  end.

Fixpoint row_at (i : nat) (cols : list (string * list Cell)) : Outcome (list (string * Cell)) :=
  match cols with
  | [] => Returned []
  | (n, c) :: rest =>
      match c !! i with
      | Some x => outcome_bind (row_at i rest) (fun r => Returned ((n, x) :: r))
      | None => Raised IndexError
      end
  end.

(** [table[index]] for an integer index; Python counts a negative index from
    the end. *)
Definition table_getitem (index : Z) (t : Table) : Outcome Row :=
  let n := Z.of_nat (table_len t) in
  if ((- n <=? index) && (index <? n))%Z then
    let i := Z.to_nat (if (index <? 0)%Z then index + n else index)%Z in
    outcome_bind (row_at i (columns t)) (fun r => Returned {| row_cells := r |})
  else Raised IndexError.

(** [row[name]] *)
Definition row_getitem (name : string) (r : Row) : Outcome Cell :=
  match assoc_lookup name (row_cells r) with
  | Some x => Returned x
  | None => Raised KeyError
  end.

(** ** File paths *)

(** [s.split('/')] *)
Fixpoint split_slash (s : string) : list string :=
  match s with
  | EmptyString => [EmptyString]
  | String c rest =>
      if Ascii.eqb c "/"%char then EmptyString :: split_slash rest
      else
        match split_slash rest with
        | [] => [String c EmptyString]
        | seg :: segs => String c seg :: segs
        end
  end.

(** ['/'.join(l)] *)
Definition join_slash (l : list string) : string :=
  match l with
  | [] => EmptyString
  | x :: xs => fold_left (fun acc y => acc +:+ "/" +:+ y) xs x
  end.

(** ['/'.join(p.split('/')[:-1])] *)
Definition parent_path (p : string) : string :=
  join_slash (removelast (split_slash p)).

Fixpoint ends_with_slash (s : string) : bool :=
  match s with
  | EmptyString => false
  | String c EmptyString => Ascii.eqb c "/"%char
  | String _ rest => ends_with_slash rest
  end.

Definition starts_with_slash (s : string) : bool :=
  match s with
  | String c _ => Ascii.eqb c "/"%char
  | EmptyString => false
  end.

(** [os.path.join(a, b)] on a POSIX system *)
Definition os_path_join (a b : string) : string :=
  if starts_with_slash b then b
  else if String.eqb a EmptyString || ends_with_slash a then a +:+ b
  else a +:+ "/" +:+ b.

(** ** Host data *)

(** A glue [Component] of a one-dimensional data set.  [load_log_path] is
    [component._load_log.path]; it is absent on a component that was not read
    from a file. *)
Inductive Component :=
| CategoricalComponent (labels : list string) (load_log_path : option string)
| NumericComponent (data : list Z).

(** A glue [Data]: metadata and the components in the order of
    [data.components], each under the text of its component id. *)
Record Data := { data_meta : Meta; components : list (string * Component) }.

(** A glue [Subset]: [to_mask] is [None] when [to_mask()] raises
    [IncompatibleAttribute]. *)
Record Subset := { to_mask : option (list bool); subset_data : Data }.

Inductive Selection :=
| OfData (d : Data)
| OfSubset (s : Subset).

(** [np.any(mask)] *)
Definition np_any (mask : list bool) : bool := existsb id mask.

Fixpoint select_by_mask {A : Type} (mask : list bool) (xs : list A) : list A :=
  match mask, xs with
  | b :: mask', x :: xs' => if b then x :: select_by_mask mask' xs' else select_by_mask mask' xs'
  | _, _ => []
  end.

(** [arr[mask]] followed by the [ndim > 1] adjustment of the unpacker.
    With [mask = None] numpy adds a leading axis, which the adjustment takes
    away again: the array comes back whole.  With a boolean mask the marked
    entries are selected; a mask of another length is an [IndexError]. *)
Definition index_by_mask {A : Type} (mask : option (list bool)) (xs : list A) : Outcome (list A) :=
  match mask with
  | None => Returned xs
  | Some m =>
      if Nat.eqb (length m) (length xs) then Returned (select_by_mask m xs)
      else Raised IndexError
  end.

Definition product_columns : list string := ["spectrum1d"; "spectrum2d"; "cutout"].

Definition is_product_column (att : string) : bool :=
  existsb (String.eqb att) product_columns.

(** The cells one component contributes to the catalog: the body of the
    [for att in col_names] loop up to the column assignment. *)
Definition unpack_component (mask : option (list bool)) (att : string) (component : Component)
  : Outcome (list Cell) :=
  match component with
  | CategoricalComponent labels log =>
      outcome_bind (index_by_mask mask labels) (fun comp_labels =>
        if is_product_column att then
          match log with
          | None => Raised AttributeError
          | Some p =>
              let path := parent_path p in
              Returned (map (fun x => CStr (os_path_join path x)) comp_labels)
          end
        else Returned (map CStr comp_labels))
  | NumericComponent data =>
      outcome_bind (index_by_mask mask data) (fun comp_data =>
        Returned (map CNum comp_data))
  end.

(** ** Loaded products and the host's loader registry *)

(** The values of a loaded glue data object: its named components and the
    WCS of its coordinates, when it has one. *)
Record DataValues := { named_components : gmap string (list Z); coords_wcs : option Z }.

(** A data object handed back by a loader: a Python object with an identity
    and its values at the time of the call. *)
Record DataObject := { object_id : nat; object_values : DataValues }.

(** The loader functions: the three readers of [mos_loaders] the viewer
    names, and any other function a plugin registered. *)
Inductive LoaderFunction :=
| nirspec_spectrum1d_reader
| nirspec_spectrum2d_reader
| acs_cutout_image_reader
| plugin_reader (n : nat).

(** What the viewer is given by its surroundings: the members of
    [config.data_factory], as (label, function) in registration order, and
    the behaviour of each loader function on a path cell. *)
Class Host := {
  data_factory_members : list (string * LoaderFunction);
  call_loader : LoaderFunction -> Cell -> Outcome DataValues
}.

(** [next(x.function for x in members if x.label == label)], [None] when the
    generator is exhausted. *)
Definition first_labelled (label : string) (members : list (string * LoaderFunction))
  : option LoaderFunction :=
  snd <$> List.find (fun x => String.eqb (fst x) label) members.

(** One of the three blocks of [_get_loaders].  The second argument of the
    outer [next] is itself a call of [next] without a default: Python
    evaluates it before the outer call, so an absent default label raises
    [StopIteration] whatever the override is. *)
Definition resolve_loader `{Host} (key default_label : string) (builtin : LoaderFunction)
    (overrides : gmap string string) : Outcome LoaderFunction :=
  match overrides !! key with
  | Some name =>
      match first_labelled default_label data_factory_members with
      | None => Raised StopIteration
      | Some fallback =>
          Returned (default fallback (first_labelled name data_factory_members))
      end
  | None => Returned builtin
  end.

(** ** The viewer *)

(** The toolbar state the viewer touches: the source selector (a combo box)
    and the two cycle actions. *)
Record Toolbar := {
  source_select_items : list Cell;
  source_select_currentIndex : Z;
  cycle_previous_disabled : bool;
  cycle_next_disabled : bool
}.

Definition source_select_count (tb : Toolbar) : Z := Z.of_nat (length (source_select_items tb)).

Definition source_select_clear (tb : Toolbar) : Toolbar :=
  {| source_select_items := [];
     source_select_currentIndex := (-1)%Z;
     cycle_previous_disabled := cycle_previous_disabled tb;
     cycle_next_disabled := cycle_next_disabled tb |}.

(** Adding items to an empty combo box makes its first item current. *)
Definition source_select_addItems (ids : list Cell) (tb : Toolbar) : Toolbar :=
  {| source_select_items := source_select_items tb ++ ids;
     source_select_currentIndex :=
       match source_select_items tb, ids with
       | [], _ :: _ => 0%Z
       | _, _ => source_select_currentIndex tb
       end;
     cycle_previous_disabled := cycle_previous_disabled tb;
     cycle_next_disabled := cycle_next_disabled tb |}.

Definition source_select_setCurrentIndex (i : Z) (tb : Toolbar) : Toolbar :=
  {| source_select_items := source_select_items tb;
     source_select_currentIndex := i;
     cycle_previous_disabled := cycle_previous_disabled tb;
     cycle_next_disabled := cycle_next_disabled tb |}.

Definition cycle_previous_setDisabled (b : bool) (tb : Toolbar) : Toolbar :=
  {| source_select_items := source_select_items tb;
     source_select_currentIndex := source_select_currentIndex tb;
     cycle_previous_disabled := b;
     cycle_next_disabled := cycle_next_disabled tb |}.

Definition cycle_next_setDisabled (b : bool) (tb : Toolbar) : Toolbar :=
  {| source_select_items := source_select_items tb;
     source_select_currentIndex := source_select_currentIndex tb;
     cycle_previous_disabled := cycle_previous_disabled tb;
     cycle_next_disabled := b |}.

(** What the three plot widgets and the metadata form currently show. *)
Record Widgets := {
  spectrum1d_widget : option (list Z * list Z * list Z);
  spectrum2d_widget : option (list Z * Z);
  image_widget : option (list Z * Z);
  image_shapes : option (Cell * Cell);
  meta_form_layout : list (string * Cell)
}.

(** The viewer instance with the part of the session it acts on:
    [data_collection] is [session.data_collection], [objects] holds the
    current values of the data objects the viewer keeps, [next_object] is the
    identity the next loaded object will get. *)
Record Viewer := {
  catalog : option Table;
  current_row : option Row;
  _loaded_data : gmap string nat;
  toolbar : Toolbar;
  widgets : Widgets;
  data_collection : list nat;
  objects : gmap nat DataValues;
  next_object : nat
}.

Definition set_catalog (c : option Table) (s : Viewer) : Viewer :=
  {| catalog := c; current_row := current_row s; _loaded_data := _loaded_data s;
     toolbar := toolbar s; widgets := widgets s; data_collection := data_collection s;
     objects := objects s; next_object := next_object s |}.

Definition set_current_row (r : option Row) (s : Viewer) : Viewer :=
  {| catalog := catalog s; current_row := r; _loaded_data := _loaded_data s;
     toolbar := toolbar s; widgets := widgets s; data_collection := data_collection s;
     objects := objects s; next_object := next_object s |}.

Definition set_loaded_data (m : gmap string nat) (s : Viewer) : Viewer :=
  {| catalog := catalog s; current_row := current_row s; _loaded_data := m;
     toolbar := toolbar s; widgets := widgets s; data_collection := data_collection s;
     objects := objects s; next_object := next_object s |}.

Definition set_toolbar (tb : Toolbar) (s : Viewer) : Viewer :=
  {| catalog := catalog s; current_row := current_row s; _loaded_data := _loaded_data s;
     toolbar := tb; widgets := widgets s; data_collection := data_collection s;
     objects := objects s; next_object := next_object s |}.

Definition set_widgets (w : Widgets) (s : Viewer) : Viewer :=
  {| catalog := catalog s; current_row := current_row s; _loaded_data := _loaded_data s;
     toolbar := toolbar s; widgets := w; data_collection := data_collection s;
     objects := objects s; next_object := next_object s |}.

Definition set_data_collection (dc : list nat) (s : Viewer) : Viewer :=
  {| catalog := catalog s; current_row := current_row s; _loaded_data := _loaded_data s;
     toolbar := toolbar s; widgets := widgets s; data_collection := dc;
     objects := objects s; next_object := next_object s |}.

Definition set_objects (o : gmap nat DataValues) (s : Viewer) : Viewer :=
  {| catalog := catalog s; current_row := current_row s; _loaded_data := _loaded_data s;
     toolbar := toolbar s; widgets := widgets s; data_collection := data_collection s;
     objects := o; next_object := next_object s |}.

Definition set_next_object (n : nat) (s : Viewer) : Viewer :=
  {| catalog := catalog s; current_row := current_row s; _loaded_data := _loaded_data s;
     toolbar := toolbar s; widgets := widgets s; data_collection := data_collection s;
     objects := objects s; next_object := n |}.

(** The viewer as [__init__] leaves it, opened in a session whose data
    collection holds [dc]. *)
Definition new_viewer (dc : list nat) (fresh : nat) : Viewer :=
  {| catalog := None;
     current_row := None;
     _loaded_data := ∅;
     toolbar := {| source_select_items := []; source_select_currentIndex := (-1)%Z;
                   cycle_previous_disabled := false; cycle_next_disabled := false |};
     widgets := {| spectrum1d_widget := None; spectrum2d_widget := None;
                   image_widget := None; image_shapes := None; meta_form_layout := [] |};
     data_collection := dc;
     objects := ∅;
     next_object := fresh |}.

(** ** Methods as actions on the viewer *)

Definition Action (A : Type) : Type := Viewer -> Outcome A * Viewer.

#[global] Instance Action_ret : MRet Action := fun A a s => (Returned a, s).

#[global] Instance Action_bind : MBind Action := fun A B f m s =>
  match m s with
  | (Returned a, s') => f a s'
  | (Raised e, s') => (Raised e, s')
  end.

Definition raise {A : Type} (e : Exception) : Action A := fun s => (Raised e, s).

Definition lift {A : Type} (o : Outcome A) : Action A := fun s => (o, s).

Definition get : Action Viewer := fun s => (Returned s, s).

Definition modify (f : Viewer -> Viewer) : Action unit := fun s => (Returned tt, f s).

Definition modify_toolbar (f : Toolbar -> Toolbar) : Action unit :=
  modify (fun s => set_toolbar (f (toolbar s)) s).

Definition modify_widgets (f : Widgets -> Widgets) : Action unit :=
  modify (fun s => set_widgets (f (widgets s)) s).

(** [self.catalog[index]] *)
Definition catalog_getitem (index : Z) : Action Row :=
  s ← get;
  match catalog s with
  | Some t => lift (table_getitem index t)
  | None => raise TypeError
  end.

(** [self.catalog[name] = values] *)
Definition catalog_setitem (name : string) (values : list Cell) : Action unit :=
  s ← get;
  match catalog s with
  | Some t =>
      t' ← lift (table_setitem name values t);
      modify (set_catalog (Some t'))
  | None => raise TypeError
  end.

(** *** The host's data collection *)

(** [DataCollection.append] ignores an object it already holds;
    [DataCollection.remove] ignores an object it does not hold. *)
Definition data_collection_append (d : nat) (dc : list nat) : list nat :=
  if bool_decide (d ∈ dc) then dc else dc ++ [d].

Fixpoint data_collection_remove (d : nat) (dc : list nat) : list nat :=
  match dc with
  | [] => []
  | x :: rest => if Nat.eqb x d then rest else x :: data_collection_remove d rest
  end.

(** *** [_update_data_components] *)

Definition _update_data_components (data : DataObject) (key : string) : Action unit :=
  s ← get;
  match _loaded_data s !! key with
  | None =>
      modify (fun s =>
        set_objects (<[object_id data := object_values data]> (objects s))
          (set_data_collection (data_collection_append (object_id data) (data_collection s)) s));;
      modify (fun s => set_loaded_data (<[key := object_id data]> (_loaded_data s)) s)
  | Some cur_data =>
      (* cur_data.update_values_from_data(data) *)
      modify (fun s => set_objects (<[cur_data := object_values data]> (objects s)) s)
  end.

(** *** [render_data] *)

(** [d.get_component(d.id[name]).data] *)
Definition component_data (name : string) (d : DataObject) : Outcome (list Z) :=
  match named_components (object_values d) !! name with
  | Some a => Returned a
  | None => Raised KeyError
  end.

(** [d.coords.wcs] *)
Definition coords_wcs_of (d : DataObject) : Outcome Z :=
  match coords_wcs (object_values d) with
  | Some w => Returned w
  | None => Raised AttributeError
  end.

Definition show_spectrum1d (v : list Z * list Z * list Z) (w : Widgets) : Widgets :=
  {| spectrum1d_widget := Some v; spectrum2d_widget := spectrum2d_widget w;
     image_widget := image_widget w; image_shapes := image_shapes w;
     meta_form_layout := meta_form_layout w |}.

Definition show_spectrum2d (v : list Z * Z) (w : Widgets) : Widgets :=
  {| spectrum1d_widget := spectrum1d_widget w; spectrum2d_widget := Some v;
     image_widget := image_widget w; image_shapes := image_shapes w;
     meta_form_layout := meta_form_layout w |}.

Definition show_image (v : list Z * Z) (w : Widgets) : Widgets :=
  {| spectrum1d_widget := spectrum1d_widget w; spectrum2d_widget := spectrum2d_widget w;
     image_widget := Some v; image_shapes := image_shapes w;
     meta_form_layout := meta_form_layout w |}.

Definition draw_shapes (width length : Cell) (w : Widgets) : Widgets :=
  {| spectrum1d_widget := spectrum1d_widget w; spectrum2d_widget := spectrum2d_widget w;
     image_widget := image_widget w; image_shapes := Some (width, length);
     meta_form_layout := meta_form_layout w |}.

Definition set_meta_form (rows : list (string * Cell)) (w : Widgets) : Widgets :=
  {| spectrum1d_widget := spectrum1d_widget w; spectrum2d_widget := spectrum2d_widget w;
     image_widget := image_widget w; image_shapes := image_shapes w;
     meta_form_layout := rows |}.

(** [for col in row.colnames: ... addRow(col, line_edit)] *)
Fixpoint add_form_rows (row : Row) (cols : list string) : Action unit :=
  match cols with
  | [] => mret tt
  | col :: rest =>
      text ← lift (row_getitem col row);
      modify_widgets (fun w => set_meta_form (meta_form_layout w ++ [(col, text)]) w);;
      add_form_rows row rest
  end.

Definition render_data (row : Row) (spec1d_data spec2d_data image_data : option DataObject)
  : Action unit :=
  match spec1d_data with
  | Some d =>
      x ← lift (component_data "Wavelength" d);
      y ← lift (component_data "Flux" d);
      yerr ← lift (component_data "Uncertainty" d);
      modify_widgets (show_spectrum1d (x, y, yerr))
  | None => mret tt
  end;;
  match spec2d_data with
  | Some d =>
      wcs ← lift (coords_wcs_of d);
      image ← lift (component_data "Flux" d);
      modify_widgets (show_spectrum2d (image, wcs))
  | None => mret tt
  end;;
  match image_data with
  | Some d =>
      wcs ← lift (coords_wcs_of d);
      image ← lift (component_data "Flux" d);
      modify_widgets (show_image (image, wcs));;
      width ← lift (row_getitem "slit_width" row);
      length ← lift (row_getitem "slit_length" row);
      modify_widgets (draw_shapes width length)
  | None => mret tt
  end;;
  modify_widgets (set_meta_form []);;
  add_form_rows row (colnames row).

(** *** [_get_loaders] *)

Definition _get_loaders `{Host} : Action (LoaderFunction * LoaderFunction * LoaderFunction) :=
  s ← get;
  match catalog s with
  | None => raise AttributeError
  | Some t =>
      let overrides := default ∅ (loaders (meta t)) in
      spectrum1d_loader ←
        lift (resolve_loader "spec1d" "NIRSpec 1D Spectrum" nirspec_spectrum1d_reader overrides);
      spectrum2d_loader ←
        lift (resolve_loader "spec2d" "NIRSpec 2D Spectrum" nirspec_spectrum2d_reader overrides);
      cutout_loader ←
        lift (resolve_loader "image" "Cutout Image" acs_cutout_image_reader overrides);
      mret (spectrum1d_loader, spectrum2d_loader, cutout_loader)
  end.

(** *** [load_selection] *)

(** Calling a loader: when it returns, the result is a new object. *)
Definition run_loader `{Host} (f : LoaderFunction) (path : Cell) : Action DataObject :=
  v ← lift (call_loader f path);
  s ← get;
  modify (set_next_object (S (next_object s)));;
  mret {| object_id := next_object s; object_values := v |}.

Definition load_selection `{Host} (row : Row) : Action unit :=
  modify (set_current_row (Some row));;
  '(spectrum1d_loader, spectrum2d_loader, cutout_loader) ← _get_loaders;
  path1 ← lift (row_getitem "spectrum1d" row);
  spec1d_data ← run_loader spectrum1d_loader path1;
  path2 ← lift (row_getitem "spectrum2d" row);
  spec2d_data ← run_loader spectrum2d_loader path2;
  path3 ← lift (row_getitem "cutout" row);
  image_data ← run_loader cutout_loader path3;
  _update_data_components spec1d_data "spec1d";;
  _update_data_components spec2d_data "spec2d";;
  _update_data_components image_data "image";;
  render_data row (Some spec1d_data) (Some spec2d_data) (Some image_data).

(** *** Navigation *)

(** The selector is emptied and filled again with the [id] column.  The
    column is looked up after the selector was cleared. *)
Definition _update_navigation : Action unit :=
  modify_toolbar source_select_clear;;
  s ← get;
  ids ← match catalog s with
        | Some t => lift (table_column "id" t)
        | None => raise TypeError
        end;
  modify_toolbar (source_select_addItems ids).

Definition _set_navigation `{Host} (index : Z) : Action unit :=
  s ← get;
  (if ((0 <=? index) && (index <? source_select_count (toolbar s)))%Z then
     modify_toolbar (source_select_setCurrentIndex index);;
     row ← catalog_getitem index;
     load_selection row
   else mret tt);;
  (if (index <=? 0)%Z then modify_toolbar (cycle_previous_setDisabled true)
   else modify_toolbar (cycle_previous_setDisabled false));;
  s' ← get;
  if (index >=? source_select_count (toolbar s') - 1)%Z
  then modify_toolbar (cycle_next_setDisabled true)
  else modify_toolbar (cycle_next_setDisabled false).

(** *** [_unpack_selection] *)

(** The [for att in col_names] loop. *)
Fixpoint unpack_columns (mask : option (list bool)) (comps : list (string * Component))
  : Action unit :=
  match comps with
  | [] => mret tt
  | (att, component) :: rest =>
      values ← lift (unpack_component mask att component);
      catalog_setitem att values;;
      unpack_columns mask rest
  end.

(** The unpacker from [# Clear the table] on, once the mask is known. *)
Definition rebuild_catalog `{Host} (mask : option (list bool)) (data : Data) : Action unit :=
  modify (set_catalog (Some {| meta := data_meta data; columns := [] |}));;
  unpack_columns mask (components data);;
  _update_navigation;;
  _set_navigation 0;;
  row ← catalog_getitem 0;
  load_selection row.

Definition _unpack_selection `{Host} (data : Selection) : Action unit :=
  match data with
  | OfSubset sub =>
      match to_mask sub with
      | None => mret tt
      | Some mask =>
          if np_any mask then rebuild_catalog (Some mask) (subset_data sub)
          else mret tt
      end
  | OfData d => rebuild_catalog None d
  end.

Definition add_data `{Host} (data : Data) : Action bool :=
  _unpack_selection (OfData data);;
  mret true.

Definition add_subset `{Host} (subset : Subset) : Action bool :=
  _unpack_selection (OfSubset subset);;
  mret true.

(** *** [closeEvent] *)

(** [self._loaded_data.values()] *)
Definition loaded_values (s : Viewer) : list nat := (map_to_list (_loaded_data s)).*2.

Definition closeEvent : Action unit :=
  s ← get;
  modify (set_data_collection
            (fold_left (fun dc d => data_collection_remove d dc) (loaded_values s)
               (data_collection s))).

(** ** Vocabulary of the properties *)

(** The three product kinds, with the key of each in [meta["loaders"]] and
    in [_loaded_data], the label [_get_loaders] falls back to, and the reader
    of [mos_loaders] it names. *)
Inductive ProductKind := spec1d | spec2d | image.

Definition kind_key (k : ProductKind) : string :=
  match k with
  | spec1d => "spec1d"
  | spec2d => "spec2d"
  | image => "image"
  end.



Definition loader_for (k : ProductKind) (ls : LoaderFunction * LoaderFunction * LoaderFunction)
  : LoaderFunction :=
  match k with
  | spec1d => ls.1.1
  | spec2d => ls.1.2
  | image => ls.2
  end.


(** The overrides [_get_loaders] sees in a catalog. *)
Definition overrides_of (t : Table) : gmap string string := default ∅ (loaders (meta t)).

(** The two button updates that end [_set_navigation]. *)
Definition boundary_buttons (index : Z) (s : Viewer) : Viewer :=
  set_toolbar
    (cycle_next_setDisabled (index >=? source_select_count (toolbar s) - 1)%Z
       (cycle_previous_setDisabled (index <=? 0)%Z (toolbar s))) s.

(** One of the three loader calls of [load_selection row] raises [e] in
    viewer [s]: the loaders resolve, and the first call that does not return
    raises [e]. *)
Definition loader_raises `{Host} (row : Row) (s : Viewer) (e : Exception) : Prop :=
  ∃ l1 l2 l3 p1,
    fst (_get_loaders s) = Returned (l1, l2, l3) ∧
    row_getitem "spectrum1d" row = Returned p1 ∧
    (call_loader l1 p1 = Raised e ∨
     ∃ v1 p2,
       call_loader l1 p1 = Returned v1 ∧
       row_getitem "spectrum2d" row = Returned p2 ∧
       (call_loader l2 p2 = Raised e ∨
        ∃ v2 p3,
          call_loader l2 p2 = Returned v2 ∧
          row_getitem "cutout" row = Returned p3 ∧
          call_loader l3 p3 = Raised e)).

(** What the widgets show once [row] was rendered with the products
    [v1], [v2], [v3]. *)
Definition shows (w : Widgets) (row : Row) (v1 v2 v3 : DataValues) : Prop :=
  (∃ x y yerr,
     named_components v1 !! "Wavelength" = Some x ∧
     named_components v1 !! "Flux" = Some y ∧
     named_components v1 !! "Uncertainty" = Some yerr ∧
     spectrum1d_widget w = Some (x, y, yerr)) ∧
  (∃ img wcs,
     named_components v2 !! "Flux" = Some img ∧ coords_wcs v2 = Some wcs ∧
     spectrum2d_widget w = Some (img, wcs)) ∧
  (∃ img wcs,
     named_components v3 !! "Flux" = Some img ∧ coords_wcs v3 = Some wcs ∧
     image_widget w = Some (img, wcs)) ∧
  (∃ width length,
     row_getitem "slit_width" row = Returned width ∧
     row_getitem "slit_length" row = Returned length ∧
     image_shapes w = Some (width, length)) ∧
  Forall2 (fun col entry => entry.1 = col ∧ row_getitem col row = Returned entry.2)
    (colnames row) (meta_form_layout w).

(** An action leaves the observation [f] of the viewer as it was, whatever
    its outcome. *)
Definition preserves {X A : Type} (f : Viewer -> X) (m : Action A) : Prop :=
  ∀ s, f (snd (m s)) = f s.

(** An action keeps the property [P] of the viewer, whatever its outcome. *)
Definition maintains {A : Type} (P : Viewer -> Prop) (m : Action A) : Prop :=
  ∀ s, P s -> P (snd (m s)).

(** The host's data collection holds no object twice. *)
Definition collection_NoDup (s : Viewer) : Prop := NoDup (data_collection s).

(** The catalog, when there is one, is rectangular. *)
Definition catalog_rectangular (s : Viewer) : Prop :=
  ∀ t, catalog s = Some t -> rectangular t.

(** The entries of the selector, which no jump changes. *)
Definition selector_items (s : Viewer) : list Cell := source_select_items (toolbar s).

(** The selector lists the rows of the catalog: one entry per row, and no
    entry while there is no catalog. *)
Definition selector_lists_catalog (s : Viewer) : Prop :=
  match catalog s with
  | Some t => source_select_count (toolbar s) = Z.of_nat (table_len t)
  | None => source_select_count (toolbar s) = 0%Z
  end.

(** The events that reach the viewer, and the states they lead to.  An
    exception raised by a handler ends that handler; the viewer goes on from
    the state it was left in. *)
Inductive Event :=
| DataAdded (d : Data)
| SubsetChanged (sub : Subset)
| Jump (index : Z)
| WindowClosed.

Definition handle `{Host} (ev : Event) : Action unit :=
  match ev with
  | DataAdded d => add_data d;; mret tt
  | SubsetChanged sub => add_subset sub;; mret tt
  | Jump index => _set_navigation index
  | WindowClosed => closeEvent
  end.

Definition run_events `{Host} (evs : list Event) (s : Viewer) : Viewer :=
  fold_left (fun s ev => snd (handle ev s)) evs s.

Definition reachable `{Host} (s : Viewer) : Prop :=
  ∃ dc fresh evs, s = run_events evs (new_viewer dc fresh).

(** ** A worked catalog *)

Definition example_values (n : Z) : DataValues :=
  {| named_components :=
       <["Wavelength" := [n]]> (<["Flux" := [n + 1]%Z]> (<["Uncertainty" := [n + 2]%Z]> ∅));
     coords_wcs := Some n |}.

(** A loader that reads every file except [/d/bad.fits]. *)
Definition example_call (f : LoaderFunction) (c : Cell) : Outcome DataValues :=
  match c with
  | CStr p =>
      if String.eqb p "/d/bad.fits" then Raised OSError
      else Returned (example_values (Z.of_nat (String.length p)))
  | CNum _ => Raised TypeError
  end.

(** The registry after [mos_loaders] registered its readers, with one
    plugin reader besides. *)
Definition example_host : Host :=
  {| data_factory_members :=
       [("NIRSpec 1D Spectrum", nirspec_spectrum1d_reader);
        ("NIRSpec 2D Spectrum", nirspec_spectrum2d_reader);
        ("Cutout Image", acs_cutout_image_reader);
        ("DEIMOS 1D Spectrum", plugin_reader 0)];
     call_loader := example_call |}.

(** A registry that holds a plugin reader only. *)
Definition plugin_only_host : Host :=
  {| data_factory_members := [("Custom Reader", plugin_reader 1)];
     call_loader := example_call |}.


Definition example_components : list (string * Component) :=
  [("id", CategoricalComponent ["a"; "b"; "c"] None);
   ("spectrum1d",
    CategoricalComponent ["s1a.fits"; "s1b.fits"; "bad.fits"] (Some "/d/cat.txt"));
   ("spectrum2d",
    CategoricalComponent ["s2a.fits"; "s2b.fits"; "s2c.fits"] (Some "/d/cat.txt"));
   ("cutout",
    CategoricalComponent ["ca.fits"; "cb.fits"; "cc.fits"] (Some "/d/cat.txt"));
   ("slit_width", NumericComponent [1; 2; 3]%Z);
   ("slit_length", NumericComponent [4; 5; 6]%Z)].

Definition example_data : Data :=
  {| data_meta := {| loaders := None |}; components := example_components |}.

(** The same data with the 1D reader overridden by name. *)
Definition example_data_with (name : string) : Data :=
  {| data_meta := {| loaders := Some {[ "spec1d" := name ]} |};
     components := example_components |}.

Definition example_subset (mask : option (list bool)) : Subset :=
  {| to_mask := mask; subset_data := example_data |}.

(** The catalog the unpacker builds from the example data. *)
Definition example_catalog : Table :=
  {| meta := {| loaders := None |};
     columns :=
       [("id", [CStr "a"; CStr "b"; CStr "c"]);
        ("spectrum1d", [CStr "/d/s1a.fits"; CStr "/d/s1b.fits"; CStr "/d/bad.fits"]);
        ("spectrum2d", [CStr "/d/s2a.fits"; CStr "/d/s2b.fits"; CStr "/d/s2c.fits"]);
        ("cutout", [CStr "/d/ca.fits"; CStr "/d/cb.fits"; CStr "/d/cc.fits"]);
        ("slit_width", [CNum 1; CNum 2; CNum 3]);
        ("slit_length", [CNum 4; CNum 5; CNum 6])] |}.

(** The third row of the example catalog, whose 1D spectrum cannot be
    read. *)
Definition example_row_2 : Row :=
  {| row_cells :=
       [("id", CStr "c"); ("spectrum1d", CStr "/d/bad.fits");
        ("spectrum2d", CStr "/d/s2c.fits"); ("cutout", CStr "/d/cc.fits");
        ("slit_width", CNum 3); ("slit_length", CNum 6)] |}.

(** The catalog of [example_data_with name]. *)
Definition example_catalog_with (name : string) : Table :=
  {| meta := {| loaders := Some {[ "spec1d" := name ]} |};
     columns := columns example_catalog |}.

(** The viewer of host [h] after the example data, with the 1D reader
    overridden by name, was added to a new viewer. *)
Definition example_viewer_with (h : Host) (name : string) : Viewer :=
  @run_events h [DataAdded (example_data_with name)] (new_viewer [7] 10).

(** The viewer after the example data was added to a new viewer whose
    session already holds object [7]. *)
Definition example_viewer : Viewer :=
  @run_events example_host [DataAdded example_data] (new_viewer [7] 10).

(** The same viewer after the user moved on to the second source. *)
Definition example_viewer_at_1 : Viewer :=
  @run_events example_host [DataAdded example_data; Jump 1] (new_viewer [7] 10).

(** ** Further entry points *)

(** The slots [setup_connections] connects to the two cycle actions: a
    jump to the entry after, or before, the current one. *)
Definition cycle_next_triggered `{Host} : Action unit :=
  s ← get;
  _set_navigation (source_select_currentIndex (toolbar s) + 1)%Z.

Definition cycle_previous_triggered `{Host} : Action unit :=
  s ← get;
  _set_navigation (source_select_currentIndex (toolbar s) - 1)%Z.

(** ** Further vocabulary *)

(** The number of rows a mask selects. *)
Definition count_true (mask : list bool) : nat := length (List.filter id mask).

(** The number of values of a component. *)
Definition component_length (c : Component) : nat :=
  match c with
  | CategoricalComponent labels _ => length labels
  | NumericComponent data => length data
  end.

(** The number of rows the unpacker selects from components of [n] values:
    all of them without a mask, the marked ones with a mask. *)
Definition selected_rows (mask : option (list bool)) (n : nat) : nat :=
  match mask with
  | None => n
  | Some m => count_true m
  end.

(** The selector points at one of its entries, or at none when it has no
    entry. *)
Definition selector_in_range (s : Viewer) : Prop :=
  if decide (source_select_count (toolbar s) = 0%Z)
  then source_select_currentIndex (toolbar s) = (-1)%Z
  else (0 ≤ source_select_currentIndex (toolbar s) < source_select_count (toolbar s))%Z.

(** The boundary policy read on the current index: previous is disabled
    exactly at the first entry, next exactly at the last. *)
Definition buttons_match_index (s : Viewer) : Prop :=
  (cycle_previous_disabled (toolbar s) = true
   ↔ source_select_currentIndex (toolbar s) = 0%Z) ∧
  (cycle_next_disabled (toolbar s) = true
   ↔ source_select_currentIndex (toolbar s) = (source_select_count (toolbar s) - 1)%Z).

(** What the user can do from the toolbar and the host: add data, change a
    subset, press next, press previous.  A disabled action cannot be
    pressed. *)
Inductive UserAction :=
| AddData (d : Data)
| ChangeSubset (sub : Subset)
| PressNext
| PressPrevious.

Definition can_perform (a : UserAction) (s : Viewer) : Prop :=
  match a with
  | PressNext => cycle_next_disabled (toolbar s) = false
  | PressPrevious => cycle_previous_disabled (toolbar s) = false
  | _ => True
  end.

Definition perform `{Host} (a : UserAction) : Action unit :=
  match a with
  | AddData d => add_data d;; mret tt
  | ChangeSubset sub => add_subset sub;; mret tt
  | PressNext => cycle_next_triggered
  | PressPrevious => cycle_previous_triggered
  end.

(** A viewer showing a catalog of at least one row, with the selector
    listing it and pointing into it, and the buttons set by the boundary
    policy. *)
Definition navigation_consistent (s : Viewer) : Prop :=
  (0 < source_select_count (toolbar s))%Z ∧
  selector_lists_catalog s ∧
  catalog_rectangular s ∧
  selector_in_range s ∧
  buttons_match_index s.

(** The keys under which [load_selection] caches its products. *)
Definition cache_keys : list string := ["spec1d"; "spec2d"; "image"].

(** The cache and the data collection of a viewer opened in a session whose
    data collection held [dc0], all of it older than the object [fresh0]:
    the cached objects are younger than [bound] and were created for the
    viewer, each is cached under one of the three keys and under one key
    only, and the data collection is [dc0] followed by cached objects. *)
Definition cache_consistent (dc0 : list nat) (fresh0 bound : nat) (s : Viewer) : Prop :=
  fresh0 ≤ bound ∧
  (∀ key d, _loaded_data s !! key = Some d -> key ∈ cache_keys ∧ fresh0 ≤ d < bound) ∧
  (∀ key1 key2 d,
     _loaded_data s !! key1 = Some d -> _loaded_data s !! key2 = Some d -> key1 = key2) ∧
  NoDup (data_collection s) ∧
  ∃ extra, data_collection s = dc0 ++ extra ∧ ∀ d, d ∈ extra -> d ∈ loaded_values s.

(** The same, with the next object to be created as the bound. *)
Definition session_consistent (dc0 : list nat) (fresh0 : nat) (s : Viewer) : Prop :=
  cache_consistent dc0 fresh0 (next_object s) s.

(** The two phases of [load_selection]: the row is recorded and its three
    products are loaded; then they are stored and rendered. *)
Definition load_products `{Host} (row : Row) : Action (DataObject * DataObject * DataObject) :=
  modify (set_current_row (Some row));;
  '(spectrum1d_loader, spectrum2d_loader, cutout_loader) ← _get_loaders;
  path1 ← lift (row_getitem "spectrum1d" row);
  spec1d_data ← run_loader spectrum1d_loader path1;
  path2 ← lift (row_getitem "spectrum2d" row);
  spec2d_data ← run_loader spectrum2d_loader path2;
  path3 ← lift (row_getitem "cutout" row);
  image_data ← run_loader cutout_loader path3;
  mret (spec1d_data, spec2d_data, image_data).

Definition store_products (products : DataObject * DataObject * DataObject) : Action unit :=
  let '(spec1d_data, spec2d_data, image_data) := products in
  _update_data_components spec1d_data "spec1d";;
  _update_data_components spec2d_data "spec2d";;
  _update_data_components image_data "image".

Definition render_products (row : Row) (products : DataObject * DataObject * DataObject)
  : Action unit :=
  let '(spec1d_data, spec2d_data, image_data) := products in
  render_data row (Some spec1d_data) (Some spec2d_data) (Some image_data).

(** The second row of the example catalog. *)
Definition example_row_1 : Row :=
  {| row_cells :=
       [("id", CStr "b"); ("spectrum1d", CStr "/d/s1b.fits");
        ("spectrum2d", CStr "/d/s2b.fits"); ("cutout", CStr "/d/cb.fits");
        ("slit_width", CNum 2); ("slit_length", CNum 5)] |}.

(** The object [d] is cached under [key]. *)
Definition cached (key : string) (d : nat) (s : Viewer) : Prop :=
  _loaded_data s !! key = Some d.

(** The entries of the selector and the entry it points at. *)
Definition selector_state (s : Viewer) : list Cell * Z :=
  (source_select_items (toolbar s), source_select_currentIndex (toolbar s)).

(** Whether a path contains a slash. *)
Fixpoint has_slash (s : string) : bool :=
  match s with
  | EmptyString => false
  | String c rest => Ascii.eqb c "/"%char || has_slash rest
  end.

(** The products the loaders return for [row]: the loaders are those
    [_get_loaders] resolves in viewer [s], each called on its path column of
    the row. *)
Definition loaders_return `{Host} (s : Viewer) (row : Row) (v1 v2 v3 : DataValues) : Prop :=
  ∃ l1 l2 l3 p1 p2 p3,
    fst (_get_loaders s) = Returned (l1, l2, l3) ∧
    row_getitem "spectrum1d" row = Returned p1 ∧
    row_getitem "spectrum2d" row = Returned p2 ∧
    row_getitem "cutout" row = Returned p3 ∧
    call_loader l1 p1 = Returned v1 ∧
    call_loader l2 p2 = Returned v2 ∧
    call_loader l3 p3 = Returned v3.

(** Data of two sources without an [id] component. *)
Definition example_data_without_id : Data :=
  {| data_meta := {| loaders := None |}; components := [("ra", NumericComponent [1; 2]%Z)] |}.

(** Data of one source whose [spectrum1d] component was not read from a
    file: it has no load log. *)
Definition example_data_unlogged : Data :=
  {| data_meta := {| loaders := None |};
     components := [("id", CategoricalComponent ["z"] None);
                    ("spectrum1d", CategoricalComponent ["s1z.fits"] None)] |}.

(** A new viewer after the data without [id] was added: the catalog has two
    rows, the selector no entry. *)
Definition example_viewer_without_id : Viewer :=
  @run_events example_host [DataAdded example_data_without_id] (new_viewer [7] 10).

(** The example viewer after the data without load log was added: the
    unpacker raised in the columns loop, the catalog has one row and the
    selector still lists the three sources shown before. *)
Definition example_viewer_unlogged : Viewer :=
  @run_events example_host [DataAdded example_data; DataAdded example_data_unlogged]
    (new_viewer [7] 10).

(** * Properties *)

(** ** Laws of actions *)

Section ActionLaws.
Context {A B : Type}.
Implicit Types (m : Action A) (k : A -> Action B).

Lemma bind_returned m k s a s1 :
  m s = (Returned a, s1) -> (m ≫= k) s = k a s1.
Proof. intros Hm. unfold mbind, Action_bind. now rewrite Hm. Qed.

Lemma bind_raised m k s e s1 :
  m s = (Raised e, s1) -> (m ≫= k) s = (Raised e, s1).
Proof. intros Hm. unfold mbind, Action_bind. now rewrite Hm. Qed.

Lemma bind_returned_inv m k s b s' :
  (m ≫= k) s = (Returned b, s') ->
  ∃ a s1, m s = (Returned a, s1) ∧ k a s1 = (Returned b, s').
Proof.
  unfold mbind, Action_bind. destruct (m s) as [[a|e] s1]; intros Hk.
  - now exists a, s1.
  - discriminate.
Qed.

Lemma bind_raised_inv m k s e s' :
  (m ≫= k) s = (Raised e, s') ->
  m s = (Raised e, s') ∨ ∃ a s1, m s = (Returned a, s1) ∧ k a s1 = (Raised e, s').
Proof.
  unfold mbind, Action_bind. destruct (m s) as [[a|e0] s1]; intros Hk.
  - right. now exists a, s1.
  - left. injection Hk as -> ->. reflexivity.
Qed.

End ActionLaws.

Lemma lift_returned_inv {A : Type} (o : Outcome A) s a s' :
  lift o s = (Returned a, s') -> o = Returned a ∧ s' = s.
Proof. unfold lift. intros [= -> ->]. now split. Qed.

(** ** Frame rules *)

Section Frame.
Context {X : Type} (f : Viewer -> X).

Lemma preserves_ret {A : Type} (a : A) : preserves f (mret a : Action A).
Proof. intros s. reflexivity. Qed.

Lemma preserves_raise {A : Type} (e : Exception) : preserves f (raise e : Action A).
Proof. intros s. reflexivity. Qed.

Lemma preserves_lift {A : Type} (o : Outcome A) : preserves f (lift o).
Proof. intros s. reflexivity. Qed.

Lemma preserves_get : preserves f get.
Proof. intros s. reflexivity. Qed.

Lemma preserves_modify (g : Viewer -> Viewer) :
  (∀ s, f (g s) = f s) -> preserves f (modify g).
Proof. intros Hg s. apply Hg. Qed.

Lemma preserves_bind {A B : Type} (m : Action A) (k : A -> Action B) :
  preserves f m -> (∀ a, preserves f (k a)) -> preserves f (m ≫= k).
Proof.
  intros Hm Hk s. unfold mbind, Action_bind.
  specialize (Hm s). destruct (m s) as [[a|e] s1]; simpl in *.
  - now rewrite Hk.
  - exact Hm.
Qed.

End Frame.

(** Frame goals are settled by the frame lemmas already proved, and
    otherwise by following the structure of the action. *)
Create HintDb frame.

Ltac frame_step :=
  first
    [ solve [ auto 1 with frame nocore ]
    | apply preserves_ret
    | apply preserves_raise
    | apply preserves_lift
    | apply preserves_get
    | apply preserves_modify; intros ?; reflexivity
    | apply preserves_bind; [ | intros ? ]
    | match goal with
      | |- preserves _ (match ?x with _ => _ end) => destruct x
      | |- preserves _ (if ?b then _ else _) => destruct b
      | |- preserves _ (let '(_, _) := ?x in _) => destruct x
      end
    | assumption ].

Ltac frame := repeat frame_step.

Lemma update_data_components_catalog data key : preserves catalog (_update_data_components data key).
Proof. unfold _update_data_components. frame. Qed.

Lemma update_data_components_toolbar data key : preserves toolbar (_update_data_components data key).
Proof. unfold _update_data_components. frame. Qed.

Lemma update_data_components_widgets data key : preserves widgets (_update_data_components data key).
Proof. unfold _update_data_components. frame. Qed.

Lemma update_data_components_current_row data key :
  preserves current_row (_update_data_components data key).
Proof. unfold _update_data_components. frame. Qed.

#[global] Hint Resolve update_data_components_catalog update_data_components_toolbar
  update_data_components_widgets update_data_components_current_row : frame.

Lemma add_form_rows_catalog row cols : preserves catalog (add_form_rows row cols).
Proof. induction cols; simpl; unfold modify_widgets; frame. Qed.

Lemma add_form_rows_toolbar row cols : preserves toolbar (add_form_rows row cols).
Proof. induction cols; simpl; unfold modify_widgets; frame. Qed.

Lemma add_form_rows_current_row row cols : preserves current_row (add_form_rows row cols).
Proof. induction cols; simpl; unfold modify_widgets; frame. Qed.

#[global] Hint Resolve add_form_rows_catalog add_form_rows_toolbar
  add_form_rows_current_row : frame.

Lemma render_data_catalog row d1 d2 d3 : preserves catalog (render_data row d1 d2 d3).
Proof. unfold render_data, modify_widgets. frame. Qed.

Lemma render_data_toolbar row d1 d2 d3 : preserves toolbar (render_data row d1 d2 d3).
Proof. unfold render_data, modify_widgets. frame. Qed.

Lemma render_data_current_row row d1 d2 d3 : preserves current_row (render_data row d1 d2 d3).
Proof. unfold render_data, modify_widgets. frame. Qed.

#[global] Hint Resolve render_data_catalog render_data_toolbar render_data_current_row : frame.

Section WithHost.
Context `{Host}.

Lemma get_loaders_preserves {X : Type} (f : Viewer -> X) : preserves f _get_loaders.
Proof. unfold _get_loaders. frame. Qed.

Lemma run_loader_catalog fn path : preserves catalog (run_loader fn path).
Proof. unfold run_loader. frame. Qed.

Lemma run_loader_toolbar fn path : preserves toolbar (run_loader fn path).
Proof. unfold run_loader. frame. Qed.

Lemma run_loader_current_row fn path : preserves current_row (run_loader fn path).
Proof. unfold run_loader. frame. Qed.

#[local] Hint Resolve get_loaders_preserves run_loader_catalog run_loader_toolbar
  run_loader_current_row : frame.

Lemma load_selection_catalog row : preserves catalog (load_selection row).
Proof. unfold load_selection. frame. Qed.

Lemma load_selection_toolbar row : preserves toolbar (load_selection row).
Proof. unfold load_selection. frame. Qed.

End WithHost.

#[global] Hint Resolve get_loaders_preserves run_loader_catalog run_loader_toolbar
  run_loader_current_row load_selection_catalog load_selection_toolbar : frame.

(** ** Rendering *)

Lemma add_form_rows_returned_inv row cols : ∀ s s',
  add_form_rows row cols s = (Returned tt, s') ->
  ∃ entries,
    Forall2 (fun col entry => entry.1 = col ∧ row_getitem col row = Returned entry.2)
      cols entries ∧
    widgets s' = set_meta_form (meta_form_layout (widgets s) ++ entries) (widgets s).
Proof.
  induction cols as [|col cols IH]; intros s s' Hrun; simpl in Hrun.
  - injection Hrun as <-. exists []. split; [constructor|].
    rewrite app_nil_r. now destruct (widgets s).
  - apply bind_returned_inv in Hrun as (text & s1 & Htext & Hrun).
    apply lift_returned_inv in Htext as [Htext ->].
    apply bind_returned_inv in Hrun as ([] & s2 & Hmod & Hrun).
    injection Hmod as <-.
    apply IH in Hrun as (entries & Hall & Hw).
    exists ((col, text) :: entries). split.
    + constructor; [now split | exact Hall].
    + rewrite Hw. simpl. now rewrite <- app_assoc.
Qed.

Lemma render_data_returned_inv row d1 d2 d3 s s' :
  render_data row (Some d1) (Some d2) (Some d3) s = (Returned tt, s') ->
  shows (widgets s') row (object_values d1) (object_values d2) (object_values d3).
Proof.
  unfold render_data, component_data, coords_wcs_of, modify_widgets. intros Hrun.
  repeat
    match type of Hrun with
    | (_ ≫= _) _ = (Returned _, _) =>
        let a := fresh "a" in
        let s1 := fresh "s" in
        let Hstep := fresh "Hstep" in
        apply bind_returned_inv in Hrun as (a & s1 & Hstep & Hrun)
    end.
  repeat
    match goal with
    | Hstep : (_ ≫= _) _ = (Returned _, _) |- _ =>
        let a := fresh "a" in
        let s1 := fresh "s" in
        let Hs := fresh "Hstep" in
        apply bind_returned_inv in Hstep as (a & s1 & Hs & Hstep)
    | Hstep : lift _ _ = (Returned _, _) |- _ =>
        apply lift_returned_inv in Hstep as [Hstep ->]
    | Hstep : modify _ _ = (Returned _, _) |- _ =>
        unfold modify in Hstep; injection Hstep as <-
    end.
  apply add_form_rows_returned_inv in Hrun as (entries & Hall & Hw).
  subst. rewrite Hw. simpl.
  repeat
    match goal with
    | Hstep : match ?x with _ => _ end = Returned _ |- _ =>
        destruct x eqn:?; [injection Hstep as <- | discriminate Hstep]
    end.
  unfold shows; simpl. repeat split; eauto 10.
Qed.

(** ** Loading a selection *)

Section LoadSelection.
Context `{Host}.

Lemma get_loaders_run s : _get_loaders s = (fst (_get_loaders s), s).
Proof.
  unfold _get_loaders, mbind, Action_bind, get, lift, raise, mret, Action_ret.
  destruct (catalog s); [|reflexivity].
  repeat (destruct (resolve_loader _ _ _ _); simpl; try reflexivity).
Qed.

Lemma get_loaders_catalog_only s s' :
  catalog s = catalog s' -> fst (_get_loaders s) = fst (_get_loaders s').
Proof.
  intros Hc. unfold _get_loaders, mbind, Action_bind, get, lift, raise, mret, Action_ret.
  rewrite Hc. destruct (catalog s'); [|reflexivity].
  repeat (destruct (resolve_loader _ _ _ _); simpl; try reflexivity).
Qed.

Lemma run_loader_run fn path s :
  run_loader fn path s =
  match call_loader fn path with
  | Returned v =>
      (Returned {| object_id := next_object s; object_values := v |},
       set_next_object (S (next_object s)) s)
  | Raised e => (Raised e, s)
  end.
Proof.
  unfold run_loader, mbind, Action_bind, lift. now destruct (call_loader fn path).
Qed.

(** The viewer in which a failing loader leaves [load_selection]: the row
    is recorded, nothing else the viewer shows or keeps has changed. *)
Lemma load_selection_loader_raises row s e :
  loader_raises row s e ->
  ∃ s',
    load_selection row s = (Raised e, s') ∧
    current_row s' = Some row ∧
    catalog s' = catalog s ∧
    _loaded_data s' = _loaded_data s ∧
    toolbar s' = toolbar s ∧
    widgets s' = widgets s ∧
    data_collection s' = data_collection s ∧
    objects s' = objects s.
Proof.
  intros (l1 & l2 & l3 & p1 & Hgl & Hp1 & Hcalls).
  set (s0 := set_current_row (Some row) s).
  assert (Hgl0 : _get_loaders s0 = (Returned (l1, l2, l3), s0)).
  { rewrite get_loaders_run. f_equal. rewrite <- Hgl. now apply get_loaders_catalog_only. }
  unfold load_selection.
  rewrite (bind_returned _ _ s tt s0) by reflexivity.
  rewrite (bind_returned _ _ _ _ _ Hgl0). cbv beta iota.
  rewrite (bind_returned _ _ s0 p1 s0) by (unfold lift; now rewrite Hp1).
  destruct Hcalls as [Hc1 | (v1 & p2 & Hc1 & Hp2 & Hcalls)].
  { exists s0. split; [|now repeat split].
    apply bind_raised. now rewrite run_loader_run, Hc1. }
  erewrite bind_returned by (rewrite run_loader_run, Hc1; reflexivity).
  set (s1 := set_next_object _ s0).
  rewrite (bind_returned _ _ s1 p2 s1) by (unfold lift; now rewrite Hp2).
  destruct Hcalls as [Hc2 | (v2 & p3 & Hc2 & Hp3 & Hc3)].
  { exists s1. split; [|now repeat split].
    apply bind_raised. now rewrite run_loader_run, Hc2. }
  erewrite bind_returned by (rewrite run_loader_run, Hc2; reflexivity).
  set (s2 := set_next_object _ s1).
  rewrite (bind_returned _ _ s2 p3 s2) by (unfold lift; now rewrite Hp3).
  exists s2. split; [|now repeat split].
  apply bind_raised. now rewrite run_loader_run, Hc3.
Qed.

(** The row is recorded whatever happens afterwards. *)
Lemma load_selection_current_row row s :
  current_row (snd (load_selection row s)) = Some row.
Proof.
  unfold load_selection.
  rewrite (bind_returned _ _ s tt (set_current_row (Some row) s)) by reflexivity.
  match goal with
  | |- current_row (snd (?m ?s0)) = _ =>
      assert (Hp : preserves current_row m); [|now rewrite Hp]
  end.
  frame.
Qed.

(** When [load_selection] returns, the three products of the row were
    loaded and are what the widgets show. *)
Lemma load_selection_returned_inv row s s' :
  load_selection row s = (Returned tt, s') ->
  ∃ l1 l2 l3 p1 p2 p3 v1 v2 v3,
    fst (_get_loaders s) = Returned (l1, l2, l3) ∧
    row_getitem "spectrum1d" row = Returned p1 ∧
    row_getitem "spectrum2d" row = Returned p2 ∧
    row_getitem "cutout" row = Returned p3 ∧
    call_loader l1 p1 = Returned v1 ∧
    call_loader l2 p2 = Returned v2 ∧
    call_loader l3 p3 = Returned v3 ∧
    shows (widgets s') row v1 v2 v3 ∧
    current_row s' = Some row.
Proof.
  intros Hrun.
  pose proof (load_selection_current_row row s) as Hrow. rewrite Hrun in Hrow. simpl in Hrow.
  unfold load_selection in Hrun.
  apply bind_returned_inv in Hrun as ([] & s0 & Hs0 & Hrun).
  injection Hs0 as <-.
  apply bind_returned_inv in Hrun as ([[l1 l2] l3] & s1 & Hgl & Hrun).
  rewrite get_loaders_run in Hgl. injection Hgl as Hgl <-.
  apply bind_returned_inv in Hrun as (p1 & s1 & Hp1 & Hrun).
  apply lift_returned_inv in Hp1 as [Hp1 ->].
  apply bind_returned_inv in Hrun as (d1 & s1 & Hd1 & Hrun).
  rewrite run_loader_run in Hd1. destruct (call_loader l1 p1) as [v1|] eqn:Hc1; [|discriminate].
  injection Hd1 as <- <-.
  apply bind_returned_inv in Hrun as (p2 & s2 & Hp2 & Hrun).
  apply lift_returned_inv in Hp2 as [Hp2 ->].
  apply bind_returned_inv in Hrun as (d2 & s2 & Hd2 & Hrun).
  rewrite run_loader_run in Hd2. destruct (call_loader l2 p2) as [v2|] eqn:Hc2; [|discriminate].
  injection Hd2 as <- <-.
  apply bind_returned_inv in Hrun as (p3 & s3 & Hp3 & Hrun).
  apply lift_returned_inv in Hp3 as [Hp3 ->].
  apply bind_returned_inv in Hrun as (d3 & s3 & Hd3 & Hrun).
  rewrite run_loader_run in Hd3. destruct (call_loader l3 p3) as [v3|] eqn:Hc3; [|discriminate].
  injection Hd3 as <- <-.
  apply bind_returned_inv in Hrun as ([] & s4 & Hu1 & Hrun).
  apply bind_returned_inv in Hrun as ([] & s5 & Hu2 & Hrun).
  apply bind_returned_inv in Hrun as ([] & s6 & Hu3 & Hrun).
  exists l1, l2, l3, p1, p2, p3, v1, v2, v3.
  split.
  { rewrite <- Hgl. now apply get_loaders_catalog_only. }
  repeat (split; [assumption|]).
  split; [now apply render_data_returned_inv in Hrun | exact Hrow].
Qed.

End LoadSelection.

(** ** Navigation *)

Section Navigation.
Context `{Host}.

Lemma in_range_decide (index n : Z) :
  ((0 <=? index) && (index <? n))%Z = true ↔ (0 ≤ index < n)%Z.
Proof. rewrite andb_true_iff, Z.leb_le, Z.ltb_lt. tauto. Qed.

Lemma boundary_buttons_run index s :
  ((if (index <=? 0)%Z then modify_toolbar (cycle_previous_setDisabled true)
    else modify_toolbar (cycle_previous_setDisabled false));;
   s' ← get;
   if (index >=? source_select_count (toolbar s') - 1)%Z
   then modify_toolbar (cycle_next_setDisabled true)
   else modify_toolbar (cycle_next_setDisabled false)) s
  = (Returned tt, boundary_buttons index s).
Proof.
  unfold boundary_buttons, mbind, Action_bind, get, modify_toolbar, modify, source_select_count.
  destruct (index <=? 0)%Z; simpl;
    destruct (index >=? Z.of_nat (length (source_select_items (toolbar s))) - 1)%Z;
    reflexivity.
Qed.

(** An in-range jump: the selector moves, the row is loaded, and the
    buttons are set once the load has returned. *)
Lemma set_navigation_in_range s t index row :
  (0 ≤ index < source_select_count (toolbar s))%Z ->
  catalog s = Some t ->
  table_getitem index t = Returned row ->
  _set_navigation index s =
  match load_selection row (set_toolbar (source_select_setCurrentIndex index (toolbar s)) s) with
  | (Returned _, s2) => (Returned tt, boundary_buttons index s2)
  | (Raised e, s2) => (Raised e, s2)
  end.
Proof.
  intros Hrange Hcat Hrow. apply in_range_decide in Hrange.
  unfold _set_navigation.
  rewrite (bind_returned _ _ s s s) by reflexivity. rewrite Hrange.
  set (s1 := set_toolbar _ s).
  assert (Hload :
    (modify_toolbar (source_select_setCurrentIndex index);;
     row ← catalog_getitem index; load_selection row) s = load_selection row s1).
  { rewrite (bind_returned _ _ s tt s1) by reflexivity.
    apply bind_returned. unfold catalog_getitem.
    rewrite (bind_returned _ _ s1 s1 s1) by reflexivity.
    simpl. rewrite Hcat. unfold lift. now rewrite Hrow. }
  destruct (load_selection row s1) as [[[]|e] s2] eqn:Hl.
  - rewrite (bind_returned _ _ s tt s2) by (now rewrite Hload).
    apply boundary_buttons_run.
  - apply bind_raised. now rewrite Hload.
Qed.

(** An out-of-range jump only sets the buttons. *)
Lemma set_navigation_out_of_range s index :
  ¬ (0 ≤ index < source_select_count (toolbar s))%Z ->
  _set_navigation index s = (Returned tt, boundary_buttons index s).
Proof.
  intros Hrange. rewrite <- in_range_decide in Hrange. apply not_true_is_false in Hrange.
  unfold _set_navigation.
  rewrite (bind_returned _ _ s s s) by reflexivity. rewrite Hrange.
  rewrite (bind_returned _ _ s tt s) by reflexivity.
  apply boundary_buttons_run.
Qed.

End Navigation.

(** ** Rows of a rectangular table *)

Lemma row_at_rectangular (i n : nat) (cols : list (string * list Cell)) :
  Forall (fun c => length c.2 = n) cols -> i < n ->
  ∃ r, row_at i cols = Returned r.
Proof.
  intros Hall Hi. induction Hall as [|[name c] cols Hc _ IH]; simpl.
  - now exists [].
  - simpl in Hc. destruct (lookup_lt_is_Some_2 c i) as [x Hx]; [lia|].
    rewrite Hx. destruct IH as [r ->]. simpl. now eexists.
Qed.

Lemma table_getitem_in_range (t : Table) (index : Z) :
  rectangular t -> (0 ≤ index < Z.of_nat (table_len t))%Z ->
  ∃ row, table_getitem index t = Returned row.
Proof.
  intros Hrect Hrange. unfold table_getitem.
  replace ((- Z.of_nat (table_len t) <=? index)%Z && (index <? Z.of_nat (table_len t))%Z)
    with true by (symmetry; apply andb_true_iff; rewrite Z.leb_le, Z.ltb_lt; lia).
  replace (index <? 0)%Z with false by (symmetry; apply Z.ltb_ge; lia).
  destruct (row_at_rectangular (Z.to_nat index) (table_len t) (columns t) Hrect) as [r ->];
    [lia|].
  simpl. now eexists.
Qed.

(** ** The navigation jump *)

(** A jump in the selector's range whose row lookup raises: the selector
    has moved, nothing was loaded and the buttons were not reached. *)
Lemma set_navigation_getitem_raises `{Host} s index e :
  (0 ≤ index < source_select_count (toolbar s))%Z ->
  fst (catalog_getitem index s) = Raised e ->
  _set_navigation index s
  = (Raised e, set_toolbar (source_select_setCurrentIndex index (toolbar s)) s).
Proof.
  intros Hrange Hrow. apply in_range_decide in Hrange.
  unfold _set_navigation.
  rewrite (bind_returned _ _ s s s) by reflexivity. rewrite Hrange.
  set (s1 := set_toolbar _ s).
  apply bind_raised. rewrite (bind_returned _ _ s tt s1) by reflexivity.
  apply bind_raised.
  assert (Hrun : catalog_getitem index s1 = (fst (catalog_getitem index s), s1)).
  { unfold catalog_getitem, mbind, Action_bind, get, lift, raise. simpl.
    now destruct (catalog s). }
  now rewrite Hrun, Hrow.
Qed.

Lemma table_getitem_beyond (t : Table) (index : Z) :
  (Z.of_nat (table_len t) ≤ index)%Z -> table_getitem index t = Raised IndexError.
Proof.
  intros Hlen. unfold table_getitem.
  replace (index <? Z.of_nat (table_len t))%Z with false by (symmetry; apply Z.ltb_ge; lia).
  now rewrite andb_false_r.
Qed.

(** C1, as the code has it.  The bounds of a jump are those of the
    selector: N is the number of its entries.  A jump to an index with
    0 <= index < N sets the selector to that index and takes that row of the
    catalog.  When the catalog has the row, as it does whenever the selector
    lists the rows of a rectangular catalog, the selection load runs on it:
    the row becomes the current row and, when the load returns, its three
    products, as the loaders return them, are what the widgets show.  When
    the catalog has no such row the jump raises with the selector already
    moved, nothing loaded and no button set.  A jump to an index outside
    [0, N) loads nothing and leaves the catalog, the selector and everything
    else as they were, except that the previous and next buttons are set anew
    from the index. *)
Theorem set_navigation_jump `{Host} (s : Viewer) (index : Z) :
  let N := source_select_count (toolbar s) in
  let r := _set_navigation index s in
  let moved := set_toolbar (source_select_setCurrentIndex index (toolbar s)) s in
  ((0 ≤ index < N)%Z ->
   source_select_currentIndex (toolbar (snd r)) = index ∧
   source_select_items (toolbar (snd r)) = source_select_items (toolbar s) ∧
   catalog (snd r) = catalog s ∧
   (∀ t row,
      catalog s = Some t ->
      table_getitem index t = Returned row ->
      r = match load_selection row moved with
          | (Returned _, s2) => (Returned tt, boundary_buttons index s2)
          | (Raised e, s2) => (Raised e, s2)
          end ∧
      current_row (snd r) = Some row ∧
      (fst r = Returned tt ->
       ∃ v1 v2 v3,
         loaders_return s row v1 v2 v3 ∧ shows (widgets (snd r)) row v1 v2 v3)) ∧
   (∀ t e,
      catalog s = Some t ->
      table_getitem index t = Raised e ->
      r = (Raised e, moved)) ∧
   (∀ t,
      catalog s = Some t ->
      (rectangular t -> (index < Z.of_nat (table_len t))%Z ->
       ∃ row, table_getitem index t = Returned row) ∧
      ((Z.of_nat (table_len t) ≤ index)%Z -> table_getitem index t = Raised IndexError))) ∧
  (¬ (0 ≤ index < N)%Z ->
   fst r = Returned tt ∧
   catalog (snd r) = catalog s ∧
   source_select_items (toolbar (snd r)) = source_select_items (toolbar s) ∧
   source_select_currentIndex (toolbar (snd r)) = source_select_currentIndex (toolbar s) ∧
   current_row (snd r) = current_row s ∧
   _loaded_data (snd r) = _loaded_data s ∧
   widgets (snd r) = widgets s ∧
   data_collection (snd r) = data_collection s ∧
   objects (snd r) = objects s ∧
   next_object (snd r) = next_object s ∧
   cycle_previous_disabled (toolbar (snd r)) = (index <=? 0)%Z ∧
   cycle_next_disabled (toolbar (snd r)) = (index >=? N - 1)%Z).
Proof.
  intros N r moved. split.
  - intros Hrange.
    assert (Hlookup : ∀ t, catalog s = Some t ->
              (rectangular t -> (index < Z.of_nat (table_len t))%Z ->
               ∃ row, table_getitem index t = Returned row) ∧
              ((Z.of_nat (table_len t) ≤ index)%Z -> table_getitem index t = Raised IndexError)).
    { intros t _. split.
      - intros Hrect Hlt. apply table_getitem_in_range; [exact Hrect|lia].
      - apply table_getitem_beyond. }
    destruct (catalog s) as [t|] eqn:Hcat.
    + destruct (table_getitem index t) as [row|e] eqn:Hrow.
      * assert (Hr := set_navigation_in_range s t index row Hrange Hcat Hrow).
        fold moved in Hr. fold r in Hr.
        pose proof (load_selection_toolbar row moved) as Htb.
        pose proof (load_selection_catalog row moved) as Hc.
        pose proof (load_selection_current_row row moved) as Hcr.
        pose proof (load_selection_returned_inv row moved) as Hinv.
        assert (Hframe : source_select_currentIndex (toolbar (snd r)) = index ∧
                         source_select_items (toolbar (snd r)) = source_select_items (toolbar s) ∧
                         catalog (snd r) = Some t ∧
                         current_row (snd r) = Some row).
        { rewrite Hr. destruct (load_selection row moved) as [[[]|e] s2]; simpl in *;
            rewrite Htb, Hc; now repeat split. }
        destruct Hframe as (Hindex & Hitems & Hcat' & Hcur).
        split; [exact Hindex|]. split; [exact Hitems|]. split; [exact Hcat'|].
        split; [|split; [|exact Hlookup]].
        -- intros t' row' [= <-] Hrow'. rewrite Hrow in Hrow'. injection Hrow' as <-.
           split; [exact Hr|]. split; [exact Hcur|].
           intros Hret. rewrite Hr in Hret |- *.
           destruct (load_selection row moved) as [[[]|e] s2]; [|discriminate Hret].
           destruct (Hinv s2 eq_refl)
             as (l1 & l2 & l3 & p1 & p2 & p3 & v1 & v2 & v3 & Hgl & Hp1 & Hp2 & Hp3
                 & Hc1 & Hc2 & Hc3 & Hshows & _).
           exists v1, v2, v3. split; [|exact Hshows].
           exists l1, l2, l3, p1, p2, p3. split; [|now repeat split].
           rewrite <- Hgl. now apply get_loaders_catalog_only.
        -- intros t' e [= <-] Hrow'. rewrite Hrow in Hrow'. discriminate Hrow'.
      * assert (Hr : r = (Raised e, moved)).
        { apply set_navigation_getitem_raises; [exact Hrange|].
          unfold catalog_getitem, mbind, Action_bind, get, lift. simpl.
          now rewrite Hcat, Hrow. }
        rewrite Hr. simpl.
        split; [reflexivity|]. split; [reflexivity|]. split; [exact Hcat|].
        split; [|split; [|exact Hlookup]].
        -- intros t' row' [= <-] Hrow'. rewrite Hrow in Hrow'. discriminate Hrow'.
        -- intros t' e' [= <-] Hrow'. rewrite Hrow in Hrow'. now injection Hrow' as <-.
    + assert (Hr : r = (Raised TypeError, moved)).
      { apply set_navigation_getitem_raises; [exact Hrange|].
        unfold catalog_getitem, mbind, Action_bind, get, raise. simpl. now rewrite Hcat. }
      rewrite Hr. simpl.
      split; [reflexivity|]. split; [reflexivity|]. split; [exact Hcat|].
      split; [|split]; intros; discriminate.
  - intros Hrange. subst r. rewrite set_navigation_out_of_range by exact Hrange.
    simpl. now repeat split.
Qed.

Lemma set_navigation_jump_witness :
  catalog example_viewer = Some example_catalog ∧
  source_select_count (toolbar example_viewer) = 3%Z ∧
  table_getitem 1 example_catalog = Returned example_row_1 ∧
  source_select_currentIndex
    (toolbar (snd (@_set_navigation example_host 1 example_viewer))) = 1%Z ∧
  current_row (snd (@_set_navigation example_host 1 example_viewer)) = Some example_row_1 ∧
  widgets (snd (@_set_navigation example_host 7 example_viewer)) = widgets example_viewer.
Proof.
  assert (Hcat : catalog example_viewer = Some example_catalog) by (vm_compute; reflexivity).
  assert (Hcount : source_select_count (toolbar example_viewer) = 3%Z)
    by (vm_compute; reflexivity).
  assert (Hrow : table_getitem 1 example_catalog = Returned example_row_1)
    by (vm_compute; reflexivity).
  pose proof (@set_navigation_jump example_host example_viewer 1) as H1.
  pose proof (@set_navigation_jump example_host example_viewer 7) as H7.
  cbv zeta in H1, H7. rewrite Hcount in H1, H7.
  destruct H1 as [Hin _]. destruct H7 as [_ Hout].
  assert (Hr1 : (0 ≤ 1 < 3)%Z) by (split; [discriminate|reflexivity]).
  assert (Hr7 : ¬ (0 ≤ 7 < 3)%Z) by (intros [_ Hlt]; discriminate Hlt).
  specialize (Hin Hr1). specialize (Hout Hr7).
  destruct Hin as (Hindex & _ & _ & Hload & _).
  destruct (Hload example_catalog example_row_1 Hcat Hrow) as (_ & Hcur & _).
  destruct Hout as (_ & _ & _ & _ & _ & _ & Hw & _).
  split; [exact Hcat|]. split; [exact Hcount|]. split; [exact Hrow|].
  split; [exact Hindex|]. split; [exact Hcur|exact Hw].
Defined.

(** C1 as stated does not hold: the bounds of a jump are not the rows of
    the catalog.  After data without an [id] component was added to a new
    viewer the catalog has two rows and the selector no entry: a jump to
    index 0, which is within [0, 2), returns without moving the selector and
    without loading a row.  After data whose unpacking raised in the columns
    loop was added to the example viewer the catalog has one row and the
    selector three entries: a jump to index 2, which is outside [0, 1), moves
    the selector to 2 and raises [IndexError] before the buttons are set. *)
Lemma jump_bounds_are_not_catalog_rows :
  let sa := example_viewer_without_id in
  let ra := @_set_navigation example_host 0 sa in
  let sb := example_viewer_unlogged in
  let rb := @_set_navigation example_host 2 sb in
  (@reachable example_host sa ∧
   (∃ t, catalog sa = Some t ∧ table_len t = 2 ∧ rectangular t) ∧
   source_select_count (toolbar sa) = 0%Z ∧
   fst ra = Returned tt ∧
   source_select_currentIndex (toolbar (snd ra)) = (-1)%Z ∧
   current_row (snd ra) = None ∧
   widgets (snd ra) = widgets sa) ∧
  (@reachable example_host sb ∧
   (∃ t, catalog sb = Some t ∧ table_len t = 1 ∧ rectangular t) ∧
   source_select_count (toolbar sb) = 3%Z ∧
   source_select_currentIndex (toolbar sb) = 0%Z ∧
   fst rb = Raised IndexError ∧
   source_select_currentIndex (toolbar (snd rb)) = 2%Z ∧
   cycle_previous_disabled (toolbar (snd rb)) = true ∧
   cycle_next_disabled (toolbar (snd rb)) = false).
Proof.
  intros sa ra sb rb. split.
  - split; [exists [7], 10, [DataAdded example_data_without_id]; reflexivity|].
    split.
    { exists {| meta := {| loaders := None |}; columns := [("ra", [CNum 1; CNum 2])] |}.
      split; [vm_compute; reflexivity|]. split; [reflexivity|]. repeat constructor. }
    repeat split; vm_compute; reflexivity.
  - split; [exists [7], 10, [DataAdded example_data; DataAdded example_data_unlogged];
            reflexivity|].
    split.
    { exists {| meta := {| loaders := None |}; columns := [("id", [CStr "z"])] |}.
      split; [vm_compute; reflexivity|]. split; [reflexivity|]. repeat constructor. }
    repeat split; vm_compute; reflexivity.
Qed.

(** ** The boundary buttons *)

Section Buttons.
Context `{Host}.

Lemma catalog_getitem_returned_inv index s row s' :
  catalog_getitem index s = (Returned row, s') ->
  s' = s ∧ ∃ t, catalog s = Some t ∧ table_getitem index t = Returned row.
Proof.
  unfold catalog_getitem. intros Hrun.
  apply bind_returned_inv in Hrun as (s0 & s1 & Hget & Hrun).
  injection Hget as <- <-.
  destruct (catalog s) as [t|]; [|discriminate].
  apply lift_returned_inv in Hrun as [Hrow ->]. split; [reflexivity|]. now exists t.
Qed.

(** A jump that returns ends with the two button updates, on a toolbar
    whose selector moved exactly when the index was in range. *)
Lemma set_navigation_returned_inv index s s' :
  _set_navigation index s = (Returned tt, s') ->
  ∃ s2,
    s' = boundary_buttons index s2 ∧
    toolbar s2 =
      (if ((0 <=? index) && (index <? source_select_count (toolbar s)))%Z
       then source_select_setCurrentIndex index (toolbar s)
       else toolbar s).
Proof.
  unfold _set_navigation. intros Hrun.
  apply bind_returned_inv in Hrun as (s0 & s1 & Hget & Hrun).
  injection Hget as <- <-.
  apply bind_returned_inv in Hrun as ([] & s2 & Hjump & Hbuttons).
  rewrite boundary_buttons_run in Hbuttons. injection Hbuttons as <-.
  exists s2. split; [reflexivity|].
  destruct ((0 <=? index) && (index <? source_select_count (toolbar s)))%Z.
  - apply bind_returned_inv in Hjump as ([] & s1 & Hmove & Hjump).
    injection Hmove as <-.
    apply bind_returned_inv in Hjump as (row & s3 & Hrow & Hload).
    apply catalog_getitem_returned_inv in Hrow as [-> _].
    pose proof (load_selection_toolbar row
                  (set_toolbar (source_select_setCurrentIndex index (toolbar s)) s)) as Htb.
    rewrite Hload in Htb. exact Htb.
  - now injection Hjump as <-.
Qed.

End Buttons.

(** C2, as the code has it.  After a jump that returns, previous is
    disabled exactly when the requested index is at most 0 and next exactly
    when the requested index is at least N - 1, N being the number of entries
    of the selector.  For a jump in range the requested index is the current
    index afterwards, so previous is disabled exactly at current index 0 and
    next exactly at current index N - 1.  For a jump out of range the current
    index stays as it was and the buttons are still set from the requested
    index. *)
Theorem set_navigation_buttons `{Host} (s s' : Viewer) (index : Z) :
  _set_navigation index s = (Returned tt, s') ->
  let N := source_select_count (toolbar s) in
  let current := source_select_currentIndex (toolbar s') in
  source_select_count (toolbar s') = N ∧
  (cycle_previous_disabled (toolbar s') = true ↔ (index ≤ 0)%Z) ∧
  (cycle_next_disabled (toolbar s') = true ↔ (N - 1 ≤ index)%Z) ∧
  ((0 ≤ index < N)%Z ->
   current = index ∧
   (cycle_previous_disabled (toolbar s') = true ↔ current = 0%Z) ∧
   (cycle_next_disabled (toolbar s') = true ↔ current = (N - 1)%Z)) ∧
  (¬ (0 ≤ index < N)%Z -> current = source_select_currentIndex (toolbar s)).
Proof.
  intros Hrun N current.
  apply set_navigation_returned_inv in Hrun as (s2 & -> & Htb).
  assert (Hcount : source_select_count (toolbar s2) = N).
  { rewrite Htb. now destruct (_ && _). }
  assert (Hprev : cycle_previous_disabled (toolbar (boundary_buttons index s2)) = true
                  ↔ (index ≤ 0)%Z).
  { simpl. apply Z.leb_le. }
  assert (Hnext : cycle_next_disabled (toolbar (boundary_buttons index s2)) = true
                  ↔ (N - 1 ≤ index)%Z).
  { simpl. rewrite Hcount, Z.geb_leb. apply Z.leb_le. }
  assert (Hcur : current = source_select_currentIndex (toolbar s2)) by reflexivity.
  split; [exact Hcount|]. split; [exact Hprev|]. split; [exact Hnext|]. split.
  - intros Hrange. apply in_range_decide in Hrange as Hb. fold N in Htb.
    rewrite Hb in Htb. rewrite Hcur, Htb. simpl.
    split; [reflexivity|]. rewrite Hprev, Hnext. lia.
  - intros Hrange. rewrite <- in_range_decide in Hrange. apply not_true_is_false in Hrange.
    fold N in Htb. rewrite Hrange in Htb. now rewrite Hcur, Htb.
Qed.

Lemma set_navigation_buttons_witness :
  @_set_navigation example_host 7 example_viewer_at_1
  = (Returned tt, snd (@_set_navigation example_host 7 example_viewer_at_1)) ∧
  cycle_next_disabled (toolbar (snd (@_set_navigation example_host 7 example_viewer_at_1)))
  = true.
Proof.
  assert (Hrun : @_set_navigation example_host 7 example_viewer_at_1
                 = (Returned tt, snd (@_set_navigation example_host 7 example_viewer_at_1)))
    by (vm_compute; reflexivity).
  split; [exact Hrun|].
  pose proof (@set_navigation_buttons example_host _ _ 7 Hrun) as Hb. cbv zeta in Hb.
  destruct Hb as (_ & _ & Hnext & _).
  apply Hnext. vm_compute. discriminate.
Defined.

(** C2 as stated does not hold.  With the three-row example catalog shown
    at its second row, a jump to index 7 returns, leaves the current index at
    1 and disables next: next is disabled although the current index is not
    N - 1 = 2 and N is not 0. *)
Lemma next_disabled_away_from_last_row :
  let s := example_viewer_at_1 in
  let r := @_set_navigation example_host 7 s in
  let N := Z.of_nat (table_len example_catalog) in
  @reachable example_host s ∧
  catalog s = Some example_catalog ∧
  fst r = Returned tt ∧
  source_select_currentIndex (toolbar (snd r)) = 1%Z ∧
  N = 3%Z ∧
  cycle_next_disabled (toolbar (snd r)) = true ∧
  ¬ (cycle_next_disabled (toolbar (snd r)) = true
     ↔ (source_select_currentIndex (toolbar (snd r)) = N - 1 ∨ N = 0)%Z).
Proof.
  intros s r N.
  assert (Hindex : source_select_currentIndex (toolbar (snd r)) = 1%Z)
    by (vm_compute; reflexivity).
  assert (Hnext : cycle_next_disabled (toolbar (snd r)) = true) by (vm_compute; reflexivity).
  assert (HN : N = 3%Z) by reflexivity.
  split.
  { exists [7], 10, [DataAdded example_data; Jump 1%Z]. reflexivity. }
  split; [vm_compute; reflexivity|].
  split; [vm_compute; reflexivity|].
  split; [exact Hindex|]. split; [exact HN|]. split; [exact Hnext|].
  intros [Hiff _]. specialize (Hiff Hnext). rewrite Hindex, HN in Hiff.
  destruct Hiff as [Hbad|Hbad]; discriminate Hbad.
Qed.

(** ** Loader resolution *)

Section Resolution.
Context `{Host}.





End Resolution.


(** C3.  The code misses the first case of the claim.  The catalog names
    the loader "Custom Reader", which is registered, and the registry holds
    nothing under "NIRSpec 1D Spectrum".  The claim has the function
    registered as "Custom Reader" used; [_get_loaders] raises
    [StopIteration] instead, because the fallback lookup, written as the
    default of the override lookup, is evaluated first and has no default of
    its own. *)
Lemma registered_override_not_used :
  let s := example_viewer_with plugin_only_host "Custom Reader" in
  catalog s = Some (example_catalog_with "Custom Reader") ∧
  overrides_of (example_catalog_with "Custom Reader") !! kind_key spec1d
  = Some "Custom Reader" ∧
  first_labelled "Custom Reader" (@data_factory_members plugin_only_host)
  = Some (plugin_reader 1) ∧
  @_get_loaders plugin_only_host s = (Raised StopIteration, s) ∧
  ¬ ∃ ls, fst (@_get_loaders plugin_only_host s) = Returned ls
          ∧ loader_for spec1d ls = plugin_reader 1.
Proof.
  intros s.
  assert (Hraise : fst (@_get_loaders plugin_only_host s) = Raised StopIteration)
    by (vm_compute; reflexivity).
  split; [vm_compute; reflexivity|]. split; [vm_compute; reflexivity|].
  split; [vm_compute; reflexivity|]. split.
  - rewrite get_loaders_run, Hraise. reflexivity.
  - intros (ls & Hls & _). rewrite Hraise in Hls. discriminate.
Qed.



(** ** Unpacking a selection *)

Lemma np_any_all_false (mask : list bool) :
  (∀ b, b ∈ mask -> b = false) -> np_any mask = false.
Proof.
  intros Hall. unfold np_any. induction mask as [|b mask IH]; [reflexivity|].
  simpl. rewrite (Hall b) by left. simpl. apply IH. intros b' Hb'. apply Hall. now right.
Qed.

(** C4.  When the mask of a subset cannot be resolved, or resolves to a
    mask that selects no row, the unpacker returns without raising and the
    viewer is exactly as before: catalog, current row, loaded data, toolbar,
    widgets and data collection are untouched. *)
Theorem unpack_selection_abort `{Host} (sub : Subset) (s : Viewer) :
  (to_mask sub = None ∨ ∃ mask, to_mask sub = Some mask ∧ ∀ b, b ∈ mask -> b = false) ->
  _unpack_selection (OfSubset sub) s = (Returned tt, s).
Proof.
  intros [Hfail | (mask & Hmask & Hall)]; unfold _unpack_selection.
  - now rewrite Hfail.
  - rewrite Hmask, (np_any_all_false mask Hall). reflexivity.
Qed.

Lemma unpack_selection_abort_witness :
  (to_mask (example_subset (Some [false; false; false])) = None
   ∨ ∃ mask, to_mask (example_subset (Some [false; false; false])) = Some mask
             ∧ ∀ b, b ∈ mask -> b = false) ∧
  @_unpack_selection example_host (OfSubset (example_subset (Some [false; false; false])))
    example_viewer_at_1
  = (Returned tt, example_viewer_at_1).
Proof.
  assert (Hhyp : to_mask (example_subset (Some [false; false; false])) = None
                 ∨ ∃ mask, to_mask (example_subset (Some [false; false; false])) = Some mask
                           ∧ ∀ b, b ∈ mask -> b = false).
  { right. exists [false; false; false]. split; [reflexivity|].
    intros b Hb. repeat (apply elem_of_cons in Hb as [->|Hb]; [reflexivity|]).
    now apply elem_of_nil in Hb. }
  split; [exact Hhyp|].
  exact (@unpack_selection_abort example_host _ example_viewer_at_1 Hhyp).
Defined.

Lemma bind_tail_preserves {X A B : Type} (f : Viewer -> X) (m : Action A) (k : A -> Action B) s :
  (∀ a, preserves f (k a)) -> f (snd ((m ≫= k) s)) = f (snd (m s)).
Proof.
  intros Hk. unfold mbind, Action_bind. destruct (m s) as [[a|e] s1]; simpl; [apply Hk|reflexivity].
Qed.

Lemma catalog_getitem_preserves {X : Type} (f : Viewer -> X) index :
  preserves f (catalog_getitem index).
Proof. unfold catalog_getitem. frame. Qed.

#[global] Hint Resolve catalog_getitem_preserves : frame.

Lemma update_navigation_catalog : preserves catalog _update_navigation.
Proof. unfold _update_navigation, modify_toolbar. frame. Qed.

Lemma set_navigation_catalog `{Host} index : preserves catalog (_set_navigation index).
Proof. unfold _set_navigation, modify_toolbar. frame. Qed.

#[global] Hint Resolve update_navigation_catalog set_navigation_catalog : frame.

Lemma catalog_setitem_run name values s :
  catalog_setitem name values s =
  match catalog s with
  | Some t =>
      match table_setitem name values t with
      | Returned t' => (Returned tt, set_catalog (Some t') s)
      | Raised e => (Raised e, s)
      end
  | None => (Raised TypeError, s)
  end.
Proof.
  unfold catalog_setitem, mbind, Action_bind, get, lift, modify, raise.
  destruct (catalog s) as [t|]; [|reflexivity]. now destruct (table_setitem name values t).
Qed.

(** The columns loop reads and writes the catalog only. *)
Lemma unpack_columns_catalog_only mask comps : ∀ s s',
  catalog s = catalog s' ->
  catalog (snd (unpack_columns mask comps s)) = catalog (snd (unpack_columns mask comps s')).
Proof.
  induction comps as [|[att component] comps IH]; intros s s' Hcat; simpl; [exact Hcat|].
  destruct (unpack_component mask att component) as [values|e].
  2: { rewrite (bind_raised _ _ s e s), (bind_raised _ _ s' e s') by reflexivity.
       exact Hcat. }
  rewrite (bind_returned _ _ s values s), (bind_returned _ _ s' values s') by reflexivity.
  pose proof (catalog_setitem_run att values s) as Hs.
  pose proof (catalog_setitem_run att values s') as Hs'.
  rewrite <- Hcat in Hs'.
  destruct (catalog s) as [t|] eqn:Hcs.
  2: { rewrite (bind_raised _ _ _ _ _ Hs), (bind_raised _ _ _ _ _ Hs'). simpl. congruence. }
  destruct (table_setitem att values t) as [t'|e].
  2: { rewrite (bind_raised _ _ _ _ _ Hs), (bind_raised _ _ _ _ _ Hs'). simpl. congruence. }
  rewrite (bind_returned _ _ _ _ _ Hs), (bind_returned _ _ _ _ _ Hs').
  apply IH. reflexivity.
Qed.

(** The catalog a rebuild leaves behind is the one the columns loop built
    on an empty table carrying the data's metadata. *)
Lemma rebuild_catalog_catalog `{Host} mask data s :
  catalog (snd (rebuild_catalog mask data s)) =
  catalog (snd (unpack_columns mask (components data)
                  (set_catalog (Some {| meta := data_meta data; columns := [] |}) s))).
Proof.
  unfold rebuild_catalog.
  rewrite (bind_returned _ _ s tt
             (set_catalog (Some {| meta := data_meta data; columns := [] |}) s))
    by reflexivity.
  apply bind_tail_preserves. intros []. frame.
Qed.

Lemma rebuild_catalog_input_only `{Host} mask data s s' :
  catalog (snd (rebuild_catalog mask data s)) = catalog (snd (rebuild_catalog mask data s')).
Proof. rewrite !rebuild_catalog_catalog. now apply unpack_columns_catalog_only. Qed.

Lemma np_any_all_true (mask : list bool) :
  mask ≠ [] -> (∀ b, b ∈ mask -> b = true) -> np_any mask = true.
Proof.
  intros Hne Hall. destruct mask as [|b mask]; [congruence|].
  unfold np_any. simpl. now rewrite (Hall b) by left.
Qed.

(** C5.  Unpacking the same subset twice under an all-true mask leaves the
    same catalog both times; and when the mask selects a row at all, that
    catalog does not depend on the viewer the unpack started from, only on
    the input. *)
Theorem unpack_selection_idempotent `{Host} (sub : Subset) (mask : list bool) (s : Viewer) :
  to_mask sub = Some mask ->
  (∀ b, b ∈ mask -> b = true) ->
  let s1 := snd (_unpack_selection (OfSubset sub) s) in
  let s2 := snd (_unpack_selection (OfSubset sub) s1) in
  catalog s2 = catalog s1 ∧
  (mask ≠ [] ->
   ∀ s0, catalog (snd (_unpack_selection (OfSubset sub) s0)) = catalog s1).
Proof.
  intros Hmask Hall s1 s2. subst s1 s2. unfold _unpack_selection. rewrite Hmask.
  destruct mask as [|b mask].
  - simpl. split; [reflexivity|congruence].
  - rewrite (np_any_all_true (b :: mask)) by (congruence || exact Hall).
    split; [|intros _ s0]; apply rebuild_catalog_input_only.
Qed.

Lemma unpack_selection_idempotent_witness :
  to_mask (example_subset (Some [true; true; true])) = Some [true; true; true] ∧
  (∀ b, b ∈ [true; true; true] -> b = true) ∧
  catalog (snd (@_unpack_selection example_host
                  (OfSubset (example_subset (Some [true; true; true])))
                  (snd (@_unpack_selection example_host
                          (OfSubset (example_subset (Some [true; true; true])))
                          (new_viewer [7] 10)))))
  = catalog (snd (@_unpack_selection example_host
                    (OfSubset (example_subset (Some [true; true; true])))
                    (new_viewer [7] 10))).
Proof.
  assert (Hall : ∀ b, b ∈ [true; true; true] -> b = true).
  { intros b Hb. repeat (apply elem_of_cons in Hb as [->|Hb]; [reflexivity|]).
    now apply elem_of_nil in Hb. }
  split; [reflexivity|]. split; [exact Hall|].
  exact (proj1 (@unpack_selection_idempotent example_host
                  (example_subset (Some [true; true; true])) [true; true; true]
                  (new_viewer [7] 10) eq_refl Hall)).
Defined.

(** The catalog an all-true mask yields on the example data is the example
    catalog. *)
Example unpack_all_true_example :
  catalog (snd (@_unpack_selection example_host
                  (OfSubset (example_subset (Some [true; true; true]))) (new_viewer [7] 10)))
  = Some example_catalog.
Proof. vm_compute. reflexivity. Qed.

(** ** The loaded-data cache and the host's data collection *)

(** C6.  [_update_data_components] returns, and for every key and every
    newly loaded object: when nothing is cached under the key, the object is
    appended to the data collection (at its end, since a new object is not in
    it yet) and recorded in the cache under the key; when an object is cached
    under the key, the cache is unchanged, so the cached object keeps its
    identity, the data collection is unchanged, and the values of the cached
    object are overwritten by the values of the new one.  Nothing else in the
    viewer changes. *)
Theorem update_data_components_spec (data : DataObject) (key : string) (s : Viewer) :
  let r := _update_data_components data key s in
  fst r = Returned tt ∧
  (_loaded_data s !! key = None ->
   data_collection (snd r) = data_collection_append (object_id data) (data_collection s) ∧
   (object_id data ∉ data_collection s ->
    data_collection (snd r) = data_collection s ++ [object_id data]) ∧
   _loaded_data (snd r) = <[key := object_id data]> (_loaded_data s) ∧
   _loaded_data (snd r) !! key = Some (object_id data) ∧
   objects (snd r) !! object_id data = Some (object_values data)) ∧
  (∀ cur_data,
     _loaded_data s !! key = Some cur_data ->
     _loaded_data (snd r) = _loaded_data s ∧
     data_collection (snd r) = data_collection s ∧
     objects (snd r) = <[cur_data := object_values data]> (objects s) ∧
     objects (snd r) !! cur_data = Some (object_values data)) ∧
  catalog (snd r) = catalog s ∧
  current_row (snd r) = current_row s ∧
  toolbar (snd r) = toolbar s ∧
  widgets (snd r) = widgets s.
Proof.
  intros r. subst r. unfold _update_data_components.
  rewrite (bind_returned _ _ s s s) by reflexivity.
  destruct (_loaded_data s !! key) as [cur|] eqn:Hkey.
  - simpl. split; [reflexivity|]. split; [discriminate|]. split; [|now repeat split].
    intros cur_data [= <-]. repeat split. apply lookup_insert_eq.
  - simpl. split; [reflexivity|]. split; [|split; [discriminate|now repeat split]].
    intros _. split; [reflexivity|]. split.
    { intros Hnew. unfold data_collection_append. now rewrite bool_decide_eq_false_2. }
    split; [reflexivity|]. split; apply lookup_insert_eq.
Qed.

Lemma update_data_components_spec_witness :
  _loaded_data example_viewer !! "spec1d" = Some 10 ∧
  _loaded_data (snd (_update_data_components
                       {| object_id := 42; object_values := example_values 5 |}
                       "spec1d" example_viewer))
  = _loaded_data example_viewer ∧
  data_collection (snd (_update_data_components
                          {| object_id := 42; object_values := example_values 5 |}
                          "spec1d" example_viewer))
  = data_collection example_viewer ∧
  _loaded_data (new_viewer [7] 10) !! "spec1d" = None ∧
  data_collection (snd (_update_data_components
                          {| object_id := 42; object_values := example_values 5 |}
                          "spec1d" (new_viewer [7] 10)))
  = data_collection_append 42 [7].
Proof.
  assert (Hcached : _loaded_data example_viewer !! "spec1d" = Some 10)
    by (vm_compute; reflexivity).
  assert (Hfresh : _loaded_data (new_viewer [7] 10) !! "spec1d" = None) by reflexivity.
  pose proof (update_data_components_spec
                {| object_id := 42; object_values := example_values 5 |}
                "spec1d" example_viewer) as Hupd.
  pose proof (update_data_components_spec
                {| object_id := 42; object_values := example_values 5 |}
                "spec1d" (new_viewer [7] 10)) as Hnew.
  cbv zeta in Hupd, Hnew.
  destruct Hupd as (_ & _ & Hupd & _). destruct (Hupd 10 Hcached) as (Hcache & Hdc & _).
  destruct Hnew as (_ & Hnew & _). destruct (Hnew Hfresh) as (Hdc' & _).
  split; [exact Hcached|]. split; [exact Hcache|]. split; [exact Hdc|].
  split; [exact Hfresh|exact Hdc'].
Defined.

Lemma data_collection_append_NoDup d dc :
  NoDup dc -> NoDup (data_collection_append d dc).
Proof.
  intros Hnd. unfold data_collection_append. case_bool_decide as Hin; [exact Hnd|].
  apply NoDup_app. repeat split; [exact Hnd| |apply NoDup_singleton].
  intros x Hx Hx'. apply list_elem_of_singleton in Hx'. now subst.
Qed.

Lemma data_collection_remove_elem d dc x :
  NoDup dc -> x ∈ data_collection_remove d dc ↔ x ∈ dc ∧ x ≠ d.
Proof.
  induction dc as [|y dc IH]; intros Hnd; simpl.
  - split; [intros Hx|intros [Hx _]]; now apply elem_of_nil in Hx.
  - apply NoDup_cons in Hnd as [Hy Hnd].
    destruct (Nat.eqb_spec y d) as [->|Hne].
    + rewrite elem_of_cons. split.
      * intros Hx. split; [now right|]. intros ->. contradiction.
      * intros [[->|Hx] Hxd]; [congruence|exact Hx].
    + rewrite !elem_of_cons, (IH Hnd). split.
      * intros [->|[Hx Hxd]]; [split; [now left|exact Hne]|split; [now right|exact Hxd]].
      * intros [[->|Hx] Hxd]; [now left|now right].
Qed.

Lemma data_collection_remove_NoDup d dc :
  NoDup dc -> NoDup (data_collection_remove d dc).
Proof.
  induction dc as [|y dc IH]; intros Hnd; simpl; [exact Hnd|].
  apply NoDup_cons in Hnd as Hnd'. destruct Hnd' as [Hy Hnd'].
  destruct (Nat.eqb_spec y d) as [->|Hne]; [exact Hnd'|].
  apply NoDup_cons. split; [|now apply IH].
  intros Hin. apply (data_collection_remove_elem d dc y Hnd') in Hin as [Hin _]. contradiction.
Qed.

Lemma remove_all_elem (ds : list nat) : ∀ dc x,
  NoDup dc ->
  NoDup (fold_left (fun dc d => data_collection_remove d dc) ds dc) ∧
  (x ∈ fold_left (fun dc d => data_collection_remove d dc) ds dc ↔ x ∈ dc ∧ x ∉ ds).
Proof.
  induction ds as [|d ds IH]; intros dc x Hnd; simpl.
  - split; [exact Hnd|]. split; [intros Hx; split; [exact Hx|apply not_elem_of_nil]|tauto].
  - destruct (IH (data_collection_remove d dc) x (data_collection_remove_NoDup d dc Hnd))
      as [Hnd' Hiff].
    split; [exact Hnd'|]. rewrite Hiff, (data_collection_remove_elem d dc x Hnd), not_elem_of_cons.
    tauto.
Qed.

Lemma elem_of_loaded_values s d :
  d ∈ loaded_values s ↔ ∃ key, _loaded_data s !! key = Some d.
Proof.
  unfold loaded_values. rewrite list_elem_of_fmap. split.
  - intros ([key d'] & -> & Hin). exists key. now apply elem_of_map_to_list in Hin.
  - intros [key Hkey]. exists (key, d). split; [reflexivity|]. now apply elem_of_map_to_list.
Qed.

(** C7.  Closing the viewer returns and removes from the data collection
    exactly the cached objects: no cached object is left in the collection,
    every other object of the collection is still in it, and nothing is
    added.  The cache itself and the rest of the viewer are as before. *)
Theorem closeEvent_removes_cached (s : Viewer) :
  NoDup (data_collection s) ->
  let r := closeEvent s in
  fst r = Returned tt ∧
  (∀ key d, _loaded_data s !! key = Some d -> d ∉ data_collection (snd r)) ∧
  (∀ d, d ∈ data_collection s ->
        (∀ key, _loaded_data s !! key ≠ Some d) -> d ∈ data_collection (snd r)) ∧
  (∀ d, d ∈ data_collection (snd r) -> d ∈ data_collection s) ∧
  NoDup (data_collection (snd r)) ∧
  _loaded_data (snd r) = _loaded_data s ∧
  catalog (snd r) = catalog s ∧
  widgets (snd r) = widgets s.
Proof.
  intros Hnd r. subst r. unfold closeEvent.
  rewrite (bind_returned _ _ s s s) by reflexivity. simpl.
  split; [reflexivity|].
  assert (Hall := fun x => remove_all_elem (loaded_values s) (data_collection s) x Hnd).
  split; [|split; [|split; [|split; [|now repeat split]]]].
  - intros key d Hkey Hin. apply Hall in Hin as [_ Hout]. apply Hout.
    apply elem_of_loaded_values. now exists key.
  - intros d Hin Hfree. apply Hall. split; [exact Hin|].
    intros Hd. apply elem_of_loaded_values in Hd as [key Hkey]. now apply (Hfree key).
  - intros d Hin. now apply Hall in Hin.
  - apply (Hall 0).
Qed.

Lemma closeEvent_removes_cached_witness :
  NoDup (data_collection example_viewer_at_1) ∧
  data_collection example_viewer_at_1 = [7; 10; 11; 12] ∧
  _loaded_data example_viewer_at_1 !! "image" = Some 12 ∧
  (12 ∉ data_collection (snd (closeEvent example_viewer_at_1))) ∧
  (7 ∈ data_collection (snd (closeEvent example_viewer_at_1))).
Proof.
  assert (Hdc : data_collection example_viewer_at_1 = [7; 10; 11; 12])
    by (vm_compute; reflexivity).
  assert (Hnd : NoDup (data_collection example_viewer_at_1)).
  { rewrite Hdc. apply (bool_decide_unpack _). vm_compute. exact I. }
  assert (Himage : _loaded_data example_viewer_at_1 !! "image" = Some 12)
    by (vm_compute; reflexivity).
  pose proof (closeEvent_removes_cached example_viewer_at_1 Hnd) as Hclose.
  cbv zeta in Hclose. destruct Hclose as (_ & Hgone & Hkept & _).
  split; [exact Hnd|]. split; [exact Hdc|]. split; [exact Himage|]. split.
  - exact (Hgone "image" 12 Himage).
  - apply Hkept.
    + rewrite Hdc. apply list_elem_of_here.
    + intros key Hkey.
      assert (Hnot : 7 ∉ loaded_values example_viewer_at_1)
        by (apply (bool_decide_unpack _); vm_compute; exact I).
      apply Hnot, elem_of_loaded_values. now exists key.
Defined.

(** ** Loader failures *)

Lemma loader_raises_catalog_only `{Host} row s s' e :
  catalog s = catalog s' -> loader_raises row s e -> loader_raises row s' e.
Proof.
  intros Hcat (l1 & l2 & l3 & p1 & Hgl & Hrest).
  exists l1, l2, l3, p1. split; [|exact Hrest].
  rewrite <- Hgl. symmetry. now apply get_loaders_catalog_only.
Qed.

(** C8.  When one of the three loader calls of [load_selection] raises,
    the exception leaves [load_selection]: the cache, the kept objects and the
    data collection are not updated and the widgets show what they showed
    before.  A jump that led to the load does not catch it either: the
    exception leaves [_set_navigation] with the widgets as they were. *)
Theorem loader_failure_propagates `{Host} (row : Row) (s : Viewer) (e : Exception) :
  loader_raises row s e ->
  (fst (load_selection row s) = Raised e ∧
   _loaded_data (snd (load_selection row s)) = _loaded_data s ∧
   objects (snd (load_selection row s)) = objects s ∧
   data_collection (snd (load_selection row s)) = data_collection s ∧
   widgets (snd (load_selection row s)) = widgets s) ∧
  ∀ t index,
    catalog s = Some t ->
    (0 ≤ index < source_select_count (toolbar s))%Z ->
    table_getitem index t = Returned row ->
    fst (_set_navigation index s) = Raised e ∧
    _loaded_data (snd (_set_navigation index s)) = _loaded_data s ∧
    widgets (snd (_set_navigation index s)) = widgets s.
Proof.
  intros Hraise. split.
  - destruct (load_selection_loader_raises row s e Hraise)
      as (s' & -> & _ & _ & Hld & _ & Hw & Hdc & Hobj).
    simpl. now repeat split.
  - intros t index Hcat Hrange Hrow.
    rewrite (set_navigation_in_range s t index row Hrange Hcat Hrow).
    set (s1 := set_toolbar (source_select_setCurrentIndex index (toolbar s)) s).
    assert (Hraise1 : loader_raises row s1 e)
      by (apply (loader_raises_catalog_only row s s1 e); [reflexivity|exact Hraise]).
    destruct (load_selection_loader_raises row s1 e Hraise1)
      as (s' & -> & _ & _ & Hld & _ & Hw & _).
    simpl. now repeat split.
Qed.

Lemma example_row_2_loader_raises :
  @loader_raises example_host example_row_2 example_viewer OSError.
Proof.
  exists nirspec_spectrum1d_reader, nirspec_spectrum2d_reader, acs_cutout_image_reader,
    (CStr "/d/bad.fits").
  split; [vm_compute; reflexivity|]. split; [reflexivity|]. left. reflexivity.
Defined.

Lemma loader_failure_propagates_witness :
  @loader_raises example_host example_row_2 example_viewer OSError ∧
  fst (@load_selection example_host example_row_2 example_viewer) = Raised OSError ∧
  widgets (snd (@load_selection example_host example_row_2 example_viewer))
  = widgets example_viewer.
Proof.
  pose proof (@loader_failure_propagates example_host example_row_2 example_viewer OSError
                example_row_2_loader_raises) as [(Hout & _ & _ & _ & Hw) _].
  split; [exact example_row_2_loader_raises|]. split; [exact Hout|exact Hw].
Defined.

(** C10.  [load_selection] records the new row before it resolves or calls
    any loader: whatever the outcome, the current row afterwards is the row it
    was given.  So when a loader raises, the viewer is left with the new row
    as current row while the cache, the kept objects and the widgets are
    those of the selection before. *)
Theorem load_selection_not_atomic `{Host} (row : Row) (s : Viewer) :
  current_row (snd (load_selection row s)) = Some row ∧
  ∀ e,
    loader_raises row s e ->
    fst (load_selection row s) = Raised e ∧
    current_row (snd (load_selection row s)) = Some row ∧
    _loaded_data (snd (load_selection row s)) = _loaded_data s ∧
    objects (snd (load_selection row s)) = objects s ∧
    widgets (snd (load_selection row s)) = widgets s.
Proof.
  split; [apply load_selection_current_row|].
  intros e Hraise.
  destruct (load_selection_loader_raises row s e Hraise)
    as (s' & -> & Hrow & _ & Hld & _ & Hw & _ & Hobj).
  simpl. now repeat split.
Qed.

Lemma load_selection_not_atomic_witness :
  @loader_raises example_host example_row_2 example_viewer OSError ∧
  current_row (snd (@load_selection example_host example_row_2 example_viewer))
  = Some example_row_2 ∧
  widgets (snd (@load_selection example_host example_row_2 example_viewer))
  = widgets example_viewer ∧
  current_row example_viewer ≠ Some example_row_2.
Proof.
  pose proof (@load_selection_not_atomic example_host example_row_2 example_viewer)
    as [_ Hmixed].
  destruct (Hmixed OSError example_row_2_loader_raises) as (_ & Hrow & _ & _ & Hw).
  split; [exact example_row_2_loader_raises|]. split; [exact Hrow|]. split; [exact Hw|].
  intros Hsame. vm_compute in Hsame. discriminate Hsame.
Defined.

(** ** The data collection never holds an object twice *)

Lemma maintains_of_preserves {X A : Type} (f : Viewer -> X) (P : X -> Prop) (m : Action A) :
  preserves f m -> maintains (fun s => P (f s)) m.
Proof. intros Hm s Hs. now rewrite Hm. Qed.

Lemma maintains_bind {A B : Type} (P : Viewer -> Prop) (m : Action A) (k : A -> Action B) :
  maintains P m -> (∀ a, maintains P (k a)) -> maintains P (m ≫= k).
Proof.
  intros Hm Hk s Hs. unfold mbind, Action_bind.
  specialize (Hm s Hs). destruct (m s) as [[a|e] s1]; simpl in *; [now apply Hk|exact Hm].
Qed.

Lemma update_data_components_NoDup data key :
  maintains collection_NoDup (_update_data_components data key).
Proof.
  intros s Hs. unfold collection_NoDup, _update_data_components in *.
  rewrite (bind_returned _ _ s s s) by reflexivity.
  destruct (_loaded_data s !! key) as [cur|]; simpl; [exact Hs|].
  now apply data_collection_append_NoDup.
Qed.

Lemma run_loader_data_collection `{Host} fn path : preserves data_collection (run_loader fn path).
Proof. unfold run_loader. frame. Qed.

Lemma add_form_rows_data_collection row cols :
  preserves data_collection (add_form_rows row cols).
Proof. induction cols; simpl; unfold modify_widgets; frame. Qed.

#[global] Hint Resolve run_loader_data_collection add_form_rows_data_collection : frame.

Lemma render_data_data_collection row d1 d2 d3 :
  preserves data_collection (render_data row d1 d2 d3).
Proof. unfold render_data, modify_widgets. frame. Qed.

Lemma update_navigation_data_collection : preserves data_collection _update_navigation.
Proof. unfold _update_navigation, modify_toolbar. frame. Qed.

Lemma unpack_columns_data_collection mask comps :
  preserves data_collection (unpack_columns mask comps).
Proof.
  induction comps as [|[att component] comps IH]; simpl; unfold catalog_setitem; frame.
Qed.

Create HintDb maintain.

#[global] Hint Resolve update_data_components_NoDup : maintain.

Ltac maintain_step :=
  first
    [ solve [ auto 1 with maintain nocore ]
    | apply (maintains_of_preserves data_collection NoDup);
      solve [ auto 1 with frame nocore
            | apply render_data_data_collection
            | apply update_navigation_data_collection
            | apply unpack_columns_data_collection
            | frame ]
    | apply maintains_bind; [ | intros ? ]
    | match goal with
      | |- maintains _ (match ?x with _ => _ end) => destruct x
      | |- maintains _ (if ?b then _ else _) => destruct b
      end ].

Ltac maintain := repeat maintain_step.

Section CollectionInvariant.
Context `{Host}.

Lemma load_selection_NoDup row : maintains collection_NoDup (load_selection row).
Proof. unfold load_selection. maintain. Qed.

#[local] Hint Resolve load_selection_NoDup : maintain.

Lemma set_navigation_NoDup index : maintains collection_NoDup (_set_navigation index).
Proof. unfold _set_navigation, modify_toolbar. maintain. Qed.

#[local] Hint Resolve set_navigation_NoDup : maintain.

Lemma unpack_selection_NoDup data : maintains collection_NoDup (_unpack_selection data).
Proof. unfold _unpack_selection, rebuild_catalog. maintain. Qed.

#[local] Hint Resolve unpack_selection_NoDup : maintain.

Lemma closeEvent_NoDup : maintains collection_NoDup closeEvent.
Proof.
  intros s Hs. unfold collection_NoDup, closeEvent.
  rewrite (bind_returned _ _ s s s) by reflexivity. simpl.
  apply (remove_all_elem (loaded_values s) (data_collection s) 0 Hs).
Qed.

Lemma handle_NoDup ev : maintains collection_NoDup (handle ev).
Proof.
  destruct ev; simpl; unfold add_data, add_subset;
    first [ apply set_navigation_NoDup | apply closeEvent_NoDup | maintain ].
Qed.

(** In every viewer reached from a session whose data collection holds no
    object twice, the data collection holds no object twice. *)
Lemma run_events_NoDup evs : ∀ s,
  collection_NoDup s -> collection_NoDup (run_events evs s).
Proof.
  induction evs as [|ev evs IH]; intros s Hs; simpl; [exact Hs|].
  apply IH. now apply handle_NoDup.
Qed.

End CollectionInvariant.

(** ** The selector lists the catalog *)

Lemma assoc_lookup_elem_of {A : Type} name (l : list (string * A)) a :
  assoc_lookup name l = Some a -> (name, a) ∈ l.
Proof.
  induction l as [|[n b] l IH]; simpl; [discriminate|].
  destruct (String.eqb_spec n name) as [->|Hne].
  - intros [= ->]. left.
  - intros Ha. right. now apply IH.
Qed.

Lemma assoc_replace_Forall {A : Type} (P : string * A -> Prop) name a (l : list (string * A)) :
  (∀ n, P (n, a)) -> Forall P l -> Forall P (assoc_replace name a l).
Proof.
  intros Ha Hl. induction Hl as [|[n b] l Hb Hl IH]; simpl; [constructor|].
  destruct (String.eqb n name); constructor; auto.
Qed.

Lemma table_setitem_rectangular name values t t' :
  rectangular t -> table_setitem name values t = Returned t' -> rectangular t'.
Proof.
  unfold rectangular, table_setitem, table_len. intros Hrect.
  destruct (columns t) as [|[n0 c0] cols] eqn:Hcols.
  - intros [= <-]. simpl. now repeat constructor.
  - destruct (Nat.eqb_spec (length values) (length c0)) as [Hlen|]; [|discriminate].
    destruct (assoc_lookup name ((n0, c0) :: cols)); intros [= <-]; simpl.
    + destruct (String.eqb n0 name) eqn:Hn0; simpl.
      * apply Forall_cons in Hrect as [_ Hrect]. constructor; [reflexivity|].
        eapply Forall_impl; [exact Hrect|]. simpl. intros x Hx. congruence.
      * constructor; [reflexivity|]. apply Forall_cons in Hrect as [_ Hrect].
        now apply assoc_replace_Forall.
    + apply Forall_cons in Hrect as [_ Hrect]. constructor; [reflexivity|].
      apply Forall_app. split; [exact Hrect|]. now repeat constructor.
Qed.

Lemma catalog_setitem_rectangular name values :
  maintains catalog_rectangular (catalog_setitem name values).
Proof.
  intros s Hs. rewrite catalog_setitem_run. unfold catalog_rectangular in *.
  destruct (catalog s) as [t|] eqn:Hcat; [|simpl; now rewrite Hcat].
  destruct (table_setitem name values t) as [t'|e] eqn:Hset; simpl.
  - intros t0 [= <-]. eapply table_setitem_rectangular; [|exact Hset]. now apply Hs.
  - now rewrite Hcat.
Qed.

Lemma unpack_columns_rectangular mask comps :
  maintains catalog_rectangular (unpack_columns mask comps).
Proof.
  induction comps as [|[att component] comps IH]; simpl.
  - intros s Hs. exact Hs.
  - apply maintains_bind; [intros s Hs; exact Hs|]. intros values.
    apply maintains_bind; [apply catalog_setitem_rectangular|]. intros _. exact IH.
Qed.

Lemma update_navigation_returned_inv s s' :
  _update_navigation s = (Returned tt, s') ->
  ∃ t ids,
    catalog s = Some t ∧ table_column "id" t = Returned ids ∧
    s' = set_toolbar (source_select_addItems ids (source_select_clear (toolbar s))) s.
Proof.
  unfold _update_navigation, modify_toolbar. intros Hrun.
  apply bind_returned_inv in Hrun as ([] & s1 & Hclear & Hrun). injection Hclear as <-.
  apply bind_returned_inv in Hrun as (s2 & s3 & Hget & Hrun). injection Hget as <- <-.
  apply bind_returned_inv in Hrun as (ids & s3 & Hids & Hrun).
  simpl in Hids. destruct (catalog s) as [t|]; [|discriminate].
  apply lift_returned_inv in Hids as [Hids ->]. injection Hrun as <-.
  exists t, ids. now repeat split.
Qed.

Section SelectorInvariant.
Context `{Host}.

Lemma load_selection_selector_items row : preserves selector_items (load_selection row).
Proof.
  intros s. unfold selector_items. now rewrite load_selection_toolbar.
Qed.

#[local] Hint Resolve load_selection_selector_items : frame.

Lemma set_navigation_selector_items index : preserves selector_items (_set_navigation index).
Proof. unfold _set_navigation, modify_toolbar. frame. Qed.

(** A jump keeps the selector in step with the catalog, whatever its
    outcome. *)
Lemma set_navigation_lists_catalog index :
  maintains selector_lists_catalog (_set_navigation index).
Proof.
  intros s Hs. unfold selector_lists_catalog, source_select_count in *.
  rewrite set_navigation_catalog.
  change (source_select_items (toolbar (snd (_set_navigation index s))))
    with (selector_items (snd (_set_navigation index s))).
  now rewrite set_navigation_selector_items.
Qed.

(** A rebuild that returns leaves a rectangular catalog listed by the
    selector. *)
Lemma rebuild_catalog_lists_catalog mask data s s' :
  rebuild_catalog mask data s = (Returned tt, s') ->
  selector_lists_catalog s' ∧ catalog_rectangular s'.
Proof.
  unfold rebuild_catalog. intros Hrun.
  apply bind_returned_inv in Hrun as ([] & s0 & Hnew & Hrun). injection Hnew as <-.
  apply bind_returned_inv in Hrun as ([] & s1 & Hcols & Hrun).
  apply bind_returned_inv in Hrun as ([] & s2 & Hnav & Hrun).
  apply bind_returned_inv in Hrun as ([] & s3 & Hjump & Hrun).
  apply bind_returned_inv in Hrun as (row & s4 & Hrow & Hload).
  apply catalog_getitem_returned_inv in Hrow as [-> _].
  assert (Hrect1 : catalog_rectangular s1).
  { pose proof (unpack_columns_rectangular mask (components data)
                  (set_catalog (Some {| meta := data_meta data; columns := [] |}) s)) as Hm.
    rewrite Hcols in Hm. apply Hm. intros t [= <-]. constructor. }
  apply update_navigation_returned_inv in Hnav as (t & ids & Hcat & Hids & ->).
  set (s2 := set_toolbar _ s1) in Hjump.
  assert (Hcat' : catalog s' = Some t).
  { pose proof (load_selection_catalog row s3) as H1. rewrite Hload in H1. simpl in H1.
    pose proof (set_navigation_catalog 0 s2) as H2.
    rewrite Hjump in H2. simpl in H2. now rewrite H1, H2. }
  assert (Hitems : selector_items s' = ids).
  { pose proof (load_selection_selector_items row s3) as H1. rewrite Hload in H1. simpl in H1.
    pose proof (set_navigation_selector_items 0 s2) as H2.
    rewrite Hjump in H2. simpl in H2. now rewrite H1, H2. }
  split.
  - unfold selector_lists_catalog, source_select_count.
    change (source_select_items (toolbar s')) with (selector_items s').
    rewrite Hcat', Hitems. f_equal.
    unfold table_column in Hids.
    destruct (assoc_lookup "id" (columns t)) as [c|] eqn:Hc; [|discriminate].
    injection Hids as ->. apply assoc_lookup_elem_of in Hc.
    specialize (Hrect1 t Hcat). unfold rectangular in Hrect1.
    rewrite Forall_forall in Hrect1. exact (Hrect1 _ Hc).
  - intros t' Ht'. rewrite Hcat' in Ht'. injection Ht' as <-. now apply Hrect1.
Qed.

(** Along events whose handlers return, the selector lists the catalog. *)
Lemma handle_lists_catalog ev s :
  selector_lists_catalog s ->
  fst (handle ev s) = Returned tt ->
  selector_lists_catalog (snd (handle ev s)).
Proof.
  intros Hs. destruct ev as [d|sub|index|]; simpl.
  - unfold add_data, _unpack_selection. intros Hret.
    destruct (rebuild_catalog None d s) as [[[]|e] s1] eqn:Hrun.
    + rewrite (bind_returned _ _ s true s1)
        by (now rewrite (bind_returned _ _ s tt s1)).
      simpl. now apply (rebuild_catalog_lists_catalog None d s).
    + rewrite (bind_raised _ _ s e s1) in Hret by (now rewrite (bind_raised _ _ s e s1)).
      discriminate.
  - unfold add_subset, _unpack_selection. intros Hret.
    destruct (to_mask sub) as [mask|]; [destruct (np_any mask)|]; try exact Hs.
    destruct (rebuild_catalog (Some mask) (subset_data sub) s) as [[[]|e] s1] eqn:Hrun.
    + rewrite (bind_returned _ _ s true s1)
        by (now rewrite (bind_returned _ _ s tt s1)).
      simpl. now apply (rebuild_catalog_lists_catalog (Some mask) (subset_data sub) s).
    + rewrite (bind_raised _ _ s e s1) in Hret by (now rewrite (bind_raised _ _ s e s1)).
      discriminate.
  - intros _. now apply set_navigation_lists_catalog.
  - intros _. exact Hs.
Qed.

End SelectorInvariant.

(** ** Every catalog the viewer builds is rectangular *)

Section CatalogInvariant.
Context `{Host}.

Lemma catalog_rectangular_of_preserves {A : Type} (m : Action A) :
  preserves catalog m -> maintains catalog_rectangular m.
Proof.
  intros Hm. exact (maintains_of_preserves catalog (fun c => ∀ t, c = Some t -> rectangular t) m Hm).
Qed.

Lemma rebuild_catalog_rectangular mask data :
  maintains catalog_rectangular (rebuild_catalog mask data).
Proof.
  intros s _. unfold rebuild_catalog.
  rewrite (bind_returned _ _ s tt
             (set_catalog (Some {| meta := data_meta data; columns := [] |}) s))
    by reflexivity.
  match goal with
  | |- catalog_rectangular (snd (?m ?s0)) =>
      assert (Hm : maintains catalog_rectangular m); [|apply Hm]
  end.
  - apply maintains_bind; [apply unpack_columns_rectangular|]. intros _.
    apply catalog_rectangular_of_preserves. frame.
  - intros t [= <-]. constructor.
Qed.

Lemma handle_rectangular ev : maintains catalog_rectangular (handle ev).
Proof.
  destruct ev as [d|sub|index|]; simpl; unfold add_data, add_subset.
  - do 2 (apply maintains_bind; [|intros ? s Hs; exact Hs]).
    apply rebuild_catalog_rectangular.
  - do 2 (apply maintains_bind; [|intros ? s Hs; exact Hs]).
    unfold _unpack_selection.
    destruct (to_mask sub) as [mask|]; [destruct (np_any mask)|];
      first [apply rebuild_catalog_rectangular | intros s Hs; exact Hs].
  - apply catalog_rectangular_of_preserves, set_navigation_catalog.
  - apply catalog_rectangular_of_preserves. unfold closeEvent. frame.
Qed.

Lemma reachable_rectangular s : reachable s -> catalog_rectangular s.
Proof.
  intros (dc & fresh & evs & ->).
  assert (Hinit : catalog_rectangular (new_viewer dc fresh)) by (intros t [=]).
  revert Hinit. generalize (new_viewer dc fresh).
  induction evs as [|ev evs IH]; intros s Hs; simpl; [exact Hs|].
  apply IH. now apply handle_rectangular.
Qed.

End CatalogInvariant.

(** ** The catalog the unpacker builds *)

Lemma assoc_lookup_None {A : Type} name (l : list (string * A)) :
  assoc_lookup name l = None ↔ name ∉ l.*1.
Proof.
  induction l as [|[n a] l IH]; simpl.
  - split; [intros _; apply not_elem_of_nil|reflexivity].
  - rewrite not_elem_of_cons. destruct (String.eqb_spec n name) as [->|Hne].
    + split; [discriminate|intros [Hbad _]; congruence].
    + rewrite IH. split; [intros Hl; split; [congruence|exact Hl]|tauto].
Qed.

Lemma table_setitem_new name values t t' :
  assoc_lookup name (columns t) = None ->
  table_setitem name values t = Returned t' ->
  t' = {| meta := meta t; columns := columns t ++ [(name, values)] |}.
Proof.
  unfold table_setitem. intros Hnew.
  destruct (columns t) as [|col cols] eqn:Hcols; [now intros [= <-]|].
  destruct (length values =? table_len t); [|discriminate].
  rewrite Hnew. now intros [= <-].
Qed.

Lemma catalog_setitem_returned_inv name values s s' :
  catalog_setitem name values s = (Returned tt, s') ->
  ∃ t t', catalog s = Some t ∧ table_setitem name values t = Returned t' ∧
          s' = set_catalog (Some t') s.
Proof.
  rewrite catalog_setitem_run. destruct (catalog s) as [t|]; [|discriminate].
  destruct (table_setitem name values t) as [t'|] eqn:Hset; [|discriminate].
  intros [= <-]. now exists t, t'.
Qed.

Lemma unpack_columns_cons_inv mask att component comps s s' :
  unpack_columns mask ((att, component) :: comps) s = (Returned tt, s') ->
  ∃ values t t',
    unpack_component mask att component = Returned values ∧
    catalog s = Some t ∧
    table_setitem att values t = Returned t' ∧
    unpack_columns mask comps (set_catalog (Some t') s) = (Returned tt, s').
Proof.
  simpl. intros Hrun.
  apply bind_returned_inv in Hrun as (values & s1 & Hvalues & Hrun).
  apply lift_returned_inv in Hvalues as [Hvalues ->].
  apply bind_returned_inv in Hrun as ([] & s1 & Hset & Hrun).
  apply catalog_setitem_returned_inv in Hset as (t & t' & Hcat & Hset & ->).
  now exists values, t, t'.
Qed.

(** The columns loop, run on a table that has none of the names still to
    come, appends one column per component, in order. *)
Lemma unpack_columns_appends mask comps : ∀ s s' t,
  NoDup comps.*1 ->
  (∀ name, name ∈ comps.*1 -> name ∉ (columns t).*1) ->
  catalog s = Some t ->
  unpack_columns mask comps s = (Returned tt, s') ->
  ∃ cols,
    catalog s' = Some {| meta := meta t; columns := columns t ++ cols |} ∧
    Forall2 (fun comp col =>
               col.1 = comp.1 ∧ unpack_component mask comp.1 comp.2 = Returned col.2)
      comps cols.
Proof.
  induction comps as [|[att component] comps IH]; intros s s' t Hnd Hnew Hcat Hrun.
  - injection Hrun as <-. exists []. rewrite app_nil_r. split; [|constructor].
    rewrite Hcat. now destruct t.
  - apply unpack_columns_cons_inv in Hrun as (values & t0 & t' & Hvalues & Hcat0 & Hset & Hrun).
    rewrite Hcat in Hcat0. injection Hcat0 as <-.
    simpl in Hnd. apply NoDup_cons in Hnd as [Hatt Hnd].
    assert (Hfresh : assoc_lookup att (columns t) = None).
    { apply assoc_lookup_None, Hnew. simpl. left. }
    apply (table_setitem_new att values t t' Hfresh) in Hset. subst t'.
    specialize (IH (set_catalog
                      (Some {| meta := meta t; columns := columns t ++ [(att, values)] |}) s)
                   s' {| meta := meta t; columns := columns t ++ [(att, values)] |} Hnd).
    destruct IH as (cols & Hcat' & Hall).
    + intros name Hname. simpl. rewrite fmap_app, elem_of_app. simpl.
      intros [Hin|Hin].
      * apply (Hnew name); [simpl; now right|exact Hin].
      * apply list_elem_of_singleton in Hin. simpl in Hin. subst name. contradiction.
    + reflexivity.
    + exact Hrun.
    + exists ((att, values) :: cols). split.
      * rewrite Hcat'. simpl. now rewrite <- app_assoc.
      * constructor; [now split|exact Hall].
Qed.

(** The steps of a rebuild that returns. *)
Lemma rebuild_catalog_returned_inv `{Host} mask data s s' :
  rebuild_catalog mask data s = (Returned tt, s') ->
  ∃ s1 t ids s3 row,
    unpack_columns mask (components data)
      (set_catalog (Some {| meta := data_meta data; columns := [] |}) s)
    = (Returned tt, s1) ∧
    catalog s1 = Some t ∧
    table_column "id" t = Returned ids ∧
    _set_navigation 0
      (set_toolbar (source_select_addItems ids (source_select_clear (toolbar s1))) s1)
    = (Returned tt, s3) ∧
    catalog s3 = Some t ∧
    table_getitem 0 t = Returned row ∧
    load_selection row s3 = (Returned tt, s').
Proof.
  unfold rebuild_catalog. intros Hrun.
  apply bind_returned_inv in Hrun as ([] & s0 & Hnew & Hrun). injection Hnew as <-.
  apply bind_returned_inv in Hrun as ([] & s1 & Hcols & Hrun).
  apply bind_returned_inv in Hrun as ([] & s2 & Hnav & Hrun).
  apply bind_returned_inv in Hrun as ([] & s3 & Hjump & Hrun).
  apply bind_returned_inv in Hrun as (row & s4 & Hrow & Hload).
  apply catalog_getitem_returned_inv in Hrow as [-> (t3 & Hcat3 & Hrow)].
  apply update_navigation_returned_inv in Hnav as (t & ids & Hcat & Hids & ->).
  exists s1, t, ids, s3, row.
  assert (Ht3 : catalog s3 = Some t).
  { pose proof (set_navigation_catalog 0
      (set_toolbar (source_select_addItems ids (source_select_clear (toolbar s1))) s1)) as Hc.
    rewrite Hjump in Hc. simpl in Hc. now rewrite Hc. }
  rewrite Ht3 in Hcat3. injection Hcat3 as <-.
  now repeat split.
Qed.

(** X1.  When a rebuild of the catalog returns, from data whose components
    have distinct names, the catalog carries the data's metadata and has one
    column per component, in the order of the components, under the
    component's name; the column holds what the loop body computes for that
    component. *)
Theorem rebuild_catalog_columns `{Host} (mask : option (list bool)) (data : Data)
    (s s' : Viewer) :
  NoDup (components data).*1 ->
  rebuild_catalog mask data s = (Returned tt, s') ->
  ∃ cols,
    catalog s' = Some {| meta := data_meta data; columns := cols |} ∧
    Forall2 (fun comp col =>
               col.1 = comp.1 ∧ unpack_component mask comp.1 comp.2 = Returned col.2)
      (components data) cols.
Proof.
  intros Hnd Hrun.
  pose proof (rebuild_catalog_catalog mask data s) as Hcat. rewrite Hrun in Hcat. simpl in Hcat.
  apply rebuild_catalog_returned_inv in Hrun
    as (s1 & t & ids & s3 & row & Hcols & _).
  rewrite Hcols in Hcat. simpl in Hcat. rewrite Hcat.
  destruct (unpack_columns_appends mask (components data)
              (set_catalog (Some {| meta := data_meta data; columns := [] |}) s) s1
              {| meta := data_meta data; columns := [] |} Hnd)
    as (cols & Hcat1 & Hall).
  - intros name _. apply not_elem_of_nil.
  - reflexivity.
  - exact Hcols.
  - exists cols. split; [exact Hcat1|exact Hall].
Qed.

Lemma rebuild_catalog_columns_witness :
  NoDup (components example_data).*1 ∧
  @rebuild_catalog example_host None example_data (new_viewer [7] 10)
  = (Returned tt, snd (@rebuild_catalog example_host None example_data (new_viewer [7] 10))) ∧
  ∃ cols,
    catalog (snd (@rebuild_catalog example_host None example_data (new_viewer [7] 10)))
    = Some {| meta := data_meta example_data; columns := cols |} ∧
    length cols = 6.
Proof.
  assert (Hnd : NoDup (components example_data).*1)
    by (apply (bool_decide_unpack _); vm_compute; exact I).
  assert (Hrun : @rebuild_catalog example_host None example_data (new_viewer [7] 10)
                 = (Returned tt,
                    snd (@rebuild_catalog example_host None example_data (new_viewer [7] 10))))
    by (vm_compute; reflexivity).
  split; [exact Hnd|]. split; [exact Hrun|].
  destruct (@rebuild_catalog_columns example_host None example_data _ _ Hnd Hrun)
    as (cols & Hcat & Hall).
  exists cols. split; [exact Hcat|].
  apply Forall2_length in Hall. rewrite <- Hall. reflexivity.
Defined.

Lemma select_by_mask_length {A : Type} (mask : list bool) : ∀ xs : list A,
  length mask = length xs -> length (select_by_mask mask xs) = count_true mask.
Proof.
  unfold count_true. induction mask as [|b mask IH]; intros [|x xs] Hlen; simpl in *;
    try reflexivity; try discriminate.
  injection Hlen as Hlen. destruct b; simpl; now rewrite IH.
Qed.

Lemma index_by_mask_length {A : Type} mask (xs ys : list A) :
  index_by_mask mask xs = Returned ys -> length ys = selected_rows mask (length xs).
Proof.
  unfold index_by_mask. destruct mask as [m|]; simpl.
  - destruct (Nat.eqb_spec (length m) (length xs)) as [Hlen|]; [|discriminate].
    intros [= <-]. now apply select_by_mask_length.
  - now intros [= <-].
Qed.

Lemma unpack_component_length mask att component values :
  unpack_component mask att component = Returned values ->
  length values = selected_rows mask (component_length component).
Proof.
  unfold unpack_component. destruct component as [labels log|data]; simpl.
  - destruct (index_by_mask mask labels) as [comp_labels|] eqn:Hsel; [|discriminate]. simpl.
    apply index_by_mask_length in Hsel.
    destruct (is_product_column att); [destruct log; [|discriminate]|];
      intros [= <-]; now rewrite length_map.
  - destruct (index_by_mask mask data) as [comp_data|] eqn:Hsel; [|discriminate]. simpl.
    apply index_by_mask_length in Hsel. intros [= <-]. now rewrite length_map.
Qed.

Lemma table_setitem_Forall (P : list Cell -> Prop) name values t t' :
  P values ->
  Forall (fun col => P col.2) (columns t) ->
  table_setitem name values t = Returned t' ->
  Forall (fun col => P col.2) (columns t').
Proof.
  unfold table_setitem. intros Hvalues Hall.
  destruct (columns t) as [|col cols] eqn:Hcols.
  - intros [= <-]. simpl. now repeat constructor.
  - destruct (length values =? table_len t); [|discriminate].
    destruct (assoc_lookup name (col :: cols)); intros [= <-]; cbn [columns].
    + now apply (assoc_replace_Forall (fun col => P col.2) name values (col :: cols)).
    + apply (Forall_app _ (col :: cols)). split; [exact Hall|]. now repeat constructor.
Qed.

(** Every column the columns loop leaves in the catalog has the length the
    mask selects from some component of the data. *)
Lemma unpack_columns_lengths mask (all : list (string * Component)) comps : ∀ s s' t,
  (∀ x, x ∈ comps -> x ∈ all) ->
  catalog s = Some t ->
  Forall (fun col => ∃ x, x ∈ all ∧ length col.2 = selected_rows mask (component_length x.2))
    (columns t) ->
  unpack_columns mask comps s = (Returned tt, s') ->
  ∃ t',
    catalog s' = Some t' ∧
    Forall (fun col => ∃ x, x ∈ all ∧ length col.2 = selected_rows mask (component_length x.2))
      (columns t').
Proof.
  induction comps as [|[att component] comps IH]; intros s s' t Hsub Hcat Hall Hrun.
  - injection Hrun as <-. now exists t.
  - apply unpack_columns_cons_inv in Hrun as (values & t0 & t' & Hvalues & Hcat0 & Hset & Hrun).
    rewrite Hcat in Hcat0. injection Hcat0 as <-.
    apply (IH (set_catalog (Some t') s) s' t'); [| reflexivity | | exact Hrun].
    + intros x Hx. apply Hsub. now right.
    + apply (table_setitem_Forall
               (fun c => ∃ x, x ∈ all ∧ length c = selected_rows mask (component_length x.2))
               att values t t'); [|exact Hall|exact Hset].
      exists (att, component). split; [apply Hsub; left|].
      exact (unpack_component_length mask att component values Hvalues).
Qed.

Lemma table_getitem_returned_len index t row :
  table_getitem index t = Returned row ->
  (- Z.of_nat (table_len t) ≤ index < Z.of_nat (table_len t))%Z.
Proof.
  unfold table_getitem.
  destruct (_ && _) eqn:Hrange; [|discriminate]. intros _.
  apply andb_true_iff in Hrange as [H1 H2]. apply Z.leb_le in H1. apply Z.ltb_lt in H2. lia.
Qed.

(** X2.  When a rebuild of the catalog returns, the catalog has at least
    one row, the selector has one entry per row, and the number of rows is
    what the mask selects from a component of the data: the number of marked
    entries under a mask, the component's length without one. *)
Theorem rebuild_catalog_rows `{Host} (mask : option (list bool)) (data : Data)
    (s s' : Viewer) :
  rebuild_catalog mask data s = (Returned tt, s') ->
  ∃ t att component,
    catalog s' = Some t ∧
    rectangular t ∧
    (att, component) ∈ components data ∧
    table_len t = selected_rows mask (component_length component) ∧
    1 ≤ table_len t ∧
    source_select_count (toolbar s') = Z.of_nat (table_len t).
Proof.
  intros Hrun.
  destruct (rebuild_catalog_lists_catalog mask data s s' Hrun) as [Hlists Hrect].
  pose proof (load_selection_catalog) as Hload.
  apply rebuild_catalog_returned_inv in Hrun
    as (s1 & t & ids & s3 & row & Hcols & Hcat1 & Hids & Hjump & Hcat3 & Hrow & Hrun).
  assert (Hcat' : catalog s' = Some t).
  { specialize (Hload row s3). rewrite Hrun in Hload. simpl in Hload. now rewrite Hload. }
  destruct (unpack_columns_lengths mask (components data) (components data)
              (set_catalog (Some {| meta := data_meta data; columns := [] |}) s) s1
              {| meta := data_meta data; columns := [] |})
    as (t1 & Hcat1' & Hall); [auto|reflexivity|constructor|exact Hcols|].
  rewrite Hcat1 in Hcat1'. injection Hcat1' as <-.
  apply table_getitem_returned_len in Hrow.
  assert (Hlen : 1 ≤ table_len t) by lia.
  unfold table_len in Hlen |- *.
  destruct (columns t) as [|[n0 c0] cols] eqn:Hcolumns; [simpl in Hlen; lia|].
  apply Forall_cons in Hall as [([att component] & Hin & Hc0) _]. simpl in Hc0.
  exists t, att, component.
  split; [exact Hcat'|]. split; [now apply Hrect|]. split; [exact Hin|].
  split; [now rewrite Hcolumns|]. split; [now rewrite Hcolumns|].
  unfold selector_lists_catalog in Hlists. rewrite Hcat' in Hlists.
  rewrite Hlists. unfold table_len. now rewrite Hcolumns.
Qed.

Lemma rebuild_catalog_rows_witness :
  @rebuild_catalog example_host (Some [true; false; false]) example_data (new_viewer [7] 10)
  = (Returned tt,
     snd (@rebuild_catalog example_host (Some [true; false; false]) example_data
            (new_viewer [7] 10))) ∧
  source_select_count
    (toolbar (snd (@rebuild_catalog example_host (Some [true; false; false]) example_data
                     (new_viewer [7] 10)))) = 1%Z.
Proof.
  assert (Hrun :
    @rebuild_catalog example_host (Some [true; false; false]) example_data (new_viewer [7] 10)
    = (Returned tt,
       snd (@rebuild_catalog example_host (Some [true; false; false]) example_data
              (new_viewer [7] 10)))) by (vm_compute; reflexivity).
  split; [exact Hrun|].
  destruct (@rebuild_catalog_rows example_host _ _ _ _ Hrun)
    as (t & att & component & _ & _ & _ & Hlen & _ & Hcount).
  rewrite Hcount, Hlen. reflexivity.
Defined.

(** ** A mask that selects everything *)

Lemma select_by_mask_all_true {A : Type} (mask : list bool) : ∀ xs : list A,
  (∀ b, b ∈ mask -> b = true) -> length mask = length xs -> select_by_mask mask xs = xs.
Proof.
  induction mask as [|b mask IH]; intros [|x xs] Hall Hlen; simpl in *;
    try reflexivity; try discriminate.
  injection Hlen as Hlen. rewrite (Hall b) by left. f_equal. apply IH; [|exact Hlen].
  intros b' Hb'. apply Hall. now right.
Qed.

Lemma index_by_mask_all_true {A : Type} (mask : list bool) (xs : list A) :
  (∀ b, b ∈ mask -> b = true) -> length xs = length mask ->
  index_by_mask (Some mask) xs = index_by_mask None xs.
Proof.
  intros Hall Hlen. unfold index_by_mask. rewrite Hlen, Nat.eqb_refl.
  now rewrite select_by_mask_all_true.
Qed.

Lemma unpack_component_all_true (mask : list bool) att component :
  (∀ b, b ∈ mask -> b = true) -> component_length component = length mask ->
  unpack_component (Some mask) att component = unpack_component None att component.
Proof.
  intros Hall Hlen. destruct component as [labels log|data];
    unfold unpack_component, component_length in *.
  - now rewrite (index_by_mask_all_true mask labels Hall Hlen).
  - now rewrite (index_by_mask_all_true mask data Hall Hlen).
Qed.

Lemma unpack_columns_ext mask1 mask2 comps :
  (∀ x, x ∈ comps -> unpack_component mask1 x.1 x.2 = unpack_component mask2 x.1 x.2) ->
  ∀ s, unpack_columns mask1 comps s = unpack_columns mask2 comps s.
Proof.
  induction comps as [|[att component] comps IH]; intros Hext s; [reflexivity|].
  pose proof (Hext (att, component) ltac:(left)) as Hhead. simpl in Hhead.
  simpl. rewrite Hhead.
  unfold mbind, Action_bind.
  destruct (lift (unpack_component mask2 att component) s) as [[values|e] s1]; [|reflexivity].
  destruct (catalog_setitem att values s1) as [[[]|e] s2]; [|reflexivity].
  apply IH. intros x Hx. apply Hext. now right.
Qed.

Lemma rebuild_catalog_ext `{Host} mask1 mask2 data s :
  (∀ x, x ∈ components data ->
        unpack_component mask1 x.1 x.2 = unpack_component mask2 x.1 x.2) ->
  rebuild_catalog mask1 data s = rebuild_catalog mask2 data s.
Proof.
  intros Hext. unfold rebuild_catalog, mbind, Action_bind.
  destruct (modify _ s) as [[[]|e] s0]; [|reflexivity].
  now rewrite (unpack_columns_ext mask1 mask2 (components data) Hext s0).
Qed.

(** X3.  A subset whose mask marks every row of its data, and at least
    one, unpacks exactly as the data itself: same outcome, same viewer. *)
Theorem unpack_selection_full_subset `{Host} (sub : Subset) (mask : list bool) (s : Viewer) :
  to_mask sub = Some mask ->
  mask ≠ [] ->
  (∀ b, b ∈ mask -> b = true) ->
  (∀ x, x ∈ components (subset_data sub) -> component_length x.2 = length mask) ->
  _unpack_selection (OfSubset sub) s = _unpack_selection (OfData (subset_data sub)) s.
Proof.
  intros Hmask Hne Hall Hlen. unfold _unpack_selection.
  rewrite Hmask, (np_any_all_true mask Hne Hall).
  apply rebuild_catalog_ext. intros x Hx.
  apply unpack_component_all_true; [exact Hall|now apply Hlen].
Qed.

Lemma unpack_selection_full_subset_witness :
  to_mask (example_subset (Some [true; true; true])) = Some [true; true; true] ∧
  [true; true; true] ≠ [] ∧
  (∀ b, b ∈ [true; true; true] -> b = true) ∧
  (∀ x, x ∈ components (subset_data (example_subset (Some [true; true; true]))) ->
        component_length x.2 = length [true; true; true]) ∧
  @_unpack_selection example_host (OfSubset (example_subset (Some [true; true; true])))
    (new_viewer [7] 10)
  = @_unpack_selection example_host (OfData example_data) (new_viewer [7] 10).
Proof.
  assert (Hall : ∀ b, b ∈ [true; true; true] -> b = true).
  { intros b Hb. repeat (apply elem_of_cons in Hb as [->|Hb]; [reflexivity|]).
    now apply elem_of_nil in Hb. }
  assert (Hlen : ∀ x, x ∈ components (subset_data (example_subset (Some [true; true; true]))) ->
                      component_length x.2 = length [true; true; true]).
  { intros x Hx. simpl in Hx. unfold example_components in Hx.
    repeat (apply elem_of_cons in Hx as [->|Hx]; [reflexivity|]).
    now apply elem_of_nil in Hx. }
  split; [reflexivity|]. split; [discriminate|]. split; [exact Hall|]. split; [exact Hlen|].
  exact (@unpack_selection_full_subset example_host
           (example_subset (Some [true; true; true])) [true; true; true] (new_viewer [7] 10)
           eq_refl ltac:(discriminate) Hall Hlen).
Defined.

(** ** Data without an [id] component *)

Lemma assoc_replace_names {A : Type} name (a : A) (l : list (string * A)) :
  (assoc_replace name a l).*1 = l.*1.
Proof.
  induction l as [|[n b] l IH]; simpl; [reflexivity|].
  destruct (String.eqb n name); simpl; [reflexivity|f_equal; exact IH].
Qed.

Lemma table_setitem_shape name values t t' :
  table_setitem name values t = Returned t' ->
  meta t' = meta t ∧
  ∀ n, n ∈ (columns t').*1 -> n ∈ (columns t).*1 ∨ n = name.
Proof.
  unfold table_setitem. destruct (columns t) as [|col cols] eqn:Hcols.
  - intros [= <-]. split; [reflexivity|]. simpl. intros n Hn.
    apply list_elem_of_singleton in Hn. now right.
  - destruct (length values =? table_len t); [|discriminate].
    destruct (assoc_lookup name (col :: cols)); intros [= <-]; cbn [meta columns];
      (split; [reflexivity|]); intros n Hn.
    + change (n ∈ (assoc_replace name values (col :: cols)).*1) in Hn.
      rewrite assoc_replace_names in Hn. now left.
    + change (n ∈ ((col :: cols) ++ [(name, values)]).*1) in Hn.
      rewrite fmap_app in Hn. apply elem_of_app in Hn as [Hn|Hn].
      * now left.
      * right. now apply list_elem_of_singleton in Hn.
Qed.

(** Whatever its outcome, the columns loop leaves a catalog with the
    metadata it found and with no column name of its own invention. *)
Lemma unpack_columns_shape mask comps : ∀ s t,
  catalog s = Some t ->
  ∃ t',
    catalog (snd (unpack_columns mask comps s)) = Some t' ∧
    meta t' = meta t ∧
    ∀ n, n ∈ (columns t').*1 -> n ∈ (columns t).*1 ∨ n ∈ comps.*1.
Proof.
  induction comps as [|[att component] comps IH]; intros s t Hcat.
  - exists t. simpl. split; [exact Hcat|]. split; [reflexivity|]. intros n Hn. now left.
  - simpl. destruct (unpack_component mask att component) as [values|e].
    2: { rewrite (bind_raised _ _ s e s) by reflexivity. exists t. simpl.
         split; [exact Hcat|]. split; [reflexivity|]. intros n Hn. now left. }
    rewrite (bind_returned _ _ s values s) by reflexivity.
    pose proof (catalog_setitem_run att values s) as Hset. rewrite Hcat in Hset.
    destruct (table_setitem att values t) as [t1|e] eqn:Ht1.
    2: { rewrite (bind_raised _ _ _ _ _ Hset). exists t. simpl.
         split; [exact Hcat|]. split; [reflexivity|]. intros n Hn. now left. }
    rewrite (bind_returned _ _ _ _ _ Hset).
    destruct (table_setitem_shape att values t t1 Ht1) as [Hmeta Hnames].
    destruct (IH (set_catalog (Some t1) s) t1 eq_refl) as (t' & Hcat' & Hmeta' & Hnames').
    exists t'. split; [exact Hcat'|]. split; [congruence|].
    intros n Hn. destruct (Hnames' n Hn) as [Hn1|Hn1].
    + destruct (Hnames n Hn1) as [Hn2| ->]; [now left|right; left].
    + right. now right.
Qed.

Lemma unpack_columns_frame {X : Type} (f : Viewer -> X) mask comps :
  (∀ c s, f (set_catalog c s) = f s) -> preserves f (unpack_columns mask comps).
Proof.
  intros Hf. induction comps as [|[att component] comps IH]; simpl; unfold catalog_setitem.
  - frame.
  - repeat first
      [ exact IH
      | apply preserves_lift | apply preserves_get | apply preserves_raise
      | apply preserves_modify; intros ?; apply Hf
      | apply preserves_bind; [|intros ?]
      | match goal with |- preserves _ (match ?x with _ => _ end) => destruct x end ].
Qed.

(** The columns loop changes the catalog and nothing else. *)
Lemma unpack_columns_sets_catalog mask comps : ∀ s,
  snd (unpack_columns mask comps s)
  = set_catalog (catalog (snd (unpack_columns mask comps s))) s.
Proof.
  induction comps as [|[att component] comps IH]; intros s; simpl.
  - now destruct s.
  - destruct (unpack_component mask att component) as [values|e].
    2: { rewrite (bind_raised _ _ s e s) by reflexivity. now destruct s. }
    rewrite (bind_returned _ _ s values s) by reflexivity.
    pose proof (catalog_setitem_run att values s) as Hset.
    destruct (catalog s) as [t|] eqn:Hcat.
    2: { rewrite (bind_raised _ _ _ _ _ Hset). now destruct s. }
    destruct (table_setitem att values t) as [t1|e].
    2: { rewrite (bind_raised _ _ _ _ _ Hset). now destruct s. }
    rewrite (bind_returned _ _ _ _ _ Hset).
    exact (IH (set_catalog (Some t1) s)).
Qed.

(** Clearing an empty selector changes nothing. *)
Lemma source_select_clear_empty tb :
  source_select_items tb = [] -> source_select_currentIndex tb = (-1)%Z ->
  source_select_clear tb = tb.
Proof. destruct tb. simpl. now intros -> ->. Qed.

(** X4.  In a viewer whose selector is empty, as it is in a new viewer,
    data without an [id] component cannot be shown.  The rebuild raises, and
    the one change it leaves in the viewer is the catalog, already replaced
    by one that carries the new metadata: the selector, the buttons, the
    plots, the metadata form, the current row, the cache and the data
    collection are as before.  When the columns loop itself went through,
    the exception is the [KeyError] of the selector refresh. *)
Theorem rebuild_catalog_without_id `{Host} (mask : option (list bool)) (data : Data)
    (s : Viewer) :
  source_select_items (toolbar s) = [] ->
  source_select_currentIndex (toolbar s) = (-1)%Z ->
  "id" ∉ (components data).*1 ->
  ∃ e t,
    rebuild_catalog mask data s = (Raised e, set_catalog (Some t) s) ∧
    meta t = data_meta data ∧
    (fst (unpack_columns mask (components data)
            (set_catalog (Some {| meta := data_meta data; columns := [] |}) s))
     = Returned tt ->
     e = KeyError).
Proof.
  intros Hitems Hindex Hid. unfold rebuild_catalog.
  set (s0 := set_catalog (Some {| meta := data_meta data; columns := [] |}) s).
  rewrite (bind_returned _ _ s tt s0) by reflexivity.
  destruct (unpack_columns_shape mask (components data) s0
              {| meta := data_meta data; columns := [] |} eq_refl)
    as (t & Hcat & Hmeta & Hnames).
  pose proof (unpack_columns_sets_catalog mask (components data) s0) as Hs1.
  rewrite Hcat in Hs1. change (set_catalog (Some t) s0) with (set_catalog (Some t) s) in Hs1.
  destruct (unpack_columns mask (components data) s0) as [[[]|e] s1] eqn:Hcols; simpl in *;
    subst s1.
  - assert (Hnoid : table_column "id" t = Raised KeyError).
    { unfold table_column.
      destruct (assoc_lookup "id" (columns t)) as [c|] eqn:Hc; [|reflexivity].
      apply assoc_lookup_elem_of in Hc.
      assert (Hin : "id" ∈ (columns t).*1) by (apply list_elem_of_fmap; now exists ("id", c)).
      destruct (Hnames _ Hin) as [Hbad|Hbad]; [now apply elem_of_nil in Hbad|contradiction]. }
    exists KeyError, t. split; [|split; [exact Hmeta|reflexivity]].
    rewrite (bind_returned _ _ s0 tt _ Hcols). apply bind_raised.
    unfold _update_navigation, modify_toolbar.
    set (s1 := set_catalog (Some t) s).
    assert (Hclear : modify (fun s => set_toolbar (source_select_clear (toolbar s)) s) s1
                     = (Returned tt, s1)).
    { unfold modify. f_equal. subst s1. simpl.
      rewrite (source_select_clear_empty (toolbar s) Hitems Hindex). now destruct s. }
    rewrite (bind_returned _ _ s1 tt s1 Hclear).
    rewrite (bind_returned _ _ s1 s1 s1) by reflexivity. apply bind_raised.
    simpl. unfold lift. now rewrite Hnoid.
  - exists e, t. split; [now rewrite (bind_raised _ _ s0 e _ Hcols)|].
    split; [exact Hmeta|discriminate].
Qed.

Lemma rebuild_catalog_without_id_witness :
  source_select_items (toolbar (new_viewer [7] 10)) = [] ∧
  source_select_currentIndex (toolbar (new_viewer [7] 10)) = (-1)%Z ∧
  ("id" ∉ (components example_data_without_id).*1) ∧
  ∃ t,
    @rebuild_catalog example_host None example_data_without_id (new_viewer [7] 10)
    = (Raised KeyError, set_catalog (Some t) (new_viewer [7] 10)).
Proof.
  assert (Hid : "id" ∉ (components example_data_without_id).*1)
    by (apply (bool_decide_unpack _); vm_compute; exact I).
  split; [reflexivity|]. split; [reflexivity|]. split; [exact Hid|].
  destruct (@rebuild_catalog_without_id example_host None example_data_without_id
              (new_viewer [7] 10) eq_refl eq_refl Hid)
    as (e & t & Hrun & _ & Hkey).
  exists t. rewrite Hrun. f_equal. f_equal. apply Hkey. vm_compute. reflexivity.
Defined.

(** ** Navigation from the toolbar *)

Section ToolbarNavigation.
Context `{Host}.

(** The toolbar after a jump that returned. *)
Lemma set_navigation_toolbar index s s' :
  _set_navigation index s = (Returned tt, s') ->
  toolbar s' =
  let tb := if ((0 <=? index) && (index <? source_select_count (toolbar s)))%Z
            then source_select_setCurrentIndex index (toolbar s)
            else toolbar s in
  cycle_next_setDisabled (index >=? source_select_count tb - 1)%Z
    (cycle_previous_setDisabled (index <=? 0)%Z tb).
Proof.
  intros Hrun. apply set_navigation_returned_inv in Hrun as (s2 & -> & Htb).
  unfold boundary_buttons. simpl. now rewrite Htb.
Qed.

(** After a jump in range that returned, the selector points at the index
    and the buttons follow the boundary policy. *)
Lemma set_navigation_in_range_consistent index s s' :
  (0 ≤ index < source_select_count (toolbar s))%Z ->
  _set_navigation index s = (Returned tt, s') ->
  source_select_items (toolbar s') = source_select_items (toolbar s) ∧
  source_select_currentIndex (toolbar s') = index ∧
  selector_in_range s' ∧
  buttons_match_index s'.
Proof.
  intros Hrange Hrun. apply set_navigation_toolbar in Hrun.
  apply in_range_decide in Hrange as Hb. rewrite Hb in Hrun. cbv zeta in Hrun.
  unfold selector_in_range, buttons_match_index, source_select_count in *.
  rewrite Hrun. simpl.
  split; [reflexivity|]. split; [reflexivity|]. split.
  - destruct (decide _) as [Hzero|_]; lia.
  - rewrite Z.leb_le, Z.geb_leb, Z.leb_le. lia.
Qed.

End ToolbarNavigation.

(** A rebuild that returns leaves the navigation consistent, at entry 0. *)
Lemma rebuild_catalog_navigation `{Host} mask data s s' :
  rebuild_catalog mask data s = (Returned tt, s') ->
  navigation_consistent s' ∧
  source_select_currentIndex (toolbar s') = 0%Z ∧
  cycle_previous_disabled (toolbar s') = true.
Proof.
  intros Hrun.
  destruct (rebuild_catalog_lists_catalog mask data s s' Hrun) as [Hlists Hrect].
  apply rebuild_catalog_returned_inv in Hrun
    as (s1 & t & ids & s3 & row & Hcols & Hcat1 & Hids & Hjump & Hcat3 & Hrow & Hload).
  set (s2 := set_toolbar (source_select_addItems ids (source_select_clear (toolbar s1))) s1)
    in Hjump.
  assert (Hcat' : catalog s' = Some t).
  { pose proof (load_selection_catalog row s3) as Hc. rewrite Hload in Hc. simpl in Hc.
    now rewrite Hc. }
  assert (Htb : toolbar s' = toolbar s3).
  { pose proof (load_selection_toolbar row s3) as Hc. now rewrite Hload in Hc. }
  assert (Hcount3 : source_select_count (toolbar s3) = source_select_count (toolbar s2)).
  { pose proof (set_navigation_selector_items 0 s2) as Hi. rewrite Hjump in Hi.
    unfold selector_items in Hi. simpl in Hi. unfold source_select_count. now rewrite Hi. }
  assert (Hlen : (0 ≤ 0 < source_select_count (toolbar s2))%Z).
  { apply table_getitem_returned_len in Hrow.
    unfold selector_lists_catalog in Hlists. rewrite Hcat', Htb, Hcount3 in Hlists. lia. }
  destruct (set_navigation_in_range_consistent 0 s2 s3 Hlen Hjump)
    as (_ & Hindex & Hin & Hbuttons).
  split; [|split].
  - unfold navigation_consistent.
    split; [rewrite Htb, Hcount3; lia|]. split; [exact Hlists|]. split; [exact Hrect|]. split.
    + unfold selector_in_range in *. now rewrite Htb.
    + unfold buttons_match_index in *. now rewrite Htb.
  - now rewrite Htb.
  - rewrite Htb. apply Hbuttons. exact Hindex.
Qed.

(** X5.  When a rebuild of the catalog returns, the viewer shows the first
    row: the selector lists the catalog and points at entry 0, previous is
    disabled, next is disabled exactly when there is one row only, the
    current row is row 0 of the catalog and the widgets show its three
    products, which are what the loaders resolved from the catalog return on
    the three paths of that row. *)
Theorem rebuild_catalog_shows_first_row `{Host} (mask : option (list bool)) (data : Data)
    (s s' : Viewer) :
  rebuild_catalog mask data s = (Returned tt, s') ->
  navigation_consistent s' ∧
  source_select_currentIndex (toolbar s') = 0%Z ∧
  cycle_previous_disabled (toolbar s') = true ∧
  (cycle_next_disabled (toolbar s') = true ↔ source_select_count (toolbar s') = 1%Z) ∧
  ∃ t row v1 v2 v3,
    catalog s' = Some t ∧
    table_getitem 0 t = Returned row ∧
    current_row s' = Some row ∧
    loaders_return s' row v1 v2 v3 ∧
    shows (widgets s') row v1 v2 v3.
Proof.
  intros Hrun.
  destruct (rebuild_catalog_navigation mask data s s' Hrun) as (Hnav & Hindex & Hprev).
  split; [exact Hnav|]. split; [exact Hindex|]. split; [exact Hprev|]. split.
  { destruct Hnav as (_ & _ & _ & _ & _ & Hnext). rewrite Hnext, Hindex. lia. }
  apply rebuild_catalog_returned_inv in Hrun
    as (s1 & t & ids & s3 & row & _ & _ & _ & _ & Hcat3 & Hrow & Hload).
  destruct (load_selection_returned_inv row s3 s' Hload)
    as (l1 & l2 & l3 & p1 & p2 & p3 & v1 & v2 & v3 & Hgl & Hp1 & Hp2 & Hp3
        & Hc1 & Hc2 & Hc3 & Hshows & Hcur).
  assert (Hcat' : catalog s' = catalog s3).
  { pose proof (load_selection_catalog row s3) as Hc. now rewrite Hload in Hc. }
  exists t, row, v1, v2, v3.
  split; [now rewrite Hcat'|]. split; [exact Hrow|]. split; [exact Hcur|].
  split; [|exact Hshows].
  exists l1, l2, l3, p1, p2, p3. split; [|now repeat split].
  rewrite <- Hgl. now apply get_loaders_catalog_only.
Qed.

Lemma rebuild_catalog_shows_first_row_witness :
  @rebuild_catalog example_host None example_data (new_viewer [7] 10)
  = (Returned tt, snd (@rebuild_catalog example_host None example_data (new_viewer [7] 10))) ∧
  cycle_previous_disabled
    (toolbar (snd (@rebuild_catalog example_host None example_data (new_viewer [7] 10))))
  = true.
Proof.
  assert (Hrun : @rebuild_catalog example_host None example_data (new_viewer [7] 10)
                 = (Returned tt,
                    snd (@rebuild_catalog example_host None example_data (new_viewer [7] 10))))
    by (vm_compute; reflexivity).
  split; [exact Hrun|].
  now destruct (@rebuild_catalog_shows_first_row example_host None example_data _ _ Hrun)
    as (_ & _ & Hprev & _).
Defined.

Section ToolbarActions.
Context `{Host}.

(** The steps of a jump in range that returned. *)
Lemma set_navigation_in_range_returned_inv index s s' :
  (0 ≤ index < source_select_count (toolbar s))%Z ->
  _set_navigation index s = (Returned tt, s') ->
  ∃ t row s2,
    catalog s = Some t ∧
    table_getitem index t = Returned row ∧
    load_selection row (set_toolbar (source_select_setCurrentIndex index (toolbar s)) s)
    = (Returned tt, s2) ∧
    s' = boundary_buttons index s2.
Proof.
  intros Hrange Hrun. apply in_range_decide in Hrange as Hb.
  unfold _set_navigation in Hrun.
  apply bind_returned_inv in Hrun as (s0 & s1 & Hget & Hrun). injection Hget as <- <-.
  rewrite Hb in Hrun.
  apply bind_returned_inv in Hrun as ([] & s2 & Hjump & Hbuttons).
  rewrite boundary_buttons_run in Hbuttons. injection Hbuttons as <-.
  apply bind_returned_inv in Hjump as ([] & s1 & Hmove & Hjump). injection Hmove as <-.
  apply bind_returned_inv in Hjump as (row & s3 & Hrow & Hload).
  apply catalog_getitem_returned_inv in Hrow as [-> (t & Hcat & Hrow)].
  exists t, row, s2. now repeat split.
Qed.

Lemma add_data_run data s :
  add_data data s =
  match rebuild_catalog None data s with
  | (Returned _, s1) => (Returned true, s1)
  | (Raised e, s1) => (Raised e, s1)
  end.
Proof.
  unfold add_data, _unpack_selection, mbind, Action_bind.
  now destruct (rebuild_catalog None data s) as [[[]|e] s1].
Qed.

Lemma add_subset_run subset s :
  add_subset subset s =
  match _unpack_selection (OfSubset subset) s with
  | (Returned _, s1) => (Returned true, s1)
  | (Raised e, s1) => (Raised e, s1)
  end.
Proof.
  unfold add_subset, mbind, Action_bind.
  now destruct (_unpack_selection (OfSubset subset) s) as [[[]|e] s1].
Qed.

Lemma jump_keeps_navigation_consistent index s s' :
  navigation_consistent s ->
  (0 ≤ index < source_select_count (toolbar s))%Z ->
  _set_navigation index s = (Returned tt, s') ->
  navigation_consistent s'.
Proof.
  intros (Hpos & Hlists & Hrect & _ & _) Hrange Hrun.
  destruct (set_navigation_in_range_consistent index s s' Hrange Hrun)
    as (Hitems & _ & Hin & Hbuttons).
  pose proof (set_navigation_lists_catalog index s Hlists) as Hlists'.
  pose proof (set_navigation_catalog index s) as Hcat.
  rewrite Hrun in Hlists', Hcat. simpl in Hlists', Hcat.
  unfold navigation_consistent.
  split; [unfold source_select_count in *; now rewrite Hitems|].
  split; [exact Hlists'|]. split; [|now split].
  intros t Ht. apply Hrect. now rewrite <- Hcat.
Qed.

End ToolbarActions.

(** X6.  From a viewer that shows a catalog consistently (the selector
    lists the catalog and points into it, the buttons follow the boundary
    policy on the current index), every action the user can perform and that
    returns leads to such a viewer again: adding data, changing a subset,
    pressing next while it is enabled, pressing previous while it is
    enabled. *)
Theorem perform_keeps_navigation_consistent `{Host} (a : UserAction) (s : Viewer) :
  navigation_consistent s ->
  can_perform a s ->
  fst (perform a s) = Returned tt ->
  navigation_consistent (snd (perform a s)).
Proof.
  intros Hs Hcan Hret. destruct a as [d|sub| |]; simpl in *.
  - unfold mbind, Action_bind in *. rewrite add_data_run in *.
    destruct (rebuild_catalog None d s) as [[[]|e] s1] eqn:Hrun; [|discriminate].
    simpl. now apply (rebuild_catalog_navigation None d s).
  - unfold mbind, Action_bind in *. rewrite add_subset_run in *. unfold _unpack_selection in *.
    destruct (to_mask sub) as [mask|]; [destruct (np_any mask)|]; try exact Hs.
    destruct (rebuild_catalog (Some mask) (subset_data sub) s) as [[[]|e] s1] eqn:Hrun;
      [|discriminate].
    simpl. now apply (rebuild_catalog_navigation (Some mask) (subset_data sub) s).
  - unfold cycle_next_triggered in *.
    rewrite (bind_returned _ _ s s s) in * by reflexivity.
    destruct (_set_navigation _ s) as [[[]|e] s1] eqn:Hrun; [|discriminate]. simpl.
    eapply (jump_keeps_navigation_consistent _ s s1 Hs); [|exact Hrun].
    destruct Hs as (Hpos & _ & _ & Hin & _ & Hnext).
    unfold selector_in_range in Hin. destruct (decide _) as [Hzero|_]; [lia|].
    assert (source_select_currentIndex (toolbar s) ≠ (source_select_count (toolbar s) - 1)%Z)
      by (intros Hlast; apply Hnext in Hlast; congruence).
    lia.
  - unfold cycle_previous_triggered in *.
    rewrite (bind_returned _ _ s s s) in * by reflexivity.
    destruct (_set_navigation _ s) as [[[]|e] s1] eqn:Hrun; [|discriminate]. simpl.
    eapply (jump_keeps_navigation_consistent _ s s1 Hs); [|exact Hrun].
    destruct Hs as (Hpos & _ & _ & Hin & Hprev & _).
    unfold selector_in_range in Hin. destruct (decide _) as [Hzero|_]; [lia|].
    assert (source_select_currentIndex (toolbar s) ≠ 0%Z)
      by (intros Hfirst; apply Hprev in Hfirst; congruence).
    lia.
Qed.

Lemma example_viewer_consistent : navigation_consistent example_viewer.
Proof.
  assert (Hstate : example_viewer
                   = snd (@rebuild_catalog example_host None example_data (new_viewer [7] 10)))
    by (vm_compute; reflexivity).
  assert (Hrun : @rebuild_catalog example_host None example_data (new_viewer [7] 10)
                 = (Returned tt,
                    snd (@rebuild_catalog example_host None example_data (new_viewer [7] 10))))
    by (vm_compute; reflexivity).
  rewrite Hstate.
  exact (proj1 (@rebuild_catalog_navigation example_host None example_data _ _ Hrun)).
Defined.

Lemma perform_keeps_navigation_consistent_witness :
  navigation_consistent example_viewer ∧
  can_perform PressNext example_viewer ∧
  fst (@perform example_host PressNext example_viewer) = Returned tt ∧
  navigation_consistent (snd (@perform example_host PressNext example_viewer)).
Proof.
  assert (Hcan : can_perform PressNext example_viewer) by (vm_compute; reflexivity).
  assert (Hret : fst (@perform example_host PressNext example_viewer) = Returned tt)
    by (vm_compute; reflexivity).
  split; [exact example_viewer_consistent|]. split; [exact Hcan|]. split; [exact Hret|].
  exact (@perform_keeps_navigation_consistent example_host PressNext example_viewer
           example_viewer_consistent Hcan Hret).
Defined.

(** X7.  Pressing next and then previous, both returning, from an entry
    that has a successor brings the selector back to where it was, with the
    row shown being that entry's row of the catalog again; in between the
    selector is one entry further. *)
Theorem next_then_previous `{Host} (s s1 s2 : Viewer) (t : Table) :
  catalog s = Some t ->
  (0 ≤ source_select_currentIndex (toolbar s))%Z ->
  (source_select_currentIndex (toolbar s) + 1 < source_select_count (toolbar s))%Z ->
  cycle_next_triggered s = (Returned tt, s1) ->
  cycle_previous_triggered s1 = (Returned tt, s2) ->
  source_select_currentIndex (toolbar s1) = (source_select_currentIndex (toolbar s) + 1)%Z ∧
  source_select_currentIndex (toolbar s2) = source_select_currentIndex (toolbar s) ∧
  source_select_items (toolbar s2) = source_select_items (toolbar s) ∧
  catalog s2 = Some t ∧
  ∃ row,
    table_getitem (source_select_currentIndex (toolbar s)) t = Returned row ∧
    current_row s2 = Some row.
Proof.
  intros Hcat Hlow Hhigh Hnext Hprev.
  unfold cycle_next_triggered in Hnext. rewrite (bind_returned _ _ s s s) in Hnext by reflexivity.
  unfold cycle_previous_triggered in Hprev.
  rewrite (bind_returned _ _ s1 s1 s1) in Hprev by reflexivity.
  set (i := source_select_currentIndex (toolbar s)) in *.
  assert (Hrange1 : (0 ≤ i + 1 < source_select_count (toolbar s))%Z) by lia.
  destruct (set_navigation_in_range_consistent (i + 1) s s1 Hrange1 Hnext)
    as (Hitems1 & Hindex1 & _ & _).
  assert (Hcount1 : source_select_count (toolbar s1) = source_select_count (toolbar s))
    by (unfold source_select_count; now rewrite Hitems1).
  rewrite Hindex1 in Hprev. replace (i + 1 - 1)%Z with i in Hprev by lia.
  assert (Hrange2 : (0 ≤ i < source_select_count (toolbar s1))%Z) by lia.
  destruct (set_navigation_in_range_consistent i s1 s2 Hrange2 Hprev)
    as (Hitems2 & Hindex2 & _ & _).
  pose proof (set_navigation_catalog (i + 1) s) as Hcat1. rewrite Hnext in Hcat1. simpl in Hcat1.
  destruct (set_navigation_in_range_returned_inv i s1 s2 Hrange2 Hprev)
    as (t1 & row & s3 & Ht1 & Hrow & Hload & ->).
  rewrite Hcat1, Hcat in Ht1. injection Ht1 as <-.
  split; [exact Hindex1|]. split; [exact Hindex2|]. split; [congruence|]. split.
  - pose proof (load_selection_catalog row
                  (set_toolbar (source_select_setCurrentIndex i (toolbar s1)) s1)) as Hc.
    rewrite Hload in Hc. simpl in Hc. simpl. rewrite Hc, Hcat1. exact Hcat.
  - exists row. split; [exact Hrow|].
    pose proof (load_selection_current_row row
                  (set_toolbar (source_select_setCurrentIndex i (toolbar s1)) s1)) as Hc.
    rewrite Hload in Hc. exact Hc.
Qed.

Lemma next_then_previous_witness :
  catalog example_viewer = Some example_catalog ∧
  (0 ≤ source_select_currentIndex (toolbar example_viewer))%Z ∧
  (source_select_currentIndex (toolbar example_viewer) + 1
   < source_select_count (toolbar example_viewer))%Z ∧
  source_select_currentIndex
    (toolbar (snd (@cycle_previous_triggered example_host
                     (snd (@cycle_next_triggered example_host example_viewer)))))
  = source_select_currentIndex (toolbar example_viewer).
Proof.
  assert (Hcat : catalog example_viewer = Some example_catalog) by (vm_compute; reflexivity).
  assert (Hlow : (0 ≤ source_select_currentIndex (toolbar example_viewer))%Z)
    by (vm_compute; discriminate).
  assert (Hhigh : (source_select_currentIndex (toolbar example_viewer) + 1
                   < source_select_count (toolbar example_viewer))%Z)
    by (vm_compute; reflexivity).
  assert (Hnext : @cycle_next_triggered example_host example_viewer
                  = (Returned tt, snd (@cycle_next_triggered example_host example_viewer)))
    by (vm_compute; reflexivity).
  assert (Hprev : @cycle_previous_triggered example_host
                    (snd (@cycle_next_triggered example_host example_viewer))
                  = (Returned tt,
                     snd (@cycle_previous_triggered example_host
                            (snd (@cycle_next_triggered example_host example_viewer)))))
    by (vm_compute; reflexivity).
  split; [exact Hcat|]. split; [exact Hlow|]. split; [exact Hhigh|].
  now destruct (@next_then_previous example_host _ _ _ _ Hcat Hlow Hhigh Hnext Hprev)
    as (_ & Hback & _).
Defined.

(** ** The cache and the session's data collection *)

Lemma cache_consistent_mono dc0 fresh0 bound bound' s s' :
  cache_consistent dc0 fresh0 bound s ->
  bound ≤ bound' ->
  _loaded_data s' = _loaded_data s ->
  data_collection s' = data_collection s ->
  cache_consistent dc0 fresh0 bound' s'.
Proof.
  intros (Hfresh & Hrange & Hinj & Hnd & extra & Hdc & Hextra) Hle Hld Hcol.
  unfold cache_consistent, loaded_values. rewrite Hld, Hcol.
  split; [lia|]. split.
  { intros key d Hkey. destruct (Hrange key d Hkey) as [Hk Hd]. split; [exact Hk|lia]. }
  split; [exact Hinj|]. split; [exact Hnd|]. now exists extra.
Qed.

Lemma elem_of_loaded_values_insert s key d x :
  _loaded_data s !! key = None ->
  x ∈ loaded_values s ->
  x ∈ loaded_values (set_loaded_data (<[key := d]> (_loaded_data s)) s).
Proof.
  intros Hnone Hx. apply elem_of_loaded_values in Hx as [k Hk].
  apply elem_of_loaded_values. exists k. simpl.
  rewrite lookup_insert_ne; [exact Hk|]. intros ->. congruence.
Qed.

(** Caching a new object, younger than everything cached, keeps the cache
    consistent. *)
Lemma update_data_components_consistent dc0 fresh0 bound data key s :
  cache_consistent dc0 fresh0 bound s ->
  key ∈ cache_keys ->
  bound ≤ object_id data ->
  cache_consistent dc0 fresh0 (S (object_id data)) (snd (_update_data_components data key s)).
Proof.
  intros Hs Hkey Hid. unfold _update_data_components.
  rewrite (bind_returned _ _ s s s) by reflexivity.
  destruct (_loaded_data s !! key) as [cur|] eqn:Hcur; simpl.
  { apply (cache_consistent_mono dc0 fresh0 bound _ s); [exact Hs|lia|reflexivity|reflexivity]. }
  destruct Hs as (Hfresh & Hrange & Hinj & Hnd & extra & Hdc & Hextra).
  unfold cache_consistent. simpl.
  split; [lia|]. split; [|split; [|split]].
  - intros k d Hk. destruct (decide (key = k)) as [->|Hne].
    + rewrite lookup_insert_eq in Hk. injection Hk as <-. split; [exact Hkey|lia].
    + rewrite lookup_insert_ne in Hk by exact Hne.
      destruct (Hrange k d Hk) as [Hk' Hd]. split; [exact Hk'|lia].
  - intros k1 k2 d Hk1 Hk2.
    destruct (decide (key = k1)) as [<-|Hne1]; destruct (decide (key = k2)) as [<-|Hne2];
      try reflexivity.
    + rewrite lookup_insert_eq in Hk1. injection Hk1 as <-.
      rewrite lookup_insert_ne in Hk2 by exact Hne2.
      destruct (Hrange k2 _ Hk2) as [_ Hd]. lia.
    + rewrite lookup_insert_eq in Hk2. injection Hk2 as <-.
      rewrite lookup_insert_ne in Hk1 by exact Hne1.
      destruct (Hrange k1 _ Hk1) as [_ Hd]. lia.
    + rewrite lookup_insert_ne in Hk1 by exact Hne1.
      rewrite lookup_insert_ne in Hk2 by exact Hne2. now apply (Hinj k1 k2 d).
  - now apply data_collection_append_NoDup.
  - unfold data_collection_append. case_bool_decide as Hin.
    + exists extra. split; [exact Hdc|]. intros x Hx.
      apply (elem_of_loaded_values_insert s key (object_id data) x Hcur), Hextra, Hx.
    + exists (extra ++ [object_id data]). split; [now rewrite Hdc, app_assoc|].
      intros x Hx. apply elem_of_app in Hx as [Hx|Hx].
      * apply (elem_of_loaded_values_insert s key (object_id data) x Hcur), Hextra, Hx.
      * apply list_elem_of_singleton in Hx. subst x.
        apply elem_of_loaded_values. exists key. simpl. apply lookup_insert_eq.
Qed.

Section Phases.
Context `{Host}.

Lemma load_selection_phases row s :
  load_selection row s =
  (products ← load_products row;
   store_products products;;
   render_products row products) s.
Proof.
  unfold load_selection, load_products, store_products, render_products, mbind, Action_bind.
  destruct (modify _ s) as [[[]|e0] s0]; [|reflexivity].
  destruct (_get_loaders s0) as [[[[l1 l2] l3]|e1] s1]; [|reflexivity].
  destruct (lift (row_getitem "spectrum1d" row) s1) as [[p1|e2] s2]; [|reflexivity].
  destruct (run_loader l1 p1 s2) as [[d1|e3] s3]; [|reflexivity].
  destruct (lift (row_getitem "spectrum2d" row) s3) as [[p2|e4] s4]; [|reflexivity].
  destruct (run_loader l2 p2 s4) as [[d2|e5] s5]; [|reflexivity].
  destruct (lift (row_getitem "cutout" row) s5) as [[p3|e6] s6]; [|reflexivity].
  destruct (run_loader l3 p3 s6) as [[d3|e7] s7]; [|reflexivity].
  simpl.
  destruct (_update_data_components d1 "spec1d" s7) as [[[]|e8] s8]; [|reflexivity].
  destruct (_update_data_components d2 "spec2d" s8) as [[[]|e9] s9]; [|reflexivity].
  destruct (_update_data_components d3 "image" s9) as [[[]|e10] s10]; reflexivity.
Qed.

Lemma run_loader_frame {X : Type} (f : Viewer -> X) fn path :
  (∀ n s, f (set_next_object n s) = f s) -> preserves f (run_loader fn path).
Proof.
  intros Hf s. rewrite run_loader_run. destruct (call_loader fn path); simpl; [apply Hf|reflexivity].
Qed.

(** The loading phase touches the current row and the object counter only;
    the counter never goes back. *)
Lemma load_products_frame {X : Type} (f : Viewer -> X) row :
  (∀ r s, f (set_current_row r s) = f s) ->
  (∀ n s, f (set_next_object n s) = f s) ->
  preserves f (load_products row).
Proof.
  intros Hrow Hnext. unfold load_products.
  repeat first
    [ apply get_loaders_preserves
    | apply (run_loader_frame f _ _ Hnext)
    | apply preserves_ret | apply preserves_lift
    | apply preserves_modify; intros ?; apply Hrow
    | apply preserves_bind; [|intros ?]
    | match goal with |- preserves _ (let '(_, _) := ?x in _) => destruct x end
    | match goal with |- preserves _ (match ?x with _ => _ end) => destruct x end ].
Qed.

Lemma load_products_next_object row s :
  next_object s ≤ next_object (snd (load_products row s)).
Proof.
  unfold load_products.
  rewrite (bind_returned _ _ s tt (set_current_row (Some row) s)) by reflexivity.
  set (s0 := set_current_row (Some row) s). change (next_object s) with (next_object s0).
  unfold mbind, Action_bind. rewrite (get_loaders_run s0).
  destruct (fst (_get_loaders s0)) as [[[l1 l2] l3]|e]; simpl; [|lia].
  unfold lift. destruct (row_getitem "spectrum1d" row) as [p1|e]; simpl; [|lia].
  rewrite run_loader_run. destruct (call_loader l1 p1) as [v1|e]; simpl; [|lia].
  destruct (row_getitem "spectrum2d" row) as [p2|e]; simpl; [|lia].
  rewrite run_loader_run. destruct (call_loader l2 p2) as [v2|e]; simpl; [|lia].
  destruct (row_getitem "cutout" row) as [p3|e]; simpl; [|lia].
  rewrite run_loader_run. destruct (call_loader l3 p3) as [v3|e]; simpl; lia.
Qed.

(** When the loading phase returns, the three products are new objects,
    created one after the other, holding what the loaders returned for the
    paths of the row. *)
Lemma load_products_returned_inv row s products s' :
  load_products row s = (Returned products, s') ->
  ∃ l1 l2 l3 p1 p2 p3 v1 v2 v3,
    fst (_get_loaders s) = Returned (l1, l2, l3) ∧
    row_getitem "spectrum1d" row = Returned p1 ∧
    row_getitem "spectrum2d" row = Returned p2 ∧
    row_getitem "cutout" row = Returned p3 ∧
    call_loader l1 p1 = Returned v1 ∧
    call_loader l2 p2 = Returned v2 ∧
    call_loader l3 p3 = Returned v3 ∧
    products = ({| object_id := next_object s; object_values := v1 |},
                {| object_id := S (next_object s); object_values := v2 |},
                {| object_id := S (S (next_object s)); object_values := v3 |}) ∧
    next_object s' = S (S (S (next_object s))).
Proof.
  unfold load_products. intros Hrun.
  apply bind_returned_inv in Hrun as ([] & s0 & Hs0 & Hrun). injection Hs0 as <-.
  apply bind_returned_inv in Hrun as ([[l1 l2] l3] & s1 & Hgl & Hrun).
  rewrite get_loaders_run in Hgl. injection Hgl as Hgl <-.
  apply bind_returned_inv in Hrun as (p1 & s1 & Hp1 & Hrun).
  apply lift_returned_inv in Hp1 as [Hp1 ->].
  apply bind_returned_inv in Hrun as (d1 & s1 & Hd1 & Hrun).
  rewrite run_loader_run in Hd1. destruct (call_loader l1 p1) as [v1|] eqn:Hc1; [|discriminate].
  injection Hd1 as <- <-.
  apply bind_returned_inv in Hrun as (p2 & s2 & Hp2 & Hrun).
  apply lift_returned_inv in Hp2 as [Hp2 ->].
  apply bind_returned_inv in Hrun as (d2 & s2 & Hd2 & Hrun).
  rewrite run_loader_run in Hd2. destruct (call_loader l2 p2) as [v2|] eqn:Hc2; [|discriminate].
  injection Hd2 as <- <-.
  apply bind_returned_inv in Hrun as (p3 & s3 & Hp3 & Hrun).
  apply lift_returned_inv in Hp3 as [Hp3 ->].
  apply bind_returned_inv in Hrun as (d3 & s3 & Hd3 & Hrun).
  rewrite run_loader_run in Hd3. destruct (call_loader l3 p3) as [v3|] eqn:Hc3; [|discriminate].
  injection Hd3 as <- <-. injection Hrun as <- <-.
  exists l1, l2, l3, p1, p2, p3, v1, v2, v3.
  split; [rewrite <- Hgl; now apply get_loaders_catalog_only|].
  now repeat split.
Qed.

End Phases.

(** What one update of the cache leaves behind, whichever branch it took. *)
Lemma update_data_components_post data key s :
  _update_data_components data key s = (Returned tt, snd (_update_data_components data key s)) ∧
  next_object (snd (_update_data_components data key s)) = next_object s ∧
  (∀ k d, _loaded_data s !! k = Some d ->
          _loaded_data (snd (_update_data_components data key s)) !! k = Some d) ∧
  ∃ d,
    _loaded_data (snd (_update_data_components data key s)) !! key = Some d ∧
    objects (snd (_update_data_components data key s)) !! d = Some (object_values data) ∧
    ∀ x, x ≠ d -> objects (snd (_update_data_components data key s)) !! x = objects s !! x.
Proof.
  unfold _update_data_components. rewrite (bind_returned _ _ s s s) by reflexivity.
  destruct (_loaded_data s !! key) as [cur|] eqn:Hcur; simpl.
  - split; [reflexivity|]. split; [reflexivity|]. split; [auto|].
    exists cur. split; [exact Hcur|]. split; [apply lookup_insert_eq|].
    intros x Hx. now apply lookup_insert_ne.
  - split; [reflexivity|]. split; [reflexivity|]. split.
    { intros k d Hk. rewrite lookup_insert_ne; [exact Hk|]. intros ->. congruence. }
    exists (object_id data). split; [apply lookup_insert_eq|]. split; [apply lookup_insert_eq|].
    intros x Hx. now apply lookup_insert_ne.
Qed.

Lemma cache_keys_spec1d : "spec1d" ∈ cache_keys.
Proof. left. Qed.

Lemma cache_keys_spec2d : "spec2d" ∈ cache_keys.
Proof. right. left. Qed.

Lemma cache_keys_image : "image" ∈ cache_keys.
Proof. right. right. left. Qed.

(** Storing three products created one after the other, all younger than
    what is cached: the cache stays consistent, each kind is cached, and the
    cached objects hold the values of the three products. *)
Lemma store_products_consistent dc0 fresh0 n v1 v2 v3 s :
  cache_consistent dc0 fresh0 n s ->
  let products := ({| object_id := n; object_values := v1 |},
                   {| object_id := S n; object_values := v2 |},
                   {| object_id := S (S n); object_values := v3 |}) in
  let s' := snd (store_products products s) in
  store_products products s = (Returned tt, s') ∧
  cache_consistent dc0 fresh0 (S (S (S n))) s' ∧
  next_object s' = next_object s ∧
  (∀ k d, _loaded_data s !! k = Some d -> _loaded_data s' !! k = Some d) ∧
  ∃ d1 d2 d3,
    _loaded_data s' !! "spec1d" = Some d1 ∧ objects s' !! d1 = Some v1 ∧
    _loaded_data s' !! "spec2d" = Some d2 ∧ objects s' !! d2 = Some v2 ∧
    _loaded_data s' !! "image" = Some d3 ∧ objects s' !! d3 = Some v3.
Proof.
  intros Hs products s'. subst products s'. unfold store_products.
  set (data1 := {| object_id := n; object_values := v1 |}).
  set (data2 := {| object_id := S n; object_values := v2 |}).
  set (data3 := {| object_id := S (S n); object_values := v3 |}).
  destruct (update_data_components_post data1 "spec1d" s)
    as (Hrun1 & Hnext1 & Hkeep1 & d1 & Hd1 & Ho1 & _).
  pose proof (update_data_components_consistent dc0 fresh0 n data1 "spec1d" s Hs
                cache_keys_spec1d (le_n _)) as Hs1.
  set (s1 := snd (_update_data_components data1 "spec1d" s)) in *.
  destruct (update_data_components_post data2 "spec2d" s1)
    as (Hrun2 & Hnext2 & Hkeep2 & d2 & Hd2 & Ho2 & Hother2).
  pose proof (update_data_components_consistent dc0 fresh0 (S n) data2 "spec2d" s1 Hs1
                cache_keys_spec2d (le_n _)) as Hs2.
  set (s2 := snd (_update_data_components data2 "spec2d" s1)) in *.
  destruct (update_data_components_post data3 "image" s2)
    as (Hrun3 & Hnext3 & Hkeep3 & d3 & Hd3 & Ho3 & Hother3).
  pose proof (update_data_components_consistent dc0 fresh0 (S (S n)) data3 "image" s2 Hs2
                cache_keys_image (le_n _)) as Hs3.
  set (s3 := snd (_update_data_components data3 "image" s2)) in *.
  rewrite (bind_returned _ _ s tt s1 Hrun1), (bind_returned _ _ s1 tt s2 Hrun2). simpl.
  fold s3. split; [exact Hrun3|]. split; [exact Hs3|]. split; [congruence|]. split; [auto|].
  destruct Hs3 as (_ & _ & Hinj & _).
  assert (H13 : d1 ≠ d3).
  { intros ->. assert ("spec1d" = "image") by (apply (Hinj _ _ d3); auto). discriminate. }
  assert (H23 : d2 ≠ d3).
  { intros ->. assert ("spec2d" = "image") by (apply (Hinj _ _ d3); auto). discriminate. }
  assert (H12 : d1 ≠ d2).
  { intros ->. assert ("spec1d" = "spec2d") by (apply (Hinj _ _ d2); auto). discriminate. }
  exists d1, d2, d3.
  split; [auto|]. split; [rewrite (Hother3 d1 H13), (Hother2 d1 H12); exact Ho1|].
  split; [auto|]. split; [rewrite (Hother3 d2 H23); exact Ho2|].
  split; [exact Hd3|exact Ho3].
Qed.

Lemma add_form_rows_frame {X : Type} (f : Viewer -> X) row cols :
  (∀ w s, f (set_widgets w s) = f s) -> preserves f (add_form_rows row cols).
Proof.
  intros Hf. induction cols as [|col cols IH]; simpl; unfold modify_widgets.
  - apply preserves_ret.
  - apply preserves_bind; [apply preserves_lift|]. intros text.
    apply preserves_bind; [apply preserves_modify; intros s; apply Hf|]. intros _. exact IH.
Qed.

Lemma render_data_frame {X : Type} (f : Viewer -> X) row d1 d2 d3 :
  (∀ w s, f (set_widgets w s) = f s) -> preserves f (render_data row d1 d2 d3).
Proof.
  intros Hf. unfold render_data, modify_widgets.
  repeat first
    [ apply (add_form_rows_frame f _ _ Hf)
    | apply preserves_ret | apply preserves_lift
    | apply preserves_modify; intros ?; apply Hf
    | apply preserves_bind; [|intros ?]
    | match goal with |- preserves _ (match ?x with _ => _ end) => destruct x end ].
Qed.

Lemma maintains_ret {A : Type} (P : Viewer -> Prop) (a : A) : maintains P (mret a : Action A).
Proof. intros s Hs. exact Hs. Qed.

Lemma maintains_raise {A : Type} (P : Viewer -> Prop) (e : Exception) :
  maintains P (raise e : Action A).
Proof. intros s Hs. exact Hs. Qed.

Lemma maintains_lift {A : Type} (P : Viewer -> Prop) (o : Outcome A) : maintains P (lift o).
Proof. intros s Hs. exact Hs. Qed.

Lemma maintains_get (P : Viewer -> Prop) : maintains P get.
Proof. intros s Hs. exact Hs. Qed.

Lemma session_consistent_frame dc0 fresh0 s s' :
  session_consistent dc0 fresh0 s ->
  _loaded_data s' = _loaded_data s ->
  data_collection s' = data_collection s ->
  next_object s ≤ next_object s' ->
  session_consistent dc0 fresh0 s'.
Proof.
  intros Hs Hld Hdc Hnext. unfold session_consistent in *.
  now apply (cache_consistent_mono dc0 fresh0 (next_object s) (next_object s') s s').
Qed.

Lemma session_consistent_modify dc0 fresh0 (g : Viewer -> Viewer) :
  (∀ s, _loaded_data (g s) = _loaded_data s) ->
  (∀ s, data_collection (g s) = data_collection s) ->
  (∀ s, next_object (g s) = next_object s) ->
  maintains (session_consistent dc0 fresh0) (modify g).
Proof.
  intros Hld Hdc Hnext s Hs. simpl.
  apply (session_consistent_frame dc0 fresh0 s); auto. rewrite Hnext. lia.
Qed.

Section Session.
Context `{Host}.
Variables (dc0 : list nat) (fresh0 : nat).

Lemma load_selection_session row :
  maintains (session_consistent dc0 fresh0) (load_selection row).
Proof.
  intros s Hs. rewrite load_selection_phases.
  pose proof (load_products_frame _loaded_data row (fun _ _ => eq_refl) (fun _ _ => eq_refl) s)
    as Hld.
  pose proof (load_products_frame data_collection row (fun _ _ => eq_refl) (fun _ _ => eq_refl) s)
    as Hdc.
  pose proof (load_products_next_object row s) as Hnext.
  destruct (load_products row s) as [[products|e] s1] eqn:Hload; simpl in *.
  2: { rewrite (bind_raised _ _ s e s1 Hload). simpl.
       now apply (session_consistent_frame dc0 fresh0 s). }
  rewrite (bind_returned _ _ s products s1 Hload).
  apply load_products_returned_inv in Hload
    as (l1 & l2 & l3 & p1 & p2 & p3 & v1 & v2 & v3 & _ & _ & _ & _ & _ & _ & _ & -> & Hn1).
  assert (Hs1 : cache_consistent dc0 fresh0 (next_object s) s1)
    by (apply (cache_consistent_mono dc0 fresh0 (next_object s) _ s); auto).
  destruct (store_products_consistent dc0 fresh0 (next_object s) v1 v2 v3 s1 Hs1)
    as (Hstore & Hs2 & Hn2 & _).
  cbv zeta in *. rewrite (bind_returned _ _ s1 tt _ Hstore).
  set (s2 := snd (store_products _ s1)) in *.
  unfold render_products.
  match goal with
  | |- session_consistent _ _ (snd (render_data ?row ?a ?b ?c s2)) =>
      pose proof (render_data_frame _loaded_data row a b c (fun _ _ => eq_refl) s2) as Hld3;
      pose proof (render_data_frame data_collection row a b c (fun _ _ => eq_refl) s2) as Hdc3;
      pose proof (render_data_frame next_object row a b c (fun _ _ => eq_refl) s2) as Hn3
  end.
  unfold session_consistent. rewrite Hn3, Hn2, Hn1.
  eapply cache_consistent_mono; [exact Hs2|lia|exact Hld3|exact Hdc3].
Qed.

Ltac session_step :=
  first
    [ apply load_selection_session
    | assumption
    | apply maintains_ret | apply maintains_raise | apply maintains_lift | apply maintains_get
    | apply session_consistent_modify; intros ?; reflexivity
    | apply maintains_bind; [ | intros ? ]
    | match goal with
      | |- maintains _ (match ?x with _ => _ end) => destruct x
      | |- maintains _ (if ?b then _ else _) => destruct b
      end ].

Lemma set_navigation_session index :
  maintains (session_consistent dc0 fresh0) (_set_navigation index).
Proof. unfold _set_navigation, modify_toolbar, catalog_getitem. repeat session_step. Qed.

Lemma unpack_columns_session mask comps :
  maintains (session_consistent dc0 fresh0) (unpack_columns mask comps).
Proof.
  induction comps as [|[att component] comps IH]; simpl; unfold catalog_setitem;
    repeat session_step.
Qed.

Lemma unpack_selection_session data :
  maintains (session_consistent dc0 fresh0) (_unpack_selection data).
Proof.
  pose proof set_navigation_session as Hnav. pose proof unpack_columns_session as Hcols.
  unfold _unpack_selection, rebuild_catalog, _update_navigation, modify_toolbar, catalog_getitem.
  repeat first [ apply Hnav | apply Hcols | session_step ].
Qed.

End Session.

Lemma data_collection_remove_app d (l1 l2 : list nat) :
  d ∉ l1 -> data_collection_remove d (l1 ++ l2) = l1 ++ data_collection_remove d l2.
Proof.
  induction l1 as [|x l1 IH]; intros Hd; simpl; [reflexivity|].
  apply not_elem_of_cons in Hd as [Hne Hd].
  destruct (Nat.eqb_spec x d) as [->|_]; [congruence|]. now rewrite IH.
Qed.

(** Removing, one after the other, objects among which are all those that
    follow a prefix, and none of the prefix, leaves the prefix. *)
Lemma remove_all_leaves_prefix (ds : list nat) : ∀ dc0 extra,
  NoDup (dc0 ++ extra) ->
  (∀ x, x ∈ extra -> x ∈ ds) ->
  (∀ x, x ∈ dc0 -> x ∉ ds) ->
  fold_left (fun dc d => data_collection_remove d dc) ds (dc0 ++ extra) = dc0.
Proof.
  induction ds as [|d ds IH]; intros dc0 extra Hnd Hextra Hdc0; simpl.
  - destruct extra as [|x extra]; [apply app_nil_r|].
    exfalso. apply (not_elem_of_nil x), Hextra. left.
  - assert (Hd : d ∉ dc0) by (intros Hin; apply (Hdc0 d Hin); left).
    rewrite (data_collection_remove_app d dc0 extra Hd).
    assert (Hnd_extra : NoDup extra) by (apply NoDup_app in Hnd; tauto).
    apply IH.
    + rewrite <- (data_collection_remove_app d dc0 extra Hd).
      now apply data_collection_remove_NoDup.
    + intros x Hx. apply (data_collection_remove_elem d extra x Hnd_extra) in Hx as [Hx Hne].
      specialize (Hextra x Hx). apply elem_of_cons in Hextra as [->|Hin]; [congruence|exact Hin].
    + intros x Hx Hin. apply (Hdc0 x Hx). now right.
Qed.

Section SessionClose.
Context `{Host}.
Variables (dc0 : list nat) (fresh0 : nat).
Hypothesis dc0_older : ∀ x, x ∈ dc0 -> x < fresh0.

Lemma closeEvent_restores s :
  session_consistent dc0 fresh0 s ->
  data_collection (snd (closeEvent s)) = dc0.
Proof.
  intros (_ & Hrange & _ & Hnd & extra & Hdc & Hextra).
  unfold closeEvent. rewrite (bind_returned _ _ s s s) by reflexivity. simpl.
  rewrite Hdc. apply remove_all_leaves_prefix; [now rewrite <- Hdc|exact Hextra|].
  intros x Hx Hin. apply elem_of_loaded_values in Hin as [key Hkey].
  destruct (Hrange key x Hkey) as [_ Hx']. specialize (dc0_older x Hx). lia.
Qed.

Lemma closeEvent_session :
  NoDup dc0 -> maintains (session_consistent dc0 fresh0) closeEvent.
Proof.
  intros Hnd0 s Hs. pose proof (closeEvent_restores s Hs) as Hdc.
  destruct Hs as (Hfresh & Hrange & Hinj & Hnd & _).
  unfold session_consistent, cache_consistent.
  assert (Hsame : _loaded_data (snd (closeEvent s)) = _loaded_data s
                  ∧ next_object (snd (closeEvent s)) = next_object s).
  { unfold closeEvent. rewrite (bind_returned _ _ s s s) by reflexivity. now split. }
  destruct Hsame as [Hld Hnext]. rewrite Hld, Hnext, Hdc.
  split; [exact Hfresh|]. split; [exact Hrange|]. split; [exact Hinj|]. split; [exact Hnd0|].
  exists []. split; [now rewrite app_nil_r|]. intros d Hd. now apply elem_of_nil in Hd.
Qed.

Lemma handle_session ev :
  NoDup dc0 -> maintains (session_consistent dc0 fresh0) (handle ev).
Proof.
  intros Hnd0.
  destruct ev as [d|sub|index|]; simpl; unfold add_data, add_subset.
  - repeat first [ apply unpack_selection_session | apply maintains_ret
                 | apply maintains_bind; [|intros ?] ].
  - repeat first [ apply unpack_selection_session | apply maintains_ret
                 | apply maintains_bind; [|intros ?] ].
  - apply set_navigation_session.
  - now apply closeEvent_session.
Qed.

Lemma new_viewer_session : NoDup dc0 -> session_consistent dc0 fresh0 (new_viewer dc0 fresh0).
Proof.
  intros Hnd0. unfold session_consistent, cache_consistent. simpl.
  split; [lia|]. split; [intros key d Hkey; now rewrite lookup_empty in Hkey|].
  split; [intros k1 k2 d Hk1; now rewrite lookup_empty in Hk1|]. split; [exact Hnd0|].
  exists []. split; [now rewrite app_nil_r|]. intros d Hd. now apply elem_of_nil in Hd.
Qed.

Lemma run_events_session evs : ∀ s,
  NoDup dc0 -> session_consistent dc0 fresh0 s -> session_consistent dc0 fresh0 (run_events evs s).
Proof.
  induction evs as [|ev evs IH]; intros s Hnd0 Hs; simpl; [exact Hs|].
  apply IH; [exact Hnd0|]. now apply handle_session.
Qed.

End SessionClose.

(** X8.  Whatever happened in the viewer before, closing it leaves the
    host's data collection exactly as it was when the viewer was opened:
    the objects of the session are all there, in their order, and no object
    the viewer created is left. *)
Theorem close_restores_data_collection `{Host} (dc0 : list nat) (fresh0 : nat)
    (evs : list Event) :
  NoDup dc0 ->
  (∀ x, x ∈ dc0 -> x < fresh0) ->
  data_collection (run_events (evs ++ [WindowClosed]) (new_viewer dc0 fresh0)) = dc0.
Proof.
  intros Hnd0 Holder. unfold run_events. rewrite fold_left_app. simpl.
  apply (closeEvent_restores dc0 fresh0 Holder).
  apply (run_events_session dc0 fresh0 Holder evs); [exact Hnd0|].
  now apply new_viewer_session.
Qed.

Lemma close_restores_data_collection_witness :
  NoDup [7] ∧
  (∀ x, x ∈ [7] -> x < 10) ∧
  data_collection
    (@run_events example_host ([DataAdded example_data; Jump 1%Z] ++ [WindowClosed])
       (new_viewer [7] 10)) = [7].
Proof.
  assert (Hnd : NoDup [7]) by (apply (bool_decide_unpack _); vm_compute; exact I).
  assert (Holder : ∀ x, x ∈ [7] -> x < 10).
  { intros x Hx. apply list_elem_of_singleton in Hx. subst x. lia. }
  split; [exact Hnd|]. split; [exact Holder|].
  exact (@close_restores_data_collection example_host [7] 10
           [DataAdded example_data; Jump 1%Z] Hnd Holder).
Defined.

Lemma cache_size_bound (m : gmap string nat) :
  (∀ key d, m !! key = Some d -> key ∈ cache_keys) -> length (map_to_list m) ≤ 3.
Proof.
  intros Hkeys.
  assert (Hsub : (map_to_list m).*1 ⊆+ cache_keys).
  { apply NoDup_submseteq; [apply NoDup_fst_map_to_list|].
    intros key Hkey. apply list_elem_of_fmap in Hkey as ([k d] & -> & Hin).
    apply elem_of_map_to_list in Hin. now apply (Hkeys k d). }
  apply submseteq_length in Hsub. now rewrite length_fmap in Hsub.
Qed.

(** X9.  Over its whole life the viewer adds at most three objects to the
    host's data collection: at any time the collection is the one the session
    had when the viewer was opened, followed by at most three objects, each
    of them cached by the viewer. *)
Theorem data_collection_growth_bounded `{Host} (dc0 : list nat) (fresh0 : nat)
    (evs : list Event) :
  NoDup dc0 ->
  (∀ x, x ∈ dc0 -> x < fresh0) ->
  ∃ extra,
    data_collection (run_events evs (new_viewer dc0 fresh0)) = dc0 ++ extra ∧
    length extra ≤ 3 ∧
    ∀ d, d ∈ extra ->
         ∃ key, _loaded_data (run_events evs (new_viewer dc0 fresh0)) !! key = Some d.
Proof.
  intros Hnd0 Holder.
  destruct (run_events_session dc0 fresh0 Holder evs (new_viewer dc0 fresh0) Hnd0
              (new_viewer_session dc0 fresh0 Hnd0))
    as (_ & Hrange & _ & Hnd & extra & Hdc & Hextra).
  exists extra. split; [exact Hdc|]. split.
  - assert (Hsub : extra ⊆+ loaded_values (run_events evs (new_viewer dc0 fresh0))).
    { apply NoDup_submseteq; [|exact Hextra]. rewrite Hdc in Hnd. apply NoDup_app in Hnd. tauto. }
    apply submseteq_length in Hsub. unfold loaded_values in Hsub. rewrite length_fmap in Hsub.
    etransitivity; [exact Hsub|]. apply cache_size_bound.
    intros key d Hkey. now destruct (Hrange key d Hkey).
  - intros d Hd. now apply elem_of_loaded_values, Hextra.
Qed.

Lemma data_collection_growth_bounded_witness :
  NoDup [7] ∧
  (∀ x, x ∈ [7] -> x < 10) ∧
  ∃ extra,
    data_collection
      (@run_events example_host [DataAdded example_data; Jump 1%Z; Jump 0%Z] (new_viewer [7] 10))
    = [7] ++ extra ∧ length extra ≤ 3.
Proof.
  assert (Hnd : NoDup [7]) by (apply (bool_decide_unpack _); vm_compute; exact I).
  assert (Holder : ∀ x, x ∈ [7] -> x < 10).
  { intros x Hx. apply list_elem_of_singleton in Hx. subst x. lia. }
  split; [exact Hnd|]. split; [exact Holder|].
  destruct (@data_collection_growth_bounded example_host [7] 10
              [DataAdded example_data; Jump 1%Z; Jump 0%Z] Hnd Holder)
    as (extra & Hdc & Hlen & _).
  exists extra. split; [exact Hdc|exact Hlen].
Defined.

(** X10.  In a viewer whose cache is consistent, a selection load that
    returns leaves the cache holding what the widgets show: each of the three
    kinds is cached, the cached objects are three different objects, their
    values are what the loaders resolved from the catalog return on the
    three paths of the row, and these are the products rendered.  Objects
    cached before are still the cached ones. *)
Theorem load_selection_cache_coherent `{Host} (dc0 : list nat) (fresh0 : nat) (row : Row)
    (s s' : Viewer) :
  session_consistent dc0 fresh0 s ->
  load_selection row s = (Returned tt, s') ->
  session_consistent dc0 fresh0 s' ∧
  (∀ key d, _loaded_data s !! key = Some d -> _loaded_data s' !! key = Some d) ∧
  ∃ v1 v2 v3 d1 d2 d3,
    loaders_return s row v1 v2 v3 ∧
    shows (widgets s') row v1 v2 v3 ∧
    _loaded_data s' !! "spec1d" = Some d1 ∧ objects s' !! d1 = Some v1 ∧
    _loaded_data s' !! "spec2d" = Some d2 ∧ objects s' !! d2 = Some v2 ∧
    _loaded_data s' !! "image" = Some d3 ∧ objects s' !! d3 = Some v3 ∧
    d1 ≠ d2 ∧ d1 ≠ d3 ∧ d2 ≠ d3.
Proof.
  intros Hs Hrun.
  pose proof (load_selection_session dc0 fresh0 row s Hs) as Hs'.
  rewrite Hrun in Hs'. simpl in Hs'. split; [exact Hs'|].
  rewrite load_selection_phases in Hrun.
  apply bind_returned_inv in Hrun as (products & s1 & Hload & Hrun).
  apply bind_returned_inv in Hrun as ([] & s2 & Hstore & Hrender).
  pose proof (load_products_frame _loaded_data row (fun _ _ => eq_refl) (fun _ _ => eq_refl) s)
    as Hld1.
  pose proof (load_products_frame data_collection row (fun _ _ => eq_refl) (fun _ _ => eq_refl) s)
    as Hdc1.
  rewrite Hload in Hld1, Hdc1. simpl in Hld1, Hdc1.
  apply load_products_returned_inv in Hload
    as (l1 & l2 & l3 & p1 & p2 & p3 & v1 & v2 & v3 & Hgl & Hp1 & Hp2 & Hp3
        & Hc1 & Hc2 & Hc3 & -> & Hn1).
  assert (Hreturn : loaders_return s row v1 v2 v3).
  { exists l1, l2, l3, p1, p2, p3. now repeat split. }
  assert (Hs1 : cache_consistent dc0 fresh0 (next_object s) s1)
    by (apply (cache_consistent_mono dc0 fresh0 (next_object s) _ s); auto).
  pose proof (store_products_consistent dc0 fresh0 (next_object s) v1 v2 v3 s1 Hs1) as Hpost.
  cbv zeta in Hpost. rewrite Hstore in Hpost. simpl in Hpost.
  destruct Hpost as (_ & _ & _ & Hkeep & d1 & d2 & d3 & Hd1 & Ho1 & Hd2 & Ho2 & Hd3 & Ho3).
  unfold render_products in Hrender.
  match type of Hrender with
  | render_data ?r ?a ?b ?c ?st = _ =>
      pose proof (render_data_frame _loaded_data r a b c (fun _ _ => eq_refl) st) as Hld3;
      pose proof (render_data_frame objects r a b c (fun _ _ => eq_refl) st) as Hobj3
  end.
  rewrite Hrender in Hld3, Hobj3. simpl in Hld3, Hobj3.
  apply render_data_returned_inv in Hrender. simpl in Hrender.
  split.
  { intros key d Hkey. rewrite Hld3. apply Hkeep. now rewrite Hld1. }
  destruct Hs' as (_ & _ & Hinj & _).
  exists v1, v2, v3, d1, d2, d3. rewrite Hld3, Hobj3.
  split; [exact Hreturn|].
  repeat (split; [assumption|]).
  rewrite Hld3 in Hinj.
  split; [|split].
  - intros ->. assert ("spec1d" = "spec2d") by (apply (Hinj _ _ d2); auto). discriminate.
  - intros ->. assert ("spec1d" = "image") by (apply (Hinj _ _ d3); auto). discriminate.
  - intros ->. assert ("spec2d" = "image") by (apply (Hinj _ _ d3); auto). discriminate.
Qed.

Lemma example_viewer_session : session_consistent [7] 10 example_viewer.
Proof.
  assert (Hnd : NoDup [7]) by (apply (bool_decide_unpack _); vm_compute; exact I).
  assert (Holder : ∀ x, x ∈ [7] -> x < 10).
  { intros x Hx. apply list_elem_of_singleton in Hx. subst x. lia. }
  exact (@run_events_session example_host [7] 10 Holder [DataAdded example_data]
           (new_viewer [7] 10) Hnd (new_viewer_session [7] 10 Hnd)).
Defined.

Lemma load_selection_cache_coherent_witness :
  session_consistent [7] 10 example_viewer ∧
  @load_selection example_host example_row_1 example_viewer
  = (Returned tt, snd (@load_selection example_host example_row_1 example_viewer)) ∧
  session_consistent [7] 10 (snd (@load_selection example_host example_row_1 example_viewer)).
Proof.
  assert (Hrun : @load_selection example_host example_row_1 example_viewer
                 = (Returned tt, snd (@load_selection example_host example_row_1 example_viewer)))
    by (vm_compute; reflexivity).
  split; [exact example_viewer_session|]. split; [exact Hrun|].
  exact (proj1 (@load_selection_cache_coherent example_host [7] 10 example_row_1 _ _
                  example_viewer_session Hrun)).
Defined.

(** ** Cached objects stay cached *)

Lemma update_data_components_keeps key d data key' :
  maintains (cached key d) (_update_data_components data key').
Proof.
  intros s Hs. destruct (update_data_components_post data key' s) as (_ & _ & Hkeep & _).
  now apply Hkeep.
Qed.

Lemma cached_of_preserves {A : Type} key d (m : Action A) :
  preserves _loaded_data m -> maintains (cached key d) m.
Proof.
  intros Hm. exact (maintains_of_preserves _loaded_data (fun c => c !! key = Some d) m Hm).
Qed.

Section CacheStable.
Context `{Host}.
Variables (key : string) (d : nat).

Lemma load_selection_keeps_cached row : maintains (cached key d) (load_selection row).
Proof.
  intros s Hs. rewrite load_selection_phases. revert s Hs.
  apply maintains_bind.
  { apply cached_of_preserves, load_products_frame; reflexivity. }
  intros [[d1 d2] d3]. apply maintains_bind.
  { unfold store_products. repeat (apply maintains_bind; [|intros _]);
      apply update_data_components_keeps. }
  intros _. apply cached_of_preserves, render_data_frame. reflexivity.
Qed.

Ltac cached_step :=
  first
    [ apply load_selection_keeps_cached
    | assumption
    | apply maintains_ret | apply maintains_raise | apply maintains_lift | apply maintains_get
    | apply cached_of_preserves; apply preserves_modify; intros ?; reflexivity
    | apply maintains_bind; [ | intros ? ]
    | match goal with
      | |- maintains _ (match ?x with _ => _ end) => destruct x
      | |- maintains _ (if ?b then _ else _) => destruct b
      end ].

Lemma set_navigation_keeps_cached index : maintains (cached key d) (_set_navigation index).
Proof. unfold _set_navigation, modify_toolbar, catalog_getitem. repeat cached_step. Qed.

Lemma unpack_columns_keeps_cached mask comps :
  maintains (cached key d) (unpack_columns mask comps).
Proof. apply cached_of_preserves, unpack_columns_frame. reflexivity. Qed.

Lemma unpack_selection_keeps_cached data : maintains (cached key d) (_unpack_selection data).
Proof.
  pose proof set_navigation_keeps_cached as Hnav.
  pose proof unpack_columns_keeps_cached as Hcols.
  unfold _unpack_selection, rebuild_catalog, _update_navigation, modify_toolbar, catalog_getitem.
  repeat first [ apply Hnav | apply Hcols | cached_step ].
Qed.

Lemma handle_keeps_cached ev : maintains (cached key d) (handle ev).
Proof.
  destruct ev as [data|sub|index|]; simpl; unfold add_data, add_subset.
  - repeat first [ apply unpack_selection_keeps_cached | apply maintains_ret
                 | apply maintains_bind; [|intros ?] ].
  - repeat first [ apply unpack_selection_keeps_cached | apply maintains_ret
                 | apply maintains_bind; [|intros ?] ].
  - apply set_navigation_keeps_cached.
  - unfold closeEvent. repeat cached_step.
Qed.

End CacheStable.

(** X11.  An object cached under a key stays the object cached under that
    key through everything that happens to the viewer afterwards: other
    selections, new catalogs, failed loads, and closing. *)
Theorem cached_object_kept `{Host} (evs : list Event) (key : string) (d : nat) (s : Viewer) :
  _loaded_data s !! key = Some d ->
  _loaded_data (run_events evs s) !! key = Some d.
Proof.
  revert s. induction evs as [|ev evs IH]; intros s Hs; simpl; [exact Hs|].
  apply IH. exact (handle_keeps_cached key d ev s Hs).
Qed.

Lemma cached_object_kept_witness :
  _loaded_data example_viewer !! "spec1d" = Some 10 ∧
  _loaded_data (@run_events example_host
                  [Jump 2%Z; WindowClosed; DataAdded example_data; Jump 1%Z] example_viewer)
  !! "spec1d" = Some 10.
Proof.
  assert (Hcached : _loaded_data example_viewer !! "spec1d" = Some 10)
    by (vm_compute; reflexivity).
  split; [exact Hcached|].
  exact (@cached_object_kept example_host
           [Jump 2%Z; WindowClosed; DataAdded example_data; Jump 1%Z] "spec1d" 10
           example_viewer Hcached).
Defined.

(** ** The selector never points outside its entries *)

Lemma selector_in_range_of_state s s' :
  selector_state s' = selector_state s -> selector_in_range s -> selector_in_range s'.
Proof.
  unfold selector_state, selector_in_range, source_select_count. now intros [= -> ->].
Qed.

Lemma selector_in_range_of_preserves {A : Type} (m : Action A) :
  preserves selector_state m -> maintains selector_in_range m.
Proof. intros Hm s Hs. apply (selector_in_range_of_state s); [apply Hm|exact Hs]. Qed.

Lemma source_select_clear_in_range s :
  selector_in_range (set_toolbar (source_select_clear (toolbar s)) s).
Proof. unfold selector_in_range, source_select_count. simpl. reflexivity. Qed.

Lemma source_select_addItems_in_range ids s :
  selector_in_range s ->
  selector_in_range (set_toolbar (source_select_addItems ids (toolbar s)) s).
Proof.
  unfold selector_in_range, source_select_count.
  cbn [toolbar set_toolbar source_select_addItems source_select_items
       source_select_currentIndex].
  rewrite length_app.
  destruct (source_select_items (toolbar s)) as [|x items]; intros Hs.
  - destruct ids as [|y ids]; [exact Hs|]. cbn [length Nat.add] in *.
    repeat case_decide; lia.
  - cbn [length Nat.add] in *. repeat case_decide; lia.
Qed.

Lemma bind_maintains_at {A B : Type} (P : Viewer -> Prop) (m : Action A) (k : A -> Action B) s :
  P (snd (m s)) -> (∀ a, maintains P (k a)) -> P (snd ((m ≫= k) s)).
Proof.
  intros Hm Hk. unfold mbind, Action_bind.
  destruct (m s) as [[a|e] s1]; simpl in *; [now apply Hk|exact Hm].
Qed.

Section SelectorRange.
Context `{Host}.

Lemma load_selection_selector_state row : preserves selector_state (load_selection row).
Proof. intros s. unfold selector_state. now rewrite load_selection_toolbar. Qed.

Lemma boundary_buttons_in_range index :
  maintains selector_in_range
    ((if (index <=? 0)%Z then modify_toolbar (cycle_previous_setDisabled true)
      else modify_toolbar (cycle_previous_setDisabled false));;
     s' ← get;
     if (index >=? source_select_count (toolbar s') - 1)%Z
     then modify_toolbar (cycle_next_setDisabled true)
     else modify_toolbar (cycle_next_setDisabled false)).
Proof.
  intros s Hs. rewrite boundary_buttons_run. simpl.
  apply (selector_in_range_of_state s); [reflexivity|exact Hs].
Qed.

Lemma set_navigation_keeps_in_range index : maintains selector_in_range (_set_navigation index).
Proof.
  intros s Hs. unfold _set_navigation.
  rewrite (bind_returned _ _ s s s) by reflexivity.
  apply bind_maintains_at; [|intros _; apply boundary_buttons_in_range].
  destruct ((0 <=? index) && (index <? source_select_count (toolbar s)))%Z eqn:Hguard;
    [|exact Hs].
  apply in_range_decide in Hguard.
  set (s1 := set_toolbar (source_select_setCurrentIndex index (toolbar s)) s).
  assert (Hs1 : selector_in_range s1).
  { unfold selector_in_range, source_select_count in *. simpl.
    destruct (decide _) as [Hzero|_]; lia. }
  rewrite (bind_returned _ _ s tt s1) by reflexivity.
  apply (selector_in_range_of_preserves (row ← catalog_getitem index; load_selection row));
    [|exact Hs1].
  apply preserves_bind; [apply catalog_getitem_preserves|].
  intros row. apply load_selection_selector_state.
Qed.

Lemma update_navigation_in_range : maintains selector_in_range _update_navigation.
Proof.
  intros s _. unfold _update_navigation, modify_toolbar.
  set (s1 := set_toolbar (source_select_clear (toolbar s)) s).
  rewrite (bind_returned _ _ s tt s1) by reflexivity.
  rewrite (bind_returned _ _ s1 s1 s1) by reflexivity.
  pose proof (source_select_clear_in_range s) as Hs1. fold s1 in Hs1.
  destruct (catalog s1) as [t|]; [|exact Hs1].
  unfold lift. destruct (table_column "id" t) as [ids|e].
  - rewrite (bind_returned _ _ s1 ids s1) by reflexivity. simpl.
    now apply source_select_addItems_in_range.
  - rewrite (bind_raised _ _ s1 e s1) by reflexivity. exact Hs1.
Qed.

Lemma rebuild_catalog_in_range mask data :
  maintains selector_in_range (rebuild_catalog mask data).
Proof.
  unfold rebuild_catalog.
  apply maintains_bind.
  { apply selector_in_range_of_preserves, preserves_modify. reflexivity. }
  intros _. apply maintains_bind.
  { apply selector_in_range_of_preserves, unpack_columns_frame. reflexivity. }
  intros _. apply maintains_bind; [apply update_navigation_in_range|].
  intros _. apply maintains_bind; [apply set_navigation_keeps_in_range|].
  intros _. apply selector_in_range_of_preserves.
  apply preserves_bind; [apply catalog_getitem_preserves|].
  intros row. apply load_selection_selector_state.
Qed.

Lemma handle_in_range ev : maintains selector_in_range (handle ev).
Proof.
  destruct ev as [d|sub|index|]; simpl; unfold add_data, add_subset, _unpack_selection.
  - repeat first [ apply rebuild_catalog_in_range | apply maintains_ret
                 | apply maintains_bind; [|intros ?] ].
  - do 2 (apply maintains_bind; [|intros ?; apply maintains_ret]).
    destruct (to_mask sub) as [mask|]; [destruct (np_any mask)|];
      first [ apply rebuild_catalog_in_range | apply maintains_ret ].
  - apply set_navigation_keeps_in_range.
  - apply selector_in_range_of_preserves. unfold closeEvent.
    apply preserves_bind; [apply preserves_get|]. intros s.
    apply preserves_modify. reflexivity.
Qed.

End SelectorRange.

(** X12.  In every viewer that can be reached, whether the handlers on the
    way returned or raised, the selector points at one of its entries, or at
    none (index -1) when it has no entry. *)
Theorem reachable_selector_in_range `{Host} (s : Viewer) :
  reachable s ->
  if decide (source_select_count (toolbar s) = 0%Z)
  then source_select_currentIndex (toolbar s) = (-1)%Z
  else (0 ≤ source_select_currentIndex (toolbar s) < source_select_count (toolbar s))%Z.
Proof.
  intros (dc & fresh & evs & ->).
  assert (Hinit : selector_in_range (new_viewer dc fresh)) by reflexivity.
  revert Hinit. generalize (new_viewer dc fresh).
  induction evs as [|ev evs IH]; intros s Hs; simpl; [exact Hs|].
  apply IH. now apply handle_in_range.
Qed.

Lemma reachable_selector_in_range_witness :
  @reachable example_host example_viewer_at_1 ∧
  (0 ≤ source_select_currentIndex (toolbar example_viewer_at_1)
   < source_select_count (toolbar example_viewer_at_1))%Z.
Proof.
  assert (Hreach : @reachable example_host example_viewer_at_1).
  { exists [7], 10, [DataAdded example_data; Jump 1%Z]. reflexivity. }
  split; [exact Hreach|].
  pose proof (@reachable_selector_in_range example_host example_viewer_at_1 Hreach) as Hin.
  destruct (decide (source_select_count (toolbar example_viewer_at_1) = 0%Z)) as [Hzero|_];
    [|exact Hin].
  vm_compute in Hzero. discriminate Hzero.
Defined.

(** ** Rows that lack a column *)

Lemma row_getitem_missing name row :
  name ∉ colnames row -> row_getitem name row = Raised KeyError.
Proof.
  intros Hname. unfold row_getitem, colnames in *.
  now rewrite (proj2 (assoc_lookup_None name (row_cells row)) Hname).
Qed.

Lemma row_getitem_returned_colnames name row x :
  row_getitem name row = Returned x -> name ∈ colnames row.
Proof.
  unfold row_getitem, colnames.
  destruct (assoc_lookup name (row_cells row)) as [c|] eqn:Hc; [|discriminate]. intros _.
  apply assoc_lookup_elem_of in Hc. apply list_elem_of_fmap. now exists (name, c).
Qed.

(** X13.  Rendering a row that has no [slit_width] column, with three
    products that have the components and coordinates the plots need, raises
    [KeyError] half way: the three plots already show the new products, while
    the slit overlay and the metadata form are still those of the row shown
    before. *)
Theorem render_data_without_slit_width (row : Row) (d1 d2 d3 : DataObject) (s : Viewer)
    (x y yerr img2 img3 : list Z) (wcs2 wcs3 : Z) :
  named_components (object_values d1) !! "Wavelength" = Some x ->
  named_components (object_values d1) !! "Flux" = Some y ->
  named_components (object_values d1) !! "Uncertainty" = Some yerr ->
  coords_wcs (object_values d2) = Some wcs2 ->
  named_components (object_values d2) !! "Flux" = Some img2 ->
  coords_wcs (object_values d3) = Some wcs3 ->
  named_components (object_values d3) !! "Flux" = Some img3 ->
  "slit_width" ∉ colnames row ->
  let r := render_data row (Some d1) (Some d2) (Some d3) s in
  fst r = Raised KeyError ∧
  spectrum1d_widget (widgets (snd r)) = Some (x, y, yerr) ∧
  spectrum2d_widget (widgets (snd r)) = Some (img2, wcs2) ∧
  image_widget (widgets (snd r)) = Some (img3, wcs3) ∧
  image_shapes (widgets (snd r)) = image_shapes (widgets s) ∧
  meta_form_layout (widgets (snd r)) = meta_form_layout (widgets s).
Proof.
  intros Hx Hy Hyerr Hwcs2 Himg2 Hwcs3 Himg3 Hslit r. subst r.
  apply row_getitem_missing in Hslit.
  unfold render_data, component_data, coords_wcs_of, modify_widgets, mbind, Action_bind,
    lift, modify.
  rewrite Hx, Hy, Hyerr, Hwcs2, Himg2, Hwcs3, Himg3, Hslit. simpl. now repeat split.
Qed.

Lemma render_data_without_slit_width_witness :
  ("slit_width" ∉ colnames {| row_cells := [("id", CStr "z")] |}) ∧
  fst (render_data {| row_cells := [("id", CStr "z")] |}
         (Some {| object_id := 20; object_values := example_values 1 |})
         (Some {| object_id := 21; object_values := example_values 2 |})
         (Some {| object_id := 22; object_values := example_values 3 |}) example_viewer)
  = Raised KeyError ∧
  meta_form_layout
    (widgets (snd (render_data {| row_cells := [("id", CStr "z")] |}
                     (Some {| object_id := 20; object_values := example_values 1 |})
                     (Some {| object_id := 21; object_values := example_values 2 |})
                     (Some {| object_id := 22; object_values := example_values 3 |})
                     example_viewer)))
  = meta_form_layout (widgets example_viewer).
Proof.
  assert (Hslit : "slit_width" ∉ colnames {| row_cells := [("id", CStr "z")] |})
    by (apply (bool_decide_unpack _); vm_compute; exact I).
  split; [exact Hslit|].
  pose proof (render_data_without_slit_width {| row_cells := [("id", CStr "z")] |}
                {| object_id := 20; object_values := example_values 1 |}
                {| object_id := 21; object_values := example_values 2 |}
                {| object_id := 22; object_values := example_values 3 |}
                example_viewer [1]%Z [2]%Z [3]%Z [3]%Z [4]%Z 2%Z 3%Z
                ltac:(vm_compute; reflexivity) ltac:(vm_compute; reflexivity)
                ltac:(vm_compute; reflexivity) eq_refl ltac:(vm_compute; reflexivity)
                eq_refl ltac:(vm_compute; reflexivity) Hslit) as Hrender.
  cbv zeta in Hrender. destruct Hrender as (Hraise & _ & _ & _ & _ & Hform).
  split; [exact Hraise|exact Hform].
Defined.

(** X14.  A row that lacks one of the three path columns cannot be
    loaded: [load_selection] raises, and apart from the current row the
    viewer and the session are as before, with nothing stored or rendered. *)
Theorem load_selection_without_path_column `{Host} (row : Row) (s : Viewer) (col : string) :
  col ∈ ["spectrum1d"; "spectrum2d"; "cutout"] ->
  col ∉ colnames row ->
  ∃ e s',
    load_selection row s = (Raised e, s') ∧
    current_row s' = Some row ∧
    widgets s' = widgets s ∧
    _loaded_data s' = _loaded_data s ∧
    objects s' = objects s ∧
    data_collection s' = data_collection s.
Proof.
  intros Hcol Hmissing. rewrite load_selection_phases.
  pose proof (load_products_frame widgets row (fun _ _ => eq_refl) (fun _ _ => eq_refl) s) as Hw.
  pose proof (load_products_frame _loaded_data row (fun _ _ => eq_refl) (fun _ _ => eq_refl) s)
    as Hld.
  pose proof (load_products_frame objects row (fun _ _ => eq_refl) (fun _ _ => eq_refl) s)
    as Hobj.
  pose proof (load_products_frame data_collection row (fun _ _ => eq_refl) (fun _ _ => eq_refl) s)
    as Hdc.
  pose proof (load_selection_current_row row s) as Hrow.
  rewrite load_selection_phases in Hrow.
  destruct (load_products row s) as [[products|e] s1] eqn:Hload; simpl in *.
  - exfalso. apply load_products_returned_inv in Hload
      as (l1 & l2 & l3 & p1 & p2 & p3 & v1 & v2 & v3 & _ & Hp1 & Hp2 & Hp3 & _).
    apply row_getitem_returned_colnames in Hp1, Hp2, Hp3.
    repeat (apply elem_of_cons in Hcol as [->|Hcol]; [contradiction|]).
    now apply elem_of_nil in Hcol.
  - rewrite (bind_raised _ _ s e s1 Hload) in Hrow |- *. exists e, s1. now repeat split.
Qed.

Lemma load_selection_without_path_column_witness :
  ("cutout" ∈ ["spectrum1d"; "spectrum2d"; "cutout"]) ∧
  ("cutout" ∉ colnames {| row_cells := [("id", CStr "z"); ("spectrum1d", CStr "/d/s1a.fits");
                                         ("spectrum2d", CStr "/d/s2a.fits")] |}) ∧
  ∃ e,
    fst (@load_selection example_host
           {| row_cells := [("id", CStr "z"); ("spectrum1d", CStr "/d/s1a.fits");
                            ("spectrum2d", CStr "/d/s2a.fits")] |} example_viewer)
    = Raised e.
Proof.
  assert (Hcol : "cutout" ∈ ["spectrum1d"; "spectrum2d"; "cutout"])
    by (apply (bool_decide_unpack _); vm_compute; exact I).
  assert (Hmissing :
    "cutout" ∉ colnames {| row_cells := [("id", CStr "z"); ("spectrum1d", CStr "/d/s1a.fits");
                                          ("spectrum2d", CStr "/d/s2a.fits")] |})
    by (apply (bool_decide_unpack _); vm_compute; exact I).
  split; [exact Hcol|]. split; [exact Hmissing|].
  destruct (@load_selection_without_path_column example_host _ example_viewer "cutout"
              Hcol Hmissing) as (e & s' & Hrun & _).
  exists e. now rewrite Hrun.
Defined.

(** ** Product paths *)

Lemma split_slash_nonempty s : split_slash s ≠ [].
Proof.
  destruct s as [|c rest]; simpl; [discriminate|].
  destruct (Ascii.eqb c "/"); [discriminate|]. now destruct (split_slash rest).
Qed.

Lemma split_slash_no_slash s : has_slash s = false -> split_slash s = [s].
Proof.
  induction s as [|c rest IH]; simpl; [reflexivity|].
  destruct (Ascii.eqb c "/"); simpl; [discriminate|]. intros Hrest. now rewrite IH.
Qed.

Lemma split_slash_app a b :
  split_slash (a +:+ "/" +:+ b) = split_slash a ++ split_slash b.
Proof.
  induction a as [|c a IH]; simpl; [reflexivity|].
  destruct (Ascii.eqb c "/"); [now rewrite IH|].
  rewrite IH. pose proof (split_slash_nonempty a) as Hne.
  now destruct (split_slash a).
Qed.

Lemma join_fold_prefix c (l : list string) : ∀ x,
  fold_left (fun acc y => acc +:+ "/" +:+ y) l (String c x)
  = String c (fold_left (fun acc y => acc +:+ "/" +:+ y) l x).
Proof. induction l as [|y l IH]; intros x; simpl; [reflexivity|]. apply IH. Qed.

Lemma join_slash_prefix c x l : join_slash (String c x :: l) = String c (join_slash (x :: l)).
Proof. apply join_fold_prefix. Qed.

Lemma join_slash_empty_head y l : join_slash (EmptyString :: y :: l) = String "/" (join_slash (y :: l)).
Proof. simpl. apply join_fold_prefix. Qed.

(** ['/'.join(s.split('/'))] is [s]. *)
Lemma join_split_slash s : join_slash (split_slash s) = s.
Proof.
  induction s as [|c rest IH]; simpl; [reflexivity|].
  pose proof (split_slash_nonempty rest) as Hne.
  destruct (Ascii.eqb_spec c "/") as [->|_].
  - destruct (split_slash rest) as [|seg segs]; [congruence|].
    now rewrite join_slash_empty_head, IH.
  - destruct (split_slash rest) as [|seg segs]; [congruence|].
    now rewrite join_slash_prefix, IH.
Qed.

(** The directory part of [dir/file]. *)
Lemma parent_path_of_file dir file :
  has_slash file = false -> parent_path (dir +:+ "/" +:+ file) = dir.
Proof.
  intros Hfile. unfold parent_path.
  rewrite split_slash_app, (split_slash_no_slash file Hfile), removelast_last.
  apply join_split_slash.
Qed.

Lemma parent_path_no_slash file : has_slash file = false -> parent_path file = EmptyString.
Proof. intros Hfile. unfold parent_path. now rewrite (split_slash_no_slash file Hfile). Qed.

Lemma os_path_join_empty x : os_path_join EmptyString x = x.
Proof. unfold os_path_join. now destruct (starts_with_slash x). Qed.

(** X16.  For a product column ([spectrum1d], [spectrum2d], [cutout])
    read from the file [dir/file], each selected file name is joined, as by
    [os.path.join], to [dir], the directory of the catalog file: an absolute
    name stays as it is, a relative one is put under [dir].  When the catalog
    path has no directory part, the names are taken as they are. *)
Theorem product_paths_under_catalog_directory (mask : option (list bool)) (att : string)
    (labels selected : list string) (dir file : string) :
  is_product_column att = true ->
  has_slash file = false ->
  index_by_mask mask labels = Returned selected ->
  unpack_component mask att (CategoricalComponent labels (Some (dir +:+ "/" +:+ file)))
  = Returned (map (fun x => CStr (os_path_join dir x)) selected) ∧
  unpack_component mask att (CategoricalComponent labels (Some file))
  = Returned (map CStr selected) ∧
  ∀ x, x ∈ selected ->
       (starts_with_slash x = true -> os_path_join dir x = x) ∧
       (starts_with_slash x = false -> dir ≠ EmptyString -> ends_with_slash dir = false ->
        os_path_join dir x = dir +:+ "/" +:+ x).
Proof.
  intros Hatt Hfile Hsel. unfold unpack_component. rewrite Hsel, Hatt. simpl.
  rewrite (parent_path_of_file dir file Hfile), (parent_path_no_slash file Hfile).
  split; [reflexivity|]. split.
  - f_equal. apply map_ext. intros x. now rewrite os_path_join_empty.
  - intros x _. unfold os_path_join. split.
    + now intros ->.
    + intros -> Hdir Hend. rewrite Hend.
      destruct (String.eqb_spec dir EmptyString) as [->|_]; [congruence|reflexivity].
Qed.

Lemma product_paths_under_catalog_directory_witness :
  is_product_column "cutout" = true ∧
  has_slash "cat.txt" = false ∧
  index_by_mask (Some [true; false; true]) ["ca.fits"; "cb.fits"; "/abs/cc.fits"]
  = Returned ["ca.fits"; "/abs/cc.fits"] ∧
  unpack_component (Some [true; false; true]) "cutout"
    (CategoricalComponent ["ca.fits"; "cb.fits"; "/abs/cc.fits"] (Some ("/d" +:+ "/" +:+ "cat.txt")))
  = Returned [CStr "/d/ca.fits"; CStr "/abs/cc.fits"].
Proof.
  split; [reflexivity|]. split; [reflexivity|]. split; [reflexivity|].
  exact (proj1 (product_paths_under_catalog_directory (Some [true; false; true]) "cutout"
                  ["ca.fits"; "cb.fits"; "/abs/cc.fits"] ["ca.fits"; "/abs/cc.fits"]
                  "/d" "cat.txt" eq_refl eq_refl eq_refl)).
Defined.
